(** * boardy-api: the aggregation and authorization core

    A shallow embedding of the request handlers of the project-management
    backend: [getDashboardData], [getCalendarData], [createProject],
    [deleteProject] and [bulkAddProjectMembers].

    The external relational store is a record of tables; every call to it
    goes through a small state monad that records the call and lets the
    store answer with an error, as the [{ data, error }] replies of the
    client library do. *)

From Stdlib Require Import ZArith Lia Ascii String.
From stdpp Require Import base tactics option list sorting strings gmap.

Local Open Scope string_scope.
Local Open Scope list_scope.
Local Open Scope Z_scope.

(** * ECMAScript primitives used by the handlers *)

Module JS.

(** [new Set(xs)] read back with spread or [Array.from]: insertion order,
    first occurrence kept. *)
Definition set_add `{EqDecision A} (acc : list A) (x : A) : list A :=
  if decide (x ∈ acc) then acc else acc ++ [x].

Definition set_of `{EqDecision A} (xs : list A) : list A :=
  foldl set_add [] xs.

(** [String.prototype.toLowerCase], on the ASCII range. *)
Definition lower_ascii (c : ascii) : ascii :=
  let n := N_of_ascii c in
  if ((65 <=? n) && (n <=? 90))%N then ascii_of_N (n + 32) else c.

Fixpoint toLowerCase (s : string) : string :=
  match s with
  | EmptyString => EmptyString
  | String c s' => String (lower_ascii c) (toLowerCase s')
  end.

(** [String.prototype.trim], with the ASCII white space characters. *)
Definition is_space (c : ascii) : bool :=
  let n := N_of_ascii c in
  (((9 <=? n) && (n <=? 13)) || (n =? 32))%N.

Fixpoint trimStart (s : string) : string :=
  match s with
  | EmptyString => EmptyString
  | String c s' => if is_space c then trimStart s' else s
  end.

Fixpoint trimEnd (s : string) : string :=
  match s with
  | EmptyString => EmptyString
  | String c s' =>
      match trimEnd s' with
      | EmptyString => if is_space c then EmptyString else String c EmptyString
      | r => String c r
      end
  end.

Definition trim (s : string) : string := trimEnd (trimStart s).

(** Truthiness of a string and of a number. *)
Definition truthy_str (s : string) : bool :=
  match s with EmptyString => false | _ => true end.

Definition truthy_num (n : Z) : bool := negb (n =? 0).

End JS.

(** * The clock: [Date] in a zone at a fixed offset from UTC *)

Module Clock.

(** [now_ms] is the instant of the request in milliseconds since the epoch;
    [tz_offset_min] is what local time is ahead of UTC, in minutes (no
    daylight-saving change within the days a request looks at).  Calendar
    dates ([DATE] columns, [YYYY-MM-DD] strings) are day numbers since the
    epoch. *)
Record t := { now_ms : Z; tz_offset_min : Z }.

Definition ms_per_day : Z := 86400000.
Definition ms_per_min : Z := 60000.

(** The local calendar day an instant falls on. *)
Definition local_day (c : t) (ms : Z) : Z :=
  (ms + tz_offset_min c * ms_per_min) / ms_per_day.

(** [d.setHours(0, 0, 0, 0)]: the instant of local midnight of [d]'s day. *)
Definition setHours0 (c : t) (ms : Z) : Z :=
  local_day c ms * ms_per_day - tz_offset_min c * ms_per_min.

(** [d.toISOString().split("T")[0]]: the UTC calendar day of the instant. *)
Definition isoDate (ms : Z) : Z := ms / ms_per_day.

(** [d.setDate(d.getDate() + n)], in a zone whose offset is the same on
    both days: the instant moves by [n] times 24 hours. *)
Definition addDays (ms n : Z) : Z := ms + n * ms_per_day.

(** [new Date(v)] for the value of a [DATE] column: a date-only string is
    midnight UTC of that day, and [null] is the epoch. *)
Definition ofDate (v : option Z) : Z :=
  match v with
  | Some d => d * ms_per_day
  | None => 0
  end.

(** The date the server's wall clock shows. *)
Definition today (c : t) : Z := local_day c (now_ms c).

End Clock.

(** * Data model: the rows of the store

    Rows carry the columns the handlers read.  A [DATE] is a day number since
    the epoch and a timestamp is in milliseconds; a column that can come back
    as [null] is an [option].  The store generates the remaining columns of
    [project_members] ([id], [added_at]); no handler here reads them.  An
    empty [member_email] stands for a row without an email. *)

Record User := {
  user_id : Z;
  user_name : string;
  email : string;
}.

Record Project := {
  project_id : Z;
  project_uuid : string;
  name : string;
  description : option string;
  status : string;
  priority : string;
  start_date : option Z;
  end_date : option Z;
  owner_id : Z;
  created_at : Z;
}.

Record ProjectMember := {
  m_project_uuid : string;
  m_user_id : option Z;
  member_email : string;
  role : string;
}.

Record Task := {
  task_id : Z;
  t_project_uuid : string;
  title : string;
  t_description : option string;
  t_status : string;
  t_priority : string;
  due_date : option Z;
  t_created_at : Z;
}.

Record TaskAssignment := {
  a_task_id : Z;
  a_user_id : Z;
  assigned_at : Z;
}.

Record Store := {
  users : list User;
  projects : list Project;
  project_members : list ProjectMember;
  tasks : list Task;
  task_assignments : list TaskAssignment;
}.

(** * The store gateway

    A call either answers with data or with an error.  A [World] is the
    store together with the number of calls made so far in the request, the
    calls the store will answer with an error, and the log of the calls
    issued. *)

Inductive Reply (A : Type) : Type :=
| Data (a : A)
| Error.
Arguments Data {A} a.
Arguments Error {A}.

Inductive StoreOp : Type :=
| Select (table : string)
| InsertProject (row : Project)
| InsertMembers (rows : list ProjectMember)
| DeleteProjects (uuids : list string).

Record World := {
  db : Store;
  calls : nat;
  faults : nat → bool;
  log : list StoreOp;
}.

Definition M (A : Type) : Type := World → A * World.

#[global] Instance M_ret : MRet M := λ A a w, (a, w).
#[global] Instance M_bind : MBind M :=
  λ A B f m w, let (a, w') := m w in f a w'.

(** The world after one more call, with the store as [s] leaves it. *)
Definition tick (op : StoreOp) (s : Store) (w : World) : World :=
  {| db := s; calls := S (calls w); faults := faults w; log := log w ++ [op] |}.

Definition call {A} (op : StoreOp) (run : Store → A * Store) : M (Reply A) :=
  λ w,
    if faults w (calls w) then (Error, tick op (db w) w)
    else let (a, s') := run (db w) in (Data a, tick op s' w).

Definition select {A} (table : string) (q : Store → A) : M (Reply A) :=
  call (Select table) (λ s, (q s, s)).

Definition mutate (op : StoreOp) (f : Store → Store) : M (Reply unit) :=
  call op (λ s, (tt, f s)).

(** [data || []] *)
Definition rows_or_empty {A} (r : Reply (list A)) : list A :=
  match r with
  | Data l => l
  | Error => []
  end.

(** The store answers every call of the request. *)
Definition healthy (w : World) : Prop := ∀ n, faults w n = false.

(** What a handler sends: [res.status(code).json({ success: true, ... })] or
    [res.status(code).json({ success: false, message | error })].  Where the
    handler passes a store error on, [message] is the name the handler gives
    that error ([fetchError], [usersError], ...). *)
Inductive Response (A : Type) : Type :=
| Json (code : Z) (body : A)
| Fail (code : Z) (message : string).
Arguments Json {A} code body.
Arguments Fail {A} code message.

(** * Queries *)

Module Query.

(** [.gte(col, v)] and [.lte(col, v)] on a nullable [DATE] column: a
    comparison with [NULL] selects nothing. *)
Definition date_gte (col : option Z) (v : Z) : Prop :=
  match col with Some d => v ≤ d | None => False end.
Definition date_lte (col : option Z) (v : Z) : Prop :=
  match col with Some d => d ≤ v | None => False end.

#[global] Instance date_gte_dec col v : Decision (date_gte col v).
Proof. destruct col; simpl; apply _. Defined.
#[global] Instance date_lte_dec col v : Decision (date_lte col v).
Proof. destruct col; simpl; apply _. Defined.

(** [ORDER BY col ASC] on a nullable column: [NULL] sorts last. *)
Definition date_asc (a b : option Z) : Prop :=
  match a, b with
  | Some x, Some y => x ≤ y
  | _, None => True
  | None, Some _ => False
  end.

#[global] Instance date_asc_dec a b : Decision (date_asc a b).
Proof. destruct a, b; simpl; apply _. Defined.

(** [from("projects").select("project_uuid").eq("owner_id", userId)] *)
Definition owned_projects (userId : Z) (s : Store) : list Project :=
  filter (λ p, owner_id p = userId) (projects s).

(** [from("project_members").select(...).eq("user_id", userId)] *)
Definition member_rows (userId : Z) (s : Store) : list ProjectMember :=
  filter (λ m, m_user_id m = Some userId) (project_members s).

(** [from("projects").select(...).in("project_uuid", uuids)] *)
Definition projects_in (uuids : list string) (s : Store) : list Project :=
  filter (λ p, project_uuid p ∈ uuids) (projects s).

(** [from("project_members").select(...).in("project_uuid", uuids)] *)
Definition members_in (uuids : list string) (s : Store) : list ProjectMember :=
  filter (λ m, m_project_uuid m ∈ uuids) (project_members s).

(** [from("users").select("user_id, email").in("email", emails)] *)
Definition users_by_email (emails : list string) (s : Store) : list User :=
  filter (λ u, email u ∈ emails) (users s).

(** [from("tasks").select(...).in("project_uuid", uuids)] *)
Definition tasks_in (uuids : list string) (s : Store) : list Task :=
  filter (λ t, t_project_uuid t ∈ uuids) (tasks s).

(** [.order("created_at", { ascending: false })] *)
Definition created_desc (a b : Task) : Prop := t_created_at b ≤ t_created_at a.

(** [.order("due_date", { ascending: true })] *)
Definition due_asc (a b : Task) : Prop := date_asc (due_date a) (due_date b).

#[global] Instance created_desc_dec : RelDecision created_desc.
Proof. intros a b. unfold created_desc. apply _. Defined.
#[global] Instance due_asc_dec : RelDecision due_asc.
Proof. intros a b. unfold due_asc. apply _. Defined.

(** [....gte("created_at", since).order("created_at", { ascending: false }).limit(10)] *)
Definition recent_tasks (uuids : list string) (since : Z) (s : Store) : list Task :=
  take 10 (merge_sort created_desc
             (filter (λ t, since ≤ t_created_at t) (tasks_in uuids s))).

(** [....lte("due_date", hi).gte("due_date", lo).not("due_date", "is", null)
      .order("due_date", { ascending: true }).limit(10)] *)
Definition upcoming_tasks (uuids : list string) (lo hi : Z) (s : Store) : list Task :=
  take 10 (merge_sort due_asc
             (filter (λ t, date_lte (due_date t) hi ∧ date_gte (due_date t) lo
                           ∧ due_date t ≠ None)
                (tasks_in uuids s))).

End Query.

(** * Dashboard: [getDashboardData] *)

Record ProjectSummary := {
  s_project_id : Z;
  s_project_uuid : string;
  s_name : string;
}.

Record FormattedTask := {
  f_task_id : Z;
  f_project_id : option Z;
  f_project_uuid : string;
  f_name : string;
  f_description : option string;
  f_status : string;
  f_priority : string;
  f_due_date : option Z;
  f_created_at : Z;
  f_project : option ProjectSummary;
}.

Record Stats := {
  projectsByStatus : gmap string nat;
  tasksByStatus : gmap string nat;
  projectsByPriority : gmap string nat;
}.

Record DashboardData := {
  completedProjects : nat;
  totalProjects : nat;
  totalTeamMembers : nat;
  recentTasks : list FormattedTask;
  upcomingDeadlines : list FormattedTask;
  stats : Stats;
}.

Module Dashboard.

Definition emptyData : DashboardData :=
  {| completedProjects := 0; totalProjects := 0; totalTeamMembers := 0;
     recentTasks := []; upcomingDeadlines := [];
     stats := {| projectsByStatus := ∅; tasksByStatus := ∅;
                 projectsByPriority := ∅ |} |}.

(** The two reads joined by [Promise.all], then
    [[...new Set([...ownedProjectUuids, ...memberProjectUuids])]]. *)
Definition allProjectUuids (userId : Z) : M (Reply (list string)) :=
  ownedProjectsResult ← select "projects" (Query.owned_projects userId);
  memberProjectsResult ← select "project_members" (Query.member_rows userId);
  mret (match ownedProjectsResult, memberProjectsResult with
        | Data owned, Data member =>
            let ownedProjectUuids := project_uuid <$> owned in
            let memberProjectUuids := m_project_uuid <$> member in
            Data (JS.set_of (ownedProjectUuids ++ memberProjectUuids))
        | _, _ => Error
        end).

(** [endDate.setHours(0, 0, 0, 0); return endDate < today] *)
Definition is_completed (clk : Clock.t) (p : Project) : Prop :=
  Clock.setHours0 clk (Clock.ofDate (end_date p))
  < Clock.setHours0 clk (Clock.now_ms clk).

#[global] Instance is_completed_dec clk p : Decision (is_completed clk p).
Proof. unfold is_completed. apply _. Defined.

Definition completed (clk : Clock.t) (allProjects : list Project) : list Project :=
  filter (is_completed clk) allProjects.

(** The two [forEach] loops that fill [uniqueUserIds] and [memberEmails]. *)
Definition add_owner (ids : list Z) (p : Project) : list Z :=
  if JS.truthy_num (owner_id p) then JS.set_add ids (owner_id p) else ids.

Definition add_member (acc : list Z * list string) (m : ProjectMember)
  : list Z * list string :=
  let ids :=
    match m_user_id m with
    | Some u => if JS.truthy_num u then JS.set_add acc.1 u else acc.1
    | None => acc.1
    end in
  let emails :=
    if JS.truthy_str (member_email m)
    then JS.set_add acc.2 (JS.toLowerCase (member_email m))
    else acc.2 in
  (ids, emails).

Definition collect (allProjects : list Project) (allMembers : list ProjectMember)
  : list Z * list string :=
  foldl add_member (foldl add_owner [] allProjects, []) allMembers.

Definition add_user (ids : list Z) (u : User) : list Z :=
  if JS.truthy_num (user_id u) then JS.set_add ids (user_id u) else ids.

(** The sets the count is taken from, once the users behind the invited
    emails are known: the final [uniqueUserIds] and [emailsWithoutAccounts]. *)
Definition resolve (uniqueUserIds : list Z) (memberEmailsArray : list string)
    (usersByEmail : list User) : list Z * list string :=
  let ids := foldl add_user uniqueUserIds usersByEmail in
  let emailsWithAccounts :=
    JS.set_of ((λ u, JS.toLowerCase (email u)) <$> usersByEmail) in
  (ids, filter (λ e, e ∉ emailsWithAccounts) memberEmailsArray).

Definition teamSets (allProjects : list Project) (allMembers : list ProjectMember)
  : M (list Z * list string) :=
  let '(uniqueUserIds, memberEmailsArray) := collect allProjects allMembers in
  if decide (memberEmailsArray = []) then mret (uniqueUserIds, [])
  else
    usersByEmail ← select "users" (Query.users_by_email memberEmailsArray);
    mret (resolve uniqueUserIds memberEmailsArray (rows_or_empty usersByEmail)).

Definition summary (p : Project) : ProjectSummary :=
  {| s_project_id := project_id p; s_project_uuid := project_uuid p;
     s_name := name p |}.

Definition projectsMap (allProjects : list Project) : gmap string ProjectSummary :=
  foldl (λ m p, <[project_uuid p := summary p]> m) ∅ allProjects.

(** [counts[k] = (counts[k] || 0) + 1] *)
Definition bump (counts : gmap string nat) (k : string) : gmap string nat :=
  <[k := S (default 0%nat (counts !! k))]> counts.

Definition format (pm : gmap string ProjectSummary) (t : Task) : FormattedTask :=
  {| f_task_id := task_id t;
     f_project_id := s_project_id <$> pm !! t_project_uuid t;
     f_project_uuid := t_project_uuid t;
     f_name := title t;
     f_description := t_description t;
     f_status := t_status t;
     f_priority := t_priority t;
     f_due_date := due_date t;
     f_created_at := t_created_at t;
     f_project := pm !! t_project_uuid t |}.

(** The window of the upcoming-deadlines query, as the handler computes it. *)
Definition window_lo (clk : Clock.t) : Z :=
  Clock.isoDate (Clock.setHours0 clk (Clock.now_ms clk)).
Definition window_hi (clk : Clock.t) : Z :=
  Clock.isoDate (Clock.addDays (Clock.now_ms clk) 14).

Definition getDashboardData (clk : Clock.t) (userId : option Z)
  : M (Response DashboardData) :=
  match userId with
  | None => mret (Fail 401 "User not authenticated")
  | Some uid =>
    if negb (JS.truthy_num uid) then mret (Fail 401 "User not authenticated")
    else
    uuids ← allProjectUuids uid;
    match uuids with
    | Error => mret (Fail 500 "Failed to fetch user projects")
    | Data allProjectUuids =>
      if decide (allProjectUuids = []) then mret (Json 200 emptyData)
      else
      projectsR ← select "projects" (Query.projects_in allProjectUuids);
      match projectsR with
      | Error => mret (Fail 500 "Failed to fetch projects")
      | Data allProjects =>
        let completedProjects := completed clk allProjects in
        membersR ← select "project_members" (Query.members_in allProjectUuids);
        match membersR with
        | Error => mret (Fail 500 "Failed to fetch team members")
        | Data allMembers =>
          sets ← teamSets allProjects allMembers;
          let totalTeamMembers := (length sets.1 + length sets.2)%nat in
          let sevenDaysAgo := Clock.addDays (Clock.now_ms clk) (-7) in
          recentR ← select "tasks" (Query.recent_tasks allProjectUuids sevenDaysAgo);
          match recentR with
          | Error => mret (Fail 500 "Failed to fetch recent tasks")
          | Data recentTasksRaw =>
            upcomingR ← select "tasks"
              (Query.upcoming_tasks allProjectUuids (window_lo clk) (window_hi clk));
            match upcomingR with
            | Error => mret (Fail 500 "Failed to fetch upcoming deadlines")
            | Data upcomingTasksRaw =>
              allTasksR ← select "tasks" (Query.tasks_in allProjectUuids);
              let allTasks := rows_or_empty allTasksR in
              let pm := projectsMap allProjects in
              mret (Json 200
                {| completedProjects := length completedProjects;
                   totalProjects := length allProjects;
                   totalTeamMembers := totalTeamMembers;
                   recentTasks := format pm <$> recentTasksRaw;
                   upcomingDeadlines := format pm <$> upcomingTasksRaw;
                   stats :=
                     {| projectsByStatus := foldl bump ∅ (status <$> allProjects);
                        tasksByStatus := foldl bump ∅ (t_status <$> allTasks);
                        projectsByPriority := foldl bump ∅ (priority <$> allProjects) |}
                |})
            end
          end
        end
      end
    end
  end.

End Dashboard.

(** * Calendar: [getCalendarData] *)

(** A [project_members] row with its project embedded
    ([projects:project_uuid (...)]), and a [task_assignments] row with its
    task embedded ([tasks:task_id (...)]). *)
Record MemberProject := {
  mp_project_uuid : string;
  mp_role : string;
  mp_projects : option Project;
}.

Record AssignedTask := {
  at_task_id : Z;
  at_assigned_at : Z;
  at_tasks : option Task;
}.

(** [{ ...p, role, isOwner }] *)
Record CalendarProject := {
  cp_project : Project;
  cp_role : string;
  cp_isOwner : bool;
}.

(** [{ ...t, name, projects, assigned_at?, isAssigned }] *)
Record CalendarTask := {
  ct_task : Task;
  ct_name : string;
  ct_projects : option ProjectSummary;
  ct_assigned_at : option Z;
  ct_isAssigned : bool;
}.

Record CalendarSummary := {
  sum_totalProjects : nat;
  sum_ownedProjects : nat;
  sum_memberProjects : nat;
  sum_totalTasks : nat;
  sum_assignedTasks : nat;
}.

Record CalendarData := {
  cal_projects : list CalendarProject;
  cal_tasks : list CalendarTask;
  cal_summary : CalendarSummary;
}.

Module Calendar.

(** [if (start_date && end_date)]: the range is in force only when both
    query parameters are given. *)
Definition range (start_date end_date : option Z) : option (Z * Z) :=
  match start_date, end_date with
  | Some s, Some e => Some (s, e)
  | _, _ => None
  end.

(** [.gte("end_date", start_date).lte("start_date", end_date)] *)
Definition overlaps (r : option (Z * Z)) (p : Project) : Prop :=
  match r with
  | Some (s, e) => Query.date_gte (end_date p) s ∧ Query.date_lte (start_date p) e
  | None => True
  end.

#[global] Instance overlaps_dec r p : Decision (overlaps r p).
Proof. destruct r as [[s e]|]; simpl; apply _. Defined.

(** [.gte("due_date", start_date).lte("due_date", end_date).not("due_date", "is", null)] *)
Definition due_within (r : option (Z * Z)) (t : Task) : Prop :=
  match r with
  | Some (s, e) =>
      Query.date_gte (due_date t) s ∧ Query.date_lte (due_date t) e ∧ due_date t ≠ None
  | None => True
  end.

#[global] Instance due_within_dec r t : Decision (due_within r t).
Proof. destruct r as [[s e]|]; simpl; apply _. Defined.

Definition ownedProjectsQuery (userId : Z) (r : option (Z * Z)) (s : Store)
  : list Project :=
  filter (overlaps r) (Query.owned_projects userId s).

Definition embed_project (s : Store) (m : ProjectMember) : MemberProject :=
  {| mp_project_uuid := m_project_uuid m;
     mp_role := role m;
     mp_projects := snd <$> list_find (λ p, project_uuid p = m_project_uuid m) (projects s) |}.

Definition memberProjectsQuery (userId : Z) (s : Store) : list MemberProject :=
  embed_project s <$> Query.member_rows userId s.

Definition embed_task (s : Store) (a : TaskAssignment) : AssignedTask :=
  {| at_task_id := a_task_id a;
     at_assigned_at := assigned_at a;
     at_tasks := snd <$> list_find (λ t, task_id t = a_task_id a) (tasks s) |}.

Definition assignedTasksQuery (userId : Z) (s : Store) : list AssignedTask :=
  embed_task s <$> filter (λ a, a_user_id a = userId) (task_assignments s).

Definition projectTasksQuery (uuids : list string) (r : option (Z * Z)) (s : Store)
  : list Task :=
  filter (due_within r) (Query.tasks_in uuids s).

(** The two project reads; the second is not issued when the first fails. *)
Definition fetchProjects (userId : Z) (r : option (Z * Z))
  : M (string + list Project * list MemberProject) :=
  owned ← select "projects" (ownedProjectsQuery userId r);
  match owned with
  | Error => mret (inl "Failed to fetch owned projects")
  | Data ownedProjects =>
    member ← select "project_members" (memberProjectsQuery userId);
    match member with
    | Error => mret (inl "Failed to fetch member projects")
    | Data memberProjects => mret (inr (ownedProjects, memberProjects))
    end
  end.

Definition allProjectUuids (ownedProjects : list Project)
    (memberProjects : list MemberProject) : list string :=
  let ownedProjectUuids := project_uuid <$> ownedProjects in
  let memberProjectUuids := omap (λ m, project_uuid <$> mp_projects m) memberProjects in
  JS.set_of (ownedProjectUuids ++ memberProjectUuids).

Definition projectsMap (ownedProjects : list Project)
    (memberProjects : list MemberProject) : gmap string ProjectSummary :=
  Dashboard.projectsMap (ownedProjects ++ omap mp_projects memberProjects).

Definition formattedProjects (ownedProjects : list Project)
    (memberProjects : list MemberProject) : list CalendarProject :=
  ((λ p, {| cp_project := p; cp_role := "owner"; cp_isOwner := true |}) <$> ownedProjects)
  ++ omap (λ m, (λ p, {| cp_project := p; cp_role := mp_role m; cp_isOwner := false |})
                  <$> mp_projects m) memberProjects.

(** The [reduce] that keeps one element per key: the first one seen, replaced
    in place by a later one that [wins]. *)
Definition merge_step {A K} `{EqDecision K} (key : A → K) (wins : A → bool)
    (acc : list A) (x : A) : list A :=
  match list_find (λ y, key y = key x) acc with
  | None => acc ++ [x]
  | Some (index, _) => if wins x then <[index := x]> acc else acc
  end.

Definition uniqueProjects (formatted : list CalendarProject) : list CalendarProject :=
  foldl (merge_step (λ p, project_uuid (cp_project p)) cp_isOwner) [] formatted.

Definition uniqueTasks (allTasks : list CalendarTask) : list CalendarTask :=
  foldl (merge_step (λ t, task_id (ct_task t)) ct_isAssigned) [] allTasks.

(** [assignedTasksRaw.filter(at => task && allProjectUuids.includes(task.project_uuid))] *)
Definition in_projects (uuids : list string) (a : AssignedTask) : Prop :=
  match at_tasks a with
  | Some task => t_project_uuid task ∈ uuids
  | None => False
  end.

#[global] Instance in_projects_dec uuids a : Decision (in_projects uuids a).
Proof. unfold in_projects. destruct (at_tasks a); apply _. Defined.

Definition assignedTasks (uuids : list string) (raw : list AssignedTask)
  : list AssignedTask :=
  filter (in_projects uuids) raw.

Definition formattedAssignedTasks (pm : gmap string ProjectSummary)
    (assigned : list AssignedTask) : list CalendarTask :=
  omap (λ a, (λ t, {| ct_task := t; ct_name := title t;
                      ct_projects := pm !! t_project_uuid t;
                      ct_assigned_at := Some (at_assigned_at a);
                      ct_isAssigned := true |}) <$> at_tasks a) assigned.

Definition formattedProjectTasks (pm : gmap string ProjectSummary)
    (projectTasks : list Task) : list CalendarTask :=
  (λ t, {| ct_task := t; ct_name := title t;
           ct_projects := pm !! t_project_uuid t;
           ct_assigned_at := None;
           ct_isAssigned := false |}) <$> projectTasks.

Definition emptyData : CalendarData :=
  {| cal_projects := []; cal_tasks := [];
     cal_summary := {| sum_totalProjects := 0; sum_ownedProjects := 0;
                       sum_memberProjects := 0; sum_totalTasks := 0;
                       sum_assignedTasks := 0 |} |}.

Definition getCalendarData (userId : option Z) (userEmail : option string)
    (start_date end_date : option Z) : M (Response CalendarData) :=
  match userId, userEmail with
  | Some uid, Some mail =>
    if negb (JS.truthy_num uid) || negb (JS.truthy_str mail)
    then mret (Fail 401 "Unauthorized")
    else
    let r := range start_date end_date in
    fetched ← fetchProjects uid r;
    match fetched with
    | inl message => mret (Fail 500 message)
    | inr (ownedProjects, memberProjects) =>
      let uuids := allProjectUuids ownedProjects memberProjects in
      if decide (uuids = []) then mret (Json 200 emptyData)
      else
      assignedR ← select "task_assignments" (assignedTasksQuery uid);
      match assignedR with
      | Error => mret (Fail 500 "Failed to fetch assigned tasks")
      | Data assignedTasksRaw =>
        let assigned := assignedTasks uuids assignedTasksRaw in
        tasksR ← select "tasks" (projectTasksQuery uuids r);
        match tasksR with
        | Error => mret (Fail 500 "Failed to fetch project tasks")
        | Data projectTasks =>
          let pm := projectsMap ownedProjects memberProjects in
          let uniqueP := uniqueProjects (formattedProjects ownedProjects memberProjects) in
          let formattedAssigned := formattedAssignedTasks pm assigned in
          let allTasks := formattedAssigned ++ formattedProjectTasks pm projectTasks in
          let uniqueT := uniqueTasks allTasks in
          mret (Json 200
            {| cal_projects := uniqueP;
               cal_tasks := uniqueT;
               cal_summary :=
                 {| sum_totalProjects := length uniqueP;
                    sum_ownedProjects := length ownedProjects;
                    sum_memberProjects := length memberProjects;
                    sum_totalTasks := length uniqueT;
                    sum_assignedTasks := length formattedAssigned |} |})
        end
      end
    end
  | _, _ => mret (Fail 401 "Unauthorized")
  end.

End Calendar.

(** * Writes to the store *)

Module Write.

Definition insert_project (row : Project) (s : Store) : Store :=
  {| users := users s; projects := projects s ++ [row];
     project_members := project_members s; tasks := tasks s;
     task_assignments := task_assignments s |}.

Definition insert_members (rows : list ProjectMember) (s : Store) : Store :=
  {| users := users s; projects := projects s;
     project_members := project_members s ++ rows; tasks := tasks s;
     task_assignments := task_assignments s |}.

(** [from("projects").delete().in("project_uuid", uuids)]; with one uuid it is
    [.eq("project_uuid", uuid)].  The handlers ask for the rows of [projects]
    only; what the store's referential rules do to the rows that depend on
    them is not part of the request and is not modelled. *)
Definition delete_projects (uuids : list string) (s : Store) : Store :=
  {| users := users s;
     projects := filter (λ p, project_uuid p ∉ uuids) (projects s);
     project_members := project_members s; tasks := tasks s;
     task_assignments := task_assignments s |}.

End Write.

(** [Array.from(new Set(emails.map(e => e.trim().toLowerCase()).filter(Boolean)))] *)
Definition cleanEmails (emails : list string) : list string :=
  JS.set_of (filter (λ e, JS.truthy_str e = true)
               ((λ e, JS.toLowerCase (JS.trim e)) <$> emails)).

(** [.single()]: data only when exactly one row matches. *)
Definition single {A} (rows : list A) : option A :=
  match rows with
  | [x] => Some x
  | _ => None
  end.

Definition data_or_null {A} (r : Reply (option A)) : option A :=
  match r with
  | Data o => o
  | Error => None
  end.

(** [map.get(email) || null] *)
Definition get_or_null (m : gmap string Z) (k : string) : option Z :=
  match m !! k with
  | Some id => if JS.truthy_num id then Some id else None
  | None => None
  end.

(** * Projects: [createProject] and [deleteProject] *)

Record CreatedProject := {
  cr_project : Project;
  cr_membersAdded : option nat;
  cr_emailsSent : option nat;
}.

Module Projects.

(** [if (u?.email && u?.user_id) foundByEmail.set(String(u.email).toLowerCase(), Number(u.user_id))] *)
Definition foundByEmail (found : list User) : gmap string Z :=
  foldl (λ m u, if JS.truthy_str (email u) && JS.truthy_num (user_id u)
                then <[JS.toLowerCase (email u) := user_id u]> m else m) ∅ found.

Definition memberRows (projectUuid : string) (found : gmap string Z)
    (memberEmails : list string) : list ProjectMember :=
  (λ e, {| m_project_uuid := projectUuid; m_user_id := get_or_null found e;
           member_email := e; role := "viewer" |}) <$> memberEmails.

(** [row] is the request body without [memberEmails], as the store keeps it:
    with the columns it generates ([project_id], [project_uuid],
    [created_at]) filled in.  [memberEmailsRaw] is [None] when the body has
    no array of strings under [memberEmails].  Sending the invitations is
    left to the mail transport and does not touch the store. *)
Definition createProject (userId : option Z) (row : Project)
    (memberEmailsRaw : option (list string)) : M (Response CreatedProject) :=
  let memberEmails := cleanEmails <$> memberEmailsRaw in
  inserted ← mutate (InsertProject row) (Write.insert_project row);
  match inserted with
  | Error => mret (Fail 400 "projectError")
  | Data _ =>
    let projectUuid := project_uuid row in
    if negb (JS.truthy_str projectUuid)
    then mret (Fail 500 "Project created but missing project_uuid")
    else
    match memberEmails with
    | None | Some [] =>
        mret (Json 201 {| cr_project := row; cr_membersAdded := None;
                          cr_emailsSent := None |})
    | Some memberEmails =>
      usersR ← select "users" (Query.users_by_email memberEmails);
      match usersR with
      | Error =>
          _ ← mutate (DeleteProjects [projectUuid]) (Write.delete_projects [projectUuid]);
          mret (Fail 400 "usersError")
      | Data found =>
        let rows := memberRows projectUuid (foundByEmail found) memberEmails in
        membersR ← mutate (InsertMembers rows) (Write.insert_members rows);
        match membersR with
        | Error =>
            _ ← mutate (DeleteProjects [projectUuid]) (Write.delete_projects [projectUuid]);
            mret (Fail 400 "membersError")
        | Data _ =>
            _ ← select "users" (λ s, single (filter (λ u, Some (user_id u) = userId) (users s)));
            mret (Json 201 {| cr_project := row;
                              cr_membersAdded := Some (length rows);
                              cr_emailsSent := Some (length memberEmails) |})
        end
      end
    end
  end.

(** [projectIds] is the [projectIds] field of the body when it is an array. *)
Definition uuidsToDelete (singleUuid : string) (projectIds : option (list string))
  : list string :=
  match projectIds with
  | Some ((_ :: _) as ids) => ids
  | _ => [singleUuid]
  end.

(** The body of the success response is [{ deletedCount }]. *)
Definition deleteProject (userId : option Z) (singleUuid : string)
    (projectIds : option (list string)) : M (Response nat) :=
  match userId with
  | None => mret (Fail 401 "User not authenticated")
  | Some uid =>
    if negb (JS.truthy_num uid) then mret (Fail 401 "User not authenticated")
    else
    let uuids := uuidsToDelete singleUuid projectIds in
    fetched ← select "projects" (Query.projects_in uuids);
    match fetched with
    | Error => mret (Fail 400 "fetchError")
    | Data found =>
      let unauthorizedProjects := filter (λ p, owner_id p ≠ uid) found in
      if decide (unauthorizedProjects = [])
      then
        deleted ← mutate (DeleteProjects uuids) (Write.delete_projects uuids);
        match deleted with
        | Error => mret (Fail 400 "error")
        | Data _ => mret (Json 200 (length uuids))
        end
      else mret (Fail 403 "Access denied. You can only delete projects you own.")
    end
  end.

End Projects.

(** * Project members: [bulkAddProjectMembers] *)

Record BulkAdded := {
  ba_membersAdded : nat;
  ba_emailsSent : nat;
  ba_members : list ProjectMember;
}.

Module ProjectMembers.

Definition projectQuery (projectUuid : string) (s : Store) : option Project :=
  single (filter (λ p, project_uuid p = projectUuid) (projects s)).

Definition memberQuery (projectUuid : string) (userId : Z) (s : Store)
  : option ProjectMember :=
  single (filter (λ m, m_project_uuid m = projectUuid ∧ m_user_id m = Some userId)
            (project_members s)).

Definition existingMembersQuery (projectUuid : string) (s : Store)
  : list ProjectMember :=
  filter (λ m, m_project_uuid m = projectUuid) (project_members s).

(** [member.role !== "admin" && member.role !== "owner"] rejects. *)
Definition may_add (member : option ProjectMember) : bool :=
  match member with
  | Some m => bool_decide (role m = "admin") || bool_decide (role m = "owner")
  | None => false
  end.

Definition newEmails (clean : list string) (existingMembers : list ProjectMember)
  : list string :=
  let existingEmailSet :=
    JS.set_of ((λ m, JS.toLowerCase (member_email m)) <$> existingMembers) in
  filter (λ e, e ∉ existingEmailSet) clean.

(** [if (u.email) userByEmail.set(u.email.toLowerCase(), u.user_id)] *)
Definition userByEmail (found : list User) : gmap string Z :=
  foldl (λ m u, if JS.truthy_str (email u)
                then <[JS.toLowerCase (email u) := user_id u]> m else m) ∅ found.

Definition memberRows (projectUuid : string) (byEmail : gmap string Z)
    (defaultRole : option string) (emails : list string) : list ProjectMember :=
  let role_ :=
    match defaultRole with
    | Some r => if JS.truthy_str r then r else "viewer"
    | None => "viewer"
    end in
  (λ e, {| m_project_uuid := projectUuid; m_user_id := get_or_null byEmail e;
           member_email := e; role := role_ |}) <$> emails.

(** The checks on the caller, up to the point where the emails are cleaned;
    [inl] is the response that turns the request away. *)
Definition authorize (projectUuid : string) (userId : option Z)
    (memberEmails : option (list string)) : M (Response BulkAdded + Z * list string) :=
  match userId with
  | None => mret (inl (Fail 401 "User not authenticated"))
  | Some uid =>
    if negb (JS.truthy_num uid) then mret (inl (Fail 401 "User not authenticated"))
    else
    match memberEmails with
    | None | Some [] =>
        mret (inl (Fail 400 "memberEmails array is required and must not be empty"))
    | Some emails =>
      projectR ← select "projects" (projectQuery projectUuid);
      match data_or_null projectR with
      | None => mret (inl (Fail 404 "Project not found"))
      | Some project =>
        if decide (owner_id project = uid) then mret (inr (uid, emails))
        else
          memberR ← select "project_members" (memberQuery projectUuid uid);
          if may_add (data_or_null memberR) then mret (inr (uid, emails))
          else mret (inl (Fail 403
            "Access denied. Only project owners and admins can add members."))
      end
    end
  end.

Definition bulkAddProjectMembers (projectUuid : string) (userId : option Z)
    (memberEmails : option (list string)) (defaultRole : option string)
  : M (Response BulkAdded) :=
  allowed ← authorize projectUuid userId memberEmails;
  match allowed with
  | inl response => mret response
  | inr (uid, emails) =>
    let clean := cleanEmails emails in
    if decide (clean = []) then mret (Fail 400 "No valid email addresses provided")
    else
    existingR ← select "project_members" (existingMembersQuery projectUuid);
    let new := newEmails clean (rows_or_empty existingR) in
    if decide (new = [])
    then mret (Fail 409 "All provided emails are already members of this project")
    else
    usersR ← select "users" (Query.users_by_email new);
    let byEmail := userByEmail (rows_or_empty usersR) in
    let rows := memberRows projectUuid byEmail defaultRole new in
    insertedR ← mutate (InsertMembers rows) (Write.insert_members rows);
    match insertedR with
    | Error => mret (Fail 400 "error")
    | Data _ =>
      let emailsToInvite := filter (λ e, byEmail !! e = None) new in
      _ ← (if decide (emailsToInvite = []) then mret (Data None)
           else select "users" (λ s, single (filter (λ u, user_id u = uid) (users s))));
      mret (Json 201 {| ba_membersAdded := length rows;
                        ba_emailsSent := length emailsToInvite;
                        ba_members := rows |})
    end
  end.

End ProjectMembers.


(** * More ECMAScript primitives: [Map] and [Array.prototype.sort] *)

Module JSMap.

(** A [Map] as the list of its entries in insertion order. *)
Definition has {K V} `{EqDecision K} (m : list (K * V)) (k : K) : bool :=
  bool_decide (k ∈ m.*1).

Definition get {K V} `{EqDecision K} (m : list (K * V)) (k : K) : option V :=
  (λ found, found.2.2) <$> list_find (λ e, e.1 = k) m.

(** [m.set(k, v)]: a key that is there keeps its place and takes the new
    value; a new key goes to the end. *)
Definition set {K V} `{EqDecision K} (m : list (K * V)) (k : K) (v : V)
  : list (K * V) :=
  match list_find (λ e, e.1 = k) m with
  | Some (i, _) => <[i := (k, v)]> m
  | None => m ++ [(k, v)]
  end.

Definition keys {K V} (m : list (K * V)) : list K := m.*1.
Definition values {K V} (m : list (K * V)) : list V := m.*2.

(** [if (!m.has(k)) m.set(k, []); m.get(k).push(v)] *)
Definition push {K V} `{EqDecision K} (m : list (K * list V)) (k : K) (v : V)
  : list (K * list V) :=
  let m' := if has m k then m else set m k [] in
  match get m' k with
  | Some vs => set m' k (vs ++ [v])
  | None => m'
  end.

End JSMap.

(** [xs.sort((a, b) => f(a) - f(b))], which is stable; also the order an
    [ORDER BY] on a key without ties gives. *)
Fixpoint insert_by {A} (f : A → Z) (x : A) (l : list A) : list A :=
  match l with
  | [] => [x]
  | y :: l' => if decide (f y ≤ f x) then y :: insert_by f x l' else x :: l
  end.

Definition sort_by {A} (f : A → Z) (l : list A) : list A :=
  foldl (λ acc x, insert_by f x acc) [] l.

(** * Mail: [sendBatchProjectInvites] *)

Record BatchResult := {
  successful : nat;
  failed : nat;
}.

Module Mail.

(** [accepted] tells which recipients the mail transport takes.  Every
    mail is settled by [Promise.allSettled], a rejected one as well, and
    the two counts are returned; [inl] would be an exception. *)
Definition sendBatchProjectInvites (accepted : string → bool) (emails : list string)
  : string + BatchResult :=
  let results := accepted <$> emails in
  inr {| successful := length (filter (λ r, r = true) results);
         failed := length (filter (λ r, r = false) results) |}.

End Mail.

(** * Projects, the reading handlers: [listProjects], [getProjectById],
      [sendProjectInvites] *)

(** [{ ...project, memberEmails }] *)
Record ProjectWithMembers := {
  pw_project : Project;
  pw_memberEmails : list string;
}.

(** A project with its member rows embedded ([project_members(...)]). *)
Record ProjectAndMembers := {
  pm_project : Project;
  pm_members : list ProjectMember;
}.

(** [from("projects").select("owner_id, project_members!inner(user_id)")
      .eq("project_uuid", uuid).single()]: the inner join keeps a project only
    when it has a member row. *)
Definition projectWithInnerMembersQuery (uuid : string) (s : Store)
  : option ProjectAndMembers :=
  single
    (filter (λ project, pm_members project ≠ [])
       ((λ p, {| pm_project := p;
                 pm_members := filter (λ m, m_project_uuid m = project_uuid p)
                                 (project_members s) |})
          <$> filter (λ p, project_uuid p = uuid) (projects s))).

Module ProjectsRead.

(** [from("projects").select(...).eq("owner_id", userId).order("project_id")] *)
Definition ownedProjectsQuery (userId : Z) (s : Store) : list Project :=
  sort_by project_id (Query.owned_projects userId s).

(** [from("project_members").select("projects:project_uuid (...)").eq("user_id", userId)] *)
Definition memberProjectsQuery (userId : Z) (s : Store) : list (option Project) :=
  mp_projects <$> Calendar.memberProjectsQuery userId s.

(** The two loops that fill [projectMap]. *)
Definition add_owned (m : list (string * Project)) (p : Project)
  : list (string * Project) :=
  JSMap.set m (project_uuid p) p.

Definition add_member (m : list (string * Project)) (item : option Project)
  : list (string * Project) :=
  match item with
  | Some p => if JSMap.has m (project_uuid p) then m else JSMap.set m (project_uuid p) p
  | None => m
  end.

Definition projectMap (ownedProjects : list Project)
    (memberProjects : list (option Project)) : list (string * Project) :=
  foldl add_member (foldl add_owned [] ownedProjects) memberProjects.

(** The loop that fills [membersByProject]. *)
Definition add_email (m : list (string * list string)) (member : ProjectMember)
  : list (string * list string) :=
  JSMap.push m (m_project_uuid member) (member_email member).

Definition membersByProject (allMembers : list ProjectMember)
  : list (string * list string) :=
  foldl add_email [] allMembers.

Definition listProjects (userId : option Z) : M (Response (list ProjectWithMembers)) :=
  match userId with
  | None => mret (Fail 401 "User not authenticated")
  | Some uid =>
    if negb (JS.truthy_num uid) then mret (Fail 401 "User not authenticated")
    else
    ownedR ← select "projects" (ownedProjectsQuery uid);
    match ownedR with
    | Error => mret (Fail 400 "ownedError")
    | Data ownedProjects =>
      memberR ← select "project_members" (memberProjectsQuery uid);
      match memberR with
      | Error => mret (Fail 400 "memberError")
      | Data memberProjects =>
        let pmap := projectMap ownedProjects memberProjects in
        let projectUuids := JSMap.keys pmap in
        if decide (projectUuids = []) then mret (Json 200 [])
        else
        allMembersR ← select "project_members" (Query.members_in projectUuids);
        let byProject := membersByProject (rows_or_empty allMembersR) in
        let projectsWithMembers :=
          (λ p, {| pw_project := p;
                   pw_memberEmails := default [] (JSMap.get byProject (project_uuid p)) |})
            <$> JSMap.values pmap in
        mret (Json 200 (sort_by (λ e, project_id (pw_project e)) projectsWithMembers))
      end
    end
  end.

(** [from("projects").select("*, project_members(...)").eq("project_uuid", uuid).single()] *)
Definition projectWithMembersQuery (uuid : string) (s : Store)
  : option ProjectAndMembers :=
  (λ p, {| pm_project := p;
           pm_members := filter (λ m, m_project_uuid m = uuid) (project_members s) |})
    <$> single (filter (λ p, project_uuid p = uuid) (projects s)).

(** [project.project_members?.some(m => m.user_id === userId)] *)
Definition isMember (userId : Z) (members : list ProjectMember) : bool :=
  bool_decide (Exists (λ m, m_user_id m = Some userId) members).

Definition getProjectById (uuid : string) (userId : option Z)
  : M (Response ProjectWithMembers) :=
  match userId with
  | None => mret (Fail 401 "User not authenticated")
  | Some uid =>
    if negb (JS.truthy_num uid) then mret (Fail 401 "User not authenticated")
    else
    projectR ← select "projects" (projectWithMembersQuery uuid);
    match data_or_null projectR with
    | None => mret (Fail 404 "Project not found")
    | Some project =>
      let isOwner := bool_decide (owner_id (pm_project project) = uid) in
      if negb isOwner && negb (isMember uid (pm_members project))
      then mret (Fail 403 "Access denied. You are not a member of this project.")
      else mret (Json 200
        {| pw_project := pm_project project;
           pw_memberEmails :=
             filter (λ e, JS.truthy_str e = true) (member_email <$> pm_members project) |})
    end
  end.

(** The batch is awaited inside [try]; an exception is answered with 500.
    The body of the success response is [{ emailsSent }]. *)
Definition sendProjectInvites (projectUuid : string) (userId : option Z)
    (memberEmails : option (list string)) (accepted : string → bool)
  : M (Response nat) :=
  match userId with
  | None => mret (Fail 401 "User not authenticated")
  | Some uid =>
    if negb (JS.truthy_num uid) then mret (Fail 401 "User not authenticated")
    else
    match memberEmails with
    | None | Some [] => mret (Fail 400 "memberEmails array is required")
    | Some emails =>
      projectR ← select "projects" (projectWithMembersQuery projectUuid);
      match data_or_null projectR with
      | None => mret (Fail 404 "Project not found")
      | Some project =>
        let isOwner := bool_decide (owner_id (pm_project project) = uid) in
        if negb isOwner && negb (isMember uid (pm_members project))
        then mret (Fail 403
               "Access denied. Only project owners or members can send invites.")
        else
        let clean := cleanEmails emails in
        if decide (clean = []) then mret (Fail 400 "No valid email addresses provided")
        else
        _ ← select "users" (λ s, single (filter (λ u, user_id u = uid) (users s)));
        match Mail.sendBatchProjectInvites accepted clean with
        | inr _ => mret (Json 200 (length clean))
        | inl _ => mret (Fail 500 "Failed to send invitation emails")
        end
      end
    end
  end.

End ProjectsRead.

(** * Project members: [listProjectMembers] and [addProjectMember] *)

(** A member row with its user embedded ([users:user_id(...)]). *)
Record MemberWithUser := {
  mu_member : ProjectMember;
  mu_user : option User;
}.

Module Members.

Definition embed_user (s : Store) (userId : option Z) : option User :=
  match userId with
  | Some id => snd <$> list_find (λ u, user_id u = id) (users s)
  | None => None
  end.

(** [from("project_members").select("..., users:user_id(...)")
      .eq("project_uuid", uuid).order("added_at")]: the rows in the order
    they were added, which is the order of the table. *)
Definition membersQuery (uuid : string) (s : Store) : list MemberWithUser :=
  (λ m, {| mu_member := m; mu_user := embed_user s (m_user_id m) |})
    <$> filter (λ m, m_project_uuid m = uuid) (project_members s).

Definition listProjectMembers (projectUuid : string) (userId : option Z)
  : M (Response (list MemberWithUser)) :=
  match userId with
  | None => mret (Fail 401 "User not authenticated")
  | Some uid =>
    if negb (JS.truthy_num uid) then mret (Fail 401 "User not authenticated")
    else
    projectR ← select "projects" (projectWithInnerMembersQuery projectUuid);
    match data_or_null projectR with
    | None => mret (Fail 404 "Project not found")
    | Some project =>
      let isOwner := bool_decide (owner_id (pm_project project) = uid) in
      if negb isOwner && negb (ProjectsRead.isMember uid (pm_members project))
      then mret (Fail 403 "Access denied. You are not a member of this project.")
      else
      membersR ← select "project_members" (membersQuery projectUuid);
      match membersR with
      | Error => mret (Fail 400 "error")
      | Data rows => mret (Json 200 rows)
      end
    end
  end.

(** [.eq("project_uuid", projectUuid).eq("member_email", memberEmail).single()] *)
Definition existingQuery (projectUuid memberEmail : string) (s : Store)
  : option ProjectMember :=
  single (filter (λ m, m_project_uuid m = projectUuid ∧ member_email m = memberEmail)
            (project_members s)).

(** [from("users").select("user_id").eq("email", memberEmail).single()] *)
Definition userQuery (memberEmail : string) (s : Store) : option User :=
  single (filter (λ u, email u = memberEmail) (users s)).

(** [user?.user_id || null] *)
Definition resolved (user : option User) : option Z :=
  match user with
  | Some u => if JS.truthy_num (user_id u) then Some (user_id u) else None
  | None => None
  end.

Definition newMember (projectUuid : string) (user : option User)
    (memberEmail : string) (role_ : option string) : ProjectMember :=
  {| m_project_uuid := projectUuid;
     m_user_id := resolved user;
     member_email := memberEmail;
     role := match role_ with
             | Some r => if JS.truthy_str r then r else "viewer"
             | None => "viewer"
             end |}.

(** [member_email] and [role] are the fields of the request body.  The
    invitation to an address without an account is left to the mail
    transport. *)
Definition addProjectMember (projectUuid : string) (userId : option Z)
    (member_email_ : option string) (role_ : option string)
  : M (Response ProjectMember) :=
  match userId with
  | None => mret (Fail 401 "User not authenticated")
  | Some uid =>
    if negb (JS.truthy_num uid) then mret (Fail 401 "User not authenticated")
    else
    match member_email_ with
    | None | Some EmptyString => mret (Fail 400 "member_email is required")
    | Some raw =>
      projectR ← select "projects" (ProjectMembers.projectQuery projectUuid);
      match data_or_null projectR with
      | None => mret (Fail 404 "Project not found")
      | Some project =>
        allowed ←
          (if decide (owner_id project = uid) then mret true
           else
             memberR ← select "project_members" (ProjectMembers.memberQuery projectUuid uid);
             mret (ProjectMembers.may_add (data_or_null memberR)));
        if negb allowed
        then mret (Fail 403
               "Access denied. Only project owners and admins can add members.")
        else
        let memberEmail := JS.toLowerCase (JS.trim raw) in
        existingR ← select "project_members" (existingQuery projectUuid memberEmail);
        match data_or_null existingR with
        | Some _ => mret (Fail 409 "Member already exists in this project")
        | None =>
          userR ← select "users" (userQuery memberEmail);
          let user := data_or_null userR in
          let row := newMember projectUuid user memberEmail role_ in
          insertedR ← mutate (InsertMembers [row]) (Write.insert_members [row]);
          match insertedR with
          | Error => mret (Fail 400 "error")
          | Data _ =>
            _ ← (match user with
                 | Some _ => mret (Data None)
                 | None =>
                     select "users" (λ s, single (filter (λ u, user_id u = uid) (users s)))
                 end);
            mret (Json 201 row)
          end
        end
      end
    end
  end.

End Members.

(** * Tasks: [listTasks] *)

(** [{ user_id, name, email }] *)
Record Assignee := {
  as_user_id : Z;
  as_name : option string;
  as_email : option string;
}.

(** A [task_assignments] row with its user embedded. *)
Record AssignmentWithUser := {
  au_task_id : Z;
  au_user_id : Z;
  au_users : option User;
}.

(** [{ ...task, projects: { name }, assignees }] *)
Record TaskWithAssignees := {
  ta_task : Task;
  ta_projects : option string;
  ta_assignees : list Assignee;
}.

Module Tasks.

(** [from("tasks").select("..., projects:project_uuid(name)")
      .order("task_id", { ascending: false })] with [.eq("project_uuid", uuid)]
    or [.in("project_uuid", uuids)]; the pair is the task and the name of
    its project. *)
Definition tasksQuery (uuids : list string) (s : Store)
  : list (Task * option string) :=
  (λ t, (t, (λ found, name found.2)
              <$> list_find (λ p, project_uuid p = t_project_uuid t) (projects s)))
    <$> sort_by (λ t, - task_id t) (Query.tasks_in uuids s).

(** [from("task_assignments").select("task_id, user_id, users:user_id(name, email)")
      .in("task_id", taskIds)] *)
Definition assignmentsQuery (taskIds : list Z) (s : Store) : list AssignmentWithUser :=
  (λ a, {| au_task_id := a_task_id a; au_user_id := a_user_id a;
           au_users := snd <$> list_find (λ u, user_id u = a_user_id a) (users s) |})
    <$> filter (λ a, a_task_id a ∈ taskIds) (task_assignments s).

(** The loop that fills [assignmentsByTask]. *)
Definition add_assignment (m : list (Z * list Assignee)) (assignment : AssignmentWithUser)
  : list (Z * list Assignee) :=
  JSMap.push m (au_task_id assignment)
    {| as_user_id := au_user_id assignment;
       as_name := user_name <$> au_users assignment;
       as_email := email <$> au_users assignment |}.

Definition assignmentsByTask (assignments : list AssignmentWithUser)
  : list (Z * list Assignee) :=
  foldl add_assignment [] assignments.

(** The projects the tasks are taken from: the project of the query
    parameter once the caller's access to it is checked, or all projects
    of the caller; [inl] is the response that ends the request early. *)
Definition scope (uid : Z) (projectUuid : option string)
  : M (Response (list TaskWithAssignees) + list string) :=
  match projectUuid with
  | Some ((String _ _) as uuid) =>
    projectR ← select "projects" (projectWithInnerMembersQuery uuid);
    match data_or_null projectR with
    | None => mret (inl (Fail 404 "Project not found"))
    | Some project =>
      let isOwner := bool_decide (owner_id (pm_project project) = uid) in
      if negb isOwner && negb (ProjectsRead.isMember uid (pm_members project))
      then mret (inl (Fail 403 "Access denied. You are not a member of this project."))
      else mret (inr [uuid])
    end
  | _ =>
    userProjects ← select "project_members" (Query.member_rows uid);
    ownedProjects ← select "projects" (Query.owned_projects uid);
    let projectUuids :=
      JS.set_of ((m_project_uuid <$> rows_or_empty userProjects)
                 ++ (project_uuid <$> rows_or_empty ownedProjects)) in
    if decide (projectUuids = []) then mret (inl (Json 200 []))
    else mret (inr projectUuids)
  end.

(** [projectUuid] is the query parameter of that name. *)
Definition listTasks (userId : option Z) (projectUuid : option string)
  : M (Response (list TaskWithAssignees)) :=
  match userId with
  | None => mret (Fail 401 "User not authenticated")
  | Some uid =>
    if negb (JS.truthy_num uid) then mret (Fail 401 "User not authenticated")
    else
    scoped ← scope uid projectUuid;
    match scoped with
    | inl response => mret response
    | inr uuids =>
      tasksR ← select "tasks" (tasksQuery uuids);
      match tasksR with
      | Error => mret (Fail 400 "error")
      | Data [] => mret (Json 200 [])
      | Data tasks =>
        let taskIds := (λ t, task_id t.1) <$> tasks in
        assignmentsR ← select "task_assignments" (assignmentsQuery taskIds);
        let byTask := assignmentsByTask (rows_or_empty assignmentsR) in
        mret (Json 200
          ((λ t, {| ta_task := t.1; ta_projects := t.2;
                    ta_assignees := default [] (JSMap.get byTask (task_id t.1)) |})
             <$> tasks))
      end
    end
  end.

End Tasks.

(** * The error middleware: [errorHandler] *)



Module ErrorHandler.




End ErrorHandler.
(** * The two sources of the visibility set *)

(** Projects the user owns, and projects with a member row of the user. *)
Definition owns (s : Store) (userId : Z) (uuid : string) : Prop :=
  ∃ p, p ∈ projects s ∧ owner_id p = userId ∧ project_uuid p = uuid.

Definition member_of (s : Store) (userId : Z) (uuid : string) : Prop :=
  ∃ m, m ∈ project_members s ∧ m_user_id m = Some userId ∧ m_project_uuid m = uuid.

(** Owned projects that pass the calendar's date-range filter. *)
Definition owns_overlapping (s : Store) (r : option (Z * Z)) (userId : Z)
    (uuid : string) : Prop :=
  ∃ p, p ∈ projects s ∧ owner_id p = userId ∧ project_uuid p = uuid
       ∧ Calendar.overlaps r p.

(** Referential integrity of [project_members.project_uuid]. *)
Definition members_reference_projects (s : Store) : Prop :=
  Forall (λ m, Exists (λ p, project_uuid p = m_project_uuid m) (projects s))
    (project_members s).

(** * Concrete stores *)

Module Scenario.

Definition world_of (s : Store) (f : nat → bool) : World :=
  {| db := s; calls := 0; faults := f; log := [] |}.

Definition no_faults : nat → bool := λ _, false.

Definition U : User := {| user_id := 1; user_name := "U"; email := "u@x.com" |}.
Definition V : User := {| user_id := 2; user_name := "V"; email := "v@x.com" |}.

Definition project (id : Z) (uuid : string) (owner : Z) (starts ends : option Z)
  : Project :=
  {| project_id := id; project_uuid := uuid; name := uuid; description := None;
     status := "On track"; priority := "Medium"; start_date := starts;
     end_date := ends; owner_id := owner; created_at := 0 |}.

Definition member (uuid : string) (uid : option Z) (mail : string) : ProjectMember :=
  {| m_project_uuid := uuid; m_user_id := uid; member_email := mail;
     role := "viewer" |}.

Definition task (id : Z) (uuid : string) (due : option Z) : Task :=
  {| task_id := id; t_project_uuid := uuid; title := "task"; t_description := None;
     t_status := "On track"; t_priority := "Medium"; due_date := due;
     t_created_at := 0 |}.

(** U owns P1; V owns P2 and invited U to it by email before U registered:
    the member row has U's email and no user id. *)
Definition invited : Store :=
  {| users := [U; V];
     projects := [project 1 "p1" 1 (Some 20750) (Some 20800);
                  project 2 "p2" 2 (Some 20750) (Some 20800)];
     project_members := [member "p2" None "u@x.com"];
     tasks := [];
     task_assignments := [] |}.

(** U owns P1 and is also listed as a member of it; U is a member of P2. *)
Definition shared : Store :=
  {| users := [U; V];
     projects := [project 1 "p1" 1 (Some 20750) (Some 20800);
                  project 2 "p2" 2 (Some 20750) (Some 20800)];
     project_members := [member "p1" (Some 1) "u@x.com";
                         member "p2" (Some 1) "u@x.com"];
     tasks := [task 1 "p1" (Some 20760); task 2 "p2" None];
     task_assignments := [{| a_task_id := 1; a_user_id := 1; assigned_at := 5 |}] |}.

(** U owns P1, which has a task that was due on 2026-11-01 (day 20758) and
    one due on 2026-11-10. *)
Definition overdue : Store :=
  {| users := [U];
     projects := [project 1 "p1" 1 (Some 20700) (Some 20800)];
     project_members := [];
     tasks := [task 1 "p1" (Some 20758); task 2 "p1" (Some 20767);
               task 3 "p1" None];
     task_assignments := [] |}.



(** U signed in through the identity provider, which reported the address
    [U@x.com]; the sign-in sync stores the address as reported. *)
Definition U_synced : User :=
  {| user_id := 1; user_name := "U"; email := "U@x.com" |}.

(** U has signed in and has no project yet. *)
Definition signed_in : Store :=
  {| users := [U_synced];
     projects := [];
     project_members := [];
     tasks := [];
     task_assignments := [] |}.

(** U created P1 and listed the own address among the member emails; the
    handlers keep invited emails in lower case and look users up by that
    string, so the member row has no user id. *)
Definition own_address : Store :=
  {| users := [U_synced];
     projects := [project 1 "p1" 1 (Some 20750) (Some 20800)];
     project_members := [member "p1" None "u@x.com"];
     tasks := [];
     task_assignments := [] |}.

End Scenario.

(** * Closed forms of the dashboard on a healthy store *)

(** The visibility set of [userId]. *)
Definition visible (s : Store) (userId : Z) : list string :=
  JS.set_of ((project_uuid <$> Query.owned_projects userId s)
             ++ (m_project_uuid <$> Query.member_rows userId s)).

(** The final [uniqueUserIds] and [emailsWithoutAccounts] for the given
    projects and member rows. *)
Definition team_sets (s : Store) (allProjects : list Project)
    (allMembers : list ProjectMember) : list Z * list string :=
  let c := Dashboard.collect allProjects allMembers in
  Dashboard.resolve c.1 c.2 (Query.users_by_email c.2 s).

Definition team_size (s : Store) (allProjects : list Project)
    (allMembers : list ProjectMember) : nat :=
  (length (team_sets s allProjects allMembers).1
   + length (team_sets s allProjects allMembers).2)%nat.

(** * C6: the team-size estimate in the claim's words *)

(** A registered user matches an invited email when the two are equal up to
    letter case. *)
Definition matches (u : User) (m : ProjectMember) : Prop :=
  member_email m ≠ "" ∧ JS.toLowerCase (email u) = JS.toLowerCase (member_email m).

#[global] Instance matches_dec u m : Decision (matches u m).
Proof. unfold matches. apply _. Defined.

(** Owners, members with a resolved user id, and users whose registered
    email matches an invited email. *)
Definition known_user_ids (s : Store) (allProjects : list Project)
    (allMembers : list ProjectMember) : gset Z :=
  list_to_set (owner_id <$> allProjects)
  ∪ list_to_set (omap m_user_id allMembers)
  ∪ list_to_set (user_id <$> filter (λ u, Exists (matches u) allMembers) (users s)).

(** Invited emails that match no registered user. *)
Definition unregistered_emails (s : Store) (allMembers : list ProjectMember)
  : gset string :=
  list_to_set
    ((λ m, JS.toLowerCase (member_email m))
       <$> filter (λ m, member_email m ≠ "" ∧ ¬ Exists (λ u, matches u m) (users s))
             allMembers).

(** Ids are positive serial numbers, and registered emails are kept in lower
    case. *)
Definition ids_positive (s : Store) : Prop :=
  Forall (λ u, 0 < user_id u) (users s)
  ∧ Forall (λ p, 0 < owner_id p) (projects s)
  ∧ Forall (λ m, from_option (λ u, 0 < u) True (m_user_id m)) (project_members s).

Definition emails_lower_case (s : Store) : Prop :=
  Forall (λ u, JS.toLowerCase (email u) = email u) (users s).

(** The same request against another state of the store. *)
Definition with_db (s : Store) (w : World) : World :=
  {| db := s; calls := calls w; faults := faults w; log := log w |}.

(** * Concrete clocks *)

Module Clocks.

(** Day 20759 is 2026-11-02. *)
Definition nov2 : Z := 20759.

(** 10:00 on 2026-11-02 on a server that runs on UTC. *)
Definition utc_morning : Clock.t :=
  {| Clock.now_ms := nov2 * Clock.ms_per_day + 10 * 3600000;
     Clock.tz_offset_min := 0 |}.

(** 10:00 local time on 2026-11-02 on a server at UTC+05:30, which is
    04:30 UTC of the same day. *)
Definition kolkata_morning : Clock.t :=
  {| Clock.now_ms := nov2 * Clock.ms_per_day + 10 * 3600000 - 330 * Clock.ms_per_min;
     Clock.tz_offset_min := 330 |}.


End Clocks.

(** * C5: a project that ended before today, in the claim's words *)

(** The end date is a day strictly before [today]; a project without an end
    date has not ended. *)
Definition ended_before (today : Z) (p : Project) : Prop :=
  match end_date p with
  | Some e => e < today
  | None => False
  end.

#[global] Instance ended_before_dec today p : Decision (ended_before today p).
Proof. unfold ended_before. destruct (end_date p); apply _. Defined.

(** * What a run did to the store *)

(** The calls a run issued, from the world before it and the world after. *)
Definition issued (w w' : World) : list StoreOp :=
  drop (length (log w)) (log w').

Definition is_write (op : StoreOp) : Prop :=
  match op with
  | Select _ => False
  | _ => True
  end.

#[global] Instance is_write_dec op : Decision (is_write op).
Proof. destruct op; simpl; apply _. Defined.

Definition writes (w w' : World) : list StoreOp := filter is_write (issued w w').

(** * C7: who may add members *)

(** The project exists and the caller is its owner, or a member of it with
    the role [admin] or [owner]. *)
Definition may_add_members (s : Store) (projectUuid : string) (userId : Z) : Prop :=
  ∃ project, ProjectMembers.projectQuery projectUuid s = Some project
    ∧ (owner_id project = userId
       ∨ ProjectMembers.may_add (ProjectMembers.memberQuery projectUuid userId s) = true).

(** The store refuses exactly the call with the given index. *)
Definition fault_at (k : nat) : nat → bool := λ n, bool_decide (n = k).

(** * C3: the invariant of the merging [reduce] *)

(** What holds of the accumulator once the elements of [seen] went in: one
    element per key, every key seen is there, and an element that does not
    win is there only when no element seen with its key wins. *)
Record merged {A K : Type} (key : A → K) (wins : A → bool) (acc seen : list A)
  : Prop := {
  merged_NoDup : NoDup (key <$> acc);
  merged_sub : ∀ x, x ∈ acc → x ∈ seen;
  merged_keys : ∀ y, y ∈ seen → key y ∈ key <$> acc;
  merged_wins : ∀ x, x ∈ acc → wins x = false →
                ∀ y, y ∈ seen → key y = key x → wins y = false;
}.

(** * Handlers that only read *)

(** Whatever the store answers, the run leaves it as it was and issues no
    write. *)
Definition reads_only {A} (m : M A) : Prop :=
  ∀ w, db (m w).2 = db w
       ∧ ∃ ops, log (m w).2 = log w ++ ops ∧ filter is_write ops = [].

(** * The dashboard's answer on a healthy store *)

Definition dashboard_data (clk : Clock.t) (s : Store) (userId : Z) : DashboardData :=
  let V := visible s userId in
  let allProjects := Query.projects_in V s in
  let pm := Dashboard.projectsMap allProjects in
  {| completedProjects := length (Dashboard.completed clk allProjects);
     totalProjects := length allProjects;
     totalTeamMembers := team_size s allProjects (Query.members_in V s);
     recentTasks :=
       Dashboard.format pm
         <$> Query.recent_tasks V (Clock.addDays (Clock.now_ms clk) (-7)) s;
     upcomingDeadlines :=
       Dashboard.format pm
         <$> Query.upcoming_tasks V (Dashboard.window_lo clk) (Dashboard.window_hi clk) s;
     stats :=
       {| projectsByStatus := foldl Dashboard.bump ∅ (status <$> allProjects);
          tasksByStatus := foldl Dashboard.bump ∅ (t_status <$> Query.tasks_in V s);
          projectsByPriority := foldl Dashboard.bump ∅ (priority <$> allProjects) |} |}.

(** * The calendar's answer on a healthy store *)

Definition calendar_data (s : Store) (userId : Z) (r : option (Z * Z)) : CalendarData :=
  let owned := Calendar.ownedProjectsQuery userId r s in
  let member := Calendar.memberProjectsQuery userId s in
  let V := Calendar.allProjectUuids owned member in
  if decide (V = []) then Calendar.emptyData
  else
    let pm := Calendar.projectsMap owned member in
    let uniqueP := Calendar.uniqueProjects (Calendar.formattedProjects owned member) in
    let formattedAssigned :=
      Calendar.formattedAssignedTasks pm
        (Calendar.assignedTasks V (Calendar.assignedTasksQuery userId s)) in
    let uniqueT :=
      Calendar.uniqueTasks
        (formattedAssigned
         ++ Calendar.formattedProjectTasks pm (Calendar.projectTasksQuery V r s)) in
    {| cal_projects := uniqueP;
       cal_tasks := uniqueT;
       cal_summary :=
         {| sum_totalProjects := length uniqueP;
            sum_ownedProjects := length owned;
            sum_memberProjects := length member;
            sum_totalTasks := length uniqueT;
            sum_assignedTasks := length formattedAssigned |} |}.

(** The keys the calendar merges on. *)
Definition cp_uuid (p : CalendarProject) : string := project_uuid (cp_project p).
Definition ct_id (t : CalendarTask) : Z := task_id (ct_task t).

(** The caller has at most one assignment row per task. *)
Definition assignments_unique (s : Store) (userId : Z) : Prop :=
  NoDup (a_task_id <$> filter (λ a, a_user_id a = userId) (task_assignments s)).

(** Every task has its own id. *)
Definition task_ids_unique (s : Store) : Prop := NoDup (task_id <$> tasks s).

(** * The member rows [createProject] inserts *)

Definition created_rows (s : Store) (row : Project)
    (memberEmailsRaw : option (list string)) : list ProjectMember :=
  let clean := default [] (cleanEmails <$> memberEmailsRaw) in
  Projects.memberRows (project_uuid row)
    (Projects.foundByEmail (Query.users_by_email clean s)) clean.

(** No two registered users have the same email up to letter case. *)
Definition emails_unique (s : Store) : Prop :=
  NoDup ((λ u, JS.toLowerCase (email u)) <$> users s).

(** No project and no member row of the store has the UUID. *)
Definition fresh_uuid (s : Store) (uuid : string) : Prop :=
  (∀ p, p ∈ projects s → project_uuid p ≠ uuid)
  ∧ (∀ m, m ∈ project_members s → m_project_uuid m ≠ uuid).

(** * Writes of the member handlers *)

(** The run wrote nothing, or it issued one insert of member rows of the
    project, on behalf of a caller who may add members. *)
Definition guarded_insert (projectUuid : string) (userId : option Z) (w w' : World)
  : Prop :=
  (writes w w' = [] ∧ db w' = db w)
  ∨ ∃ uid rows, userId = Some uid ∧ uid ≠ 0
      ∧ may_add_members (db w) projectUuid uid
      ∧ writes w w' = [InsertMembers rows]
      ∧ Forall (λ m, m_project_uuid m = projectUuid) rows
      ∧ (db w' = db w ∨ db w' = Write.insert_members rows (db w)).

(** The email of a member row as the handlers compare it. *)
Definition lower_email (m : ProjectMember) : string := JS.toLowerCase (member_email m).

(** The caller is the owner of the project. *)
Definition owner_of (s : Store) (projectUuid : string) (userId : Z) : Prop :=
  ∃ project, ProjectMembers.projectQuery projectUuid s = Some project
             ∧ owner_id project = userId.

(** * The task list on a healthy store *)

(** The entry [listTasks] builds for a task, from the assignments of the
    store. *)
Definition task_entry (s : Store) (taskIds : list Z) (t : Task * option string)
  : TaskWithAssignees :=
  {| ta_task := t.1; ta_projects := t.2;
     ta_assignees :=
       default [] (JSMap.get (Tasks.assignmentsByTask (Tasks.assignmentsQuery taskIds s))
                     (task_id t.1)) |}.

Definition task_list (s : Store) (uuids : list string) : list TaskWithAssignees :=
  let found := Tasks.tasksQuery uuids s in
  task_entry s ((λ t, task_id t.1) <$> found) <$> found.

(** Every project has its own UUID. *)
Definition uuids_unique (s : Store) : Prop := NoDup (project_uuid <$> projects s).

(** Every task belongs to a project of the store. *)
Definition tasks_reference_projects (s : Store) : Prop :=
  Forall (λ t, Exists (λ p, project_uuid p = t_project_uuid t) (projects s)) (tasks s).

(** * The server's time zone

    [Date] moves between instants and local date fields with the offset the
    zone has at the time in question.  [Clock.tz_offset_min] is the offset
    at the instant of the request; a zone gives, for a local wall-clock time
    in milliseconds, the offset in minutes with which [Date] reads that
    local time back as an instant. *)
Module Zone.

Definition t : Type := Z → Z.

(** The local wall-clock time [n] calendar days from the request: the
    local date fields of the request with the day of the month moved by
    [n]. *)
Definition local_days_from_now (c : Clock.t) (n : Z) : Z :=
  Clock.now_ms c + Clock.tz_offset_min c * Clock.ms_per_min + n * Clock.ms_per_day.

(** [const d = new Date(); d.setDate(d.getDate() + n)]: the instant the
    zone assigns to that local time. *)
Definition setDate (zone : t) (c : Clock.t) (n : Z) : Z :=
  local_days_from_now c n - zone (local_days_from_now c n) * Clock.ms_per_min.

(** The zone has the same offset [n] days from the request as at the
    request: no daylight-saving change lies between the two. *)
Definition steady (zone : t) (c : Clock.t) (n : Z) : Prop :=
  zone (local_days_from_now c n) = Clock.tz_offset_min c.

(** A zone at a fixed offset all year. *)
Definition fixed (offset_min : Z) : t := λ _, offset_min.

End Zone.

(** * Strings within the ASCII range *)

Definition chars (s : string) : list ascii := list_ascii_of_string s.

Arguments chars : simpl never.

(** Every character is below 128.  On such a string
    [String.prototype.toLowerCase] changes the letters [A] to [Z] and nothing
    else, and [String.prototype.trim] removes the characters 9 to 13 and 32
    and nothing else. *)
Definition ascii_only (s : string) : Prop :=
  Forall (λ c, (N_of_ascii c < 128)%N) (chars s).

(** The letters [A] to [Z]. *)
Definition upper_case_letter (c : ascii) : Prop :=
  (65 ≤ N_of_ascii c)%N ∧ (N_of_ascii c ≤ 90)%N.

(** Tab, line feed, vertical tab, form feed, carriage return and space. *)
Definition white_space (c : ascii) : Prop :=
  N_of_ascii c ∈ [9; 10; 11; 12; 13; 32]%N.

(** All characters are below 128, none is an upper-case letter, and neither
    the first nor the last is white space. *)
Definition canonical (s : string) : Prop :=
  ascii_only s
  ∧ (∀ c, c ∈ chars s → ¬ upper_case_letter c)
  ∧ (∀ c, head (chars s) = Some c → ¬ white_space c)
  ∧ (∀ c, last (chars s) = Some c → ¬ white_space c).

(** * A store with some activity *)

Module Office.

Definition W : User := {| user_id := 3; user_name := "W"; email := "w@x.com" |}.

Definition member (uuid : string) (uid : option Z) (mail role_ : string)
  : ProjectMember :=
  {| m_project_uuid := uuid; m_user_id := uid; member_email := mail; role := role_ |}.

(** A task created [age] days before 2026-11-02 00:00 UTC. *)
Definition task (id : Z) (uuid : string) (age : Z) (due : option Z) (state : string)
  : Task :=
  {| task_id := id; t_project_uuid := uuid; title := "task"; t_description := None;
     t_status := state; t_priority := "Medium"; due_date := due;
     t_created_at := (Clocks.nov2 - age) * Clock.ms_per_day |}.

(** U owns P1 and is a viewer of P2, which V owns; W is an admin of P1,
    and a guest without an account is invited to P1. *)
Definition store : Store :=
  {| users := [Scenario.U; Scenario.V; W];
     projects := [Scenario.project 1 "p1" 1 (Some 20700) (Some 20800);
                  Scenario.project 2 "p2" 2 (Some 20700) (Some 20758)];
     project_members := [member "p2" (Some 1) "u@x.com" "viewer";
                         member "p1" (Some 3) "w@x.com" "admin";
                         member "p1" None "guest@x.com" "viewer"];
     tasks := [task 1 "p1" 1 (Some 20761) "On track";
               task 2 "p1" 10 None "At risk";
               task 3 "p2" 3 (Some 20900) "On track";
               task 4 "p2" 0 None "Completed"];
     task_assignments := [{| a_task_id := 3; a_user_id := 1; assigned_at := 7 |}] |}.

Definition world : World := Scenario.world_of store Scenario.no_faults.

End Office.

(** * Facts about the primitives *)

Section set_of.
Context `{EqDecision A}.
Implicit Types (x : A) (l acc : list A).

Lemma elem_of_set_add acc x y : y ∈ JS.set_add acc x ↔ y ∈ acc ∨ y = x.
Proof.
  unfold JS.set_add. case_decide.
  - split; [auto | intros [?| ->]; done].
  - rewrite elem_of_app, list_elem_of_singleton. done.
Qed.

Lemma NoDup_set_add acc x : NoDup acc → NoDup (JS.set_add acc x).
Proof.
  intros Hacc. unfold JS.set_add. case_decide; [done|].
  apply NoDup_app. split_and!; [done| |apply NoDup_singleton].
  intros y Hy ->%list_elem_of_singleton. done.
Qed.

Lemma elem_of_foldl_set_add l acc y :
  y ∈ foldl JS.set_add acc l ↔ y ∈ acc ∨ y ∈ l.
Proof.
  revert acc. induction l as [|x l IH]; intros acc; simpl.
  - rewrite elem_of_nil. tauto.
  - rewrite IH, elem_of_set_add, elem_of_cons. tauto.
Qed.

Lemma NoDup_foldl_set_add l acc : NoDup acc → NoDup (foldl JS.set_add acc l).
Proof.
  revert acc. induction l as [|x l IH]; intros acc Hacc; simpl; [done|].
  apply IH, NoDup_set_add, Hacc.
Qed.

Lemma elem_of_set_of l y : y ∈ JS.set_of l ↔ y ∈ l.
Proof.
  unfold JS.set_of. rewrite elem_of_foldl_set_add, elem_of_nil. tauto.
Qed.

Lemma NoDup_set_of l : NoDup (JS.set_of l).
Proof. apply NoDup_foldl_set_add, NoDup_nil_2. Qed.

End set_of.

Lemma lower_ascii_idemp c : JS.lower_ascii (JS.lower_ascii c) = JS.lower_ascii c.
Proof. destruct c as [[] [] [] [] [] [] [] []]; reflexivity. Qed.

Lemma toLowerCase_idemp s : JS.toLowerCase (JS.toLowerCase s) = JS.toLowerCase s.
Proof.
  induction s as [|c s IH]; simpl; [done|].
  by rewrite lower_ascii_idemp, IH.
Qed.

(** * Facts about the store gateway *)

Lemma healthy_tick op s w : healthy w → healthy (tick op s w).
Proof. intros Hw n. apply Hw. Qed.

Lemma call_healthy {A} op (run : Store → A * Store) w :
  healthy w →
  call op run w = (Data (run (db w)).1, tick op (run (db w)).2 w).
Proof.
  intros Hw. unfold call. rewrite (Hw (calls w)).
  by destruct (run (db w)).
Qed.

Lemma select_healthy {A} table (q : Store → A) w :
  healthy w → select table q w = (Data (q (db w)), tick (Select table) (db w) w).
Proof. intros Hw. unfold select. by rewrite call_healthy. Qed.

Lemma mutate_healthy op f w :
  healthy w → mutate op f w = (Data tt, tick op (f (db w)) w).
Proof. intros Hw. unfold mutate. by rewrite call_healthy. Qed.

(** Runs a handler through the calls of a healthy store. *)
Ltac run_healthy :=
  repeat first
    [ progress (unfold mbind, mret, M_bind, M_ret; simpl)
    | rewrite select_healthy by eauto using healthy_tick
    | rewrite mutate_healthy by eauto using healthy_tick ].

(** * C1: the project visibility set *)

Lemma dashboard_uuids_healthy w uid :
  healthy w →
  (Dashboard.allProjectUuids uid w).1
  = Data (visible (db w) uid).
Proof. intros Hw. unfold Dashboard.allProjectUuids. by run_healthy. Qed.

Lemma dashboard_uuids_spec s uid x :
  x ∈ visible s uid ↔ owns s uid x ∨ member_of s uid x.
Proof.
  unfold visible. rewrite elem_of_set_of, elem_of_app.
  unfold owns, member_of, Query.owned_projects, Query.member_rows. split.
  - intros [Hx | Hx]; apply list_elem_of_fmap in Hx as (y & -> & Hy);
      apply list_elem_of_filter in Hy as [Hy Hin]; eauto.
  - intros [(p & Hin & Hown & <-) | (m & Hin & Hm & <-)];
      [left | right]; apply list_elem_of_fmap_2, list_elem_of_filter; done.
Qed.

Lemma calendar_fetch_healthy w uid r :
  healthy w →
  (Calendar.fetchProjects uid r w).1
  = inr (Calendar.ownedProjectsQuery uid r (db w), Calendar.memberProjectsQuery uid (db w)).
Proof. intros Hw. unfold Calendar.fetchProjects. by run_healthy. Qed.

Lemma embed_project_uuid s m u :
  project_uuid <$> mp_projects (Calendar.embed_project s m) = Some u →
  u = m_project_uuid m.
Proof.
  unfold Calendar.embed_project; simpl.
  destruct (list_find _ _) as [[i p]|] eqn:Hfind; [|done].
  apply list_find_Some in Hfind as (_ & Hp & _). simpl. congruence.
Qed.

Lemma embed_project_found s m :
  (∃ p, p ∈ projects s ∧ project_uuid p = m_project_uuid m) →
  project_uuid <$> mp_projects (Calendar.embed_project s m) = Some (m_project_uuid m).
Proof.
  intros (p & Hin & Hp). unfold Calendar.embed_project; simpl.
  destruct (list_find_elem_of (λ p, project_uuid p = m_project_uuid m) _ _ Hin Hp)
    as [[i q] Hfind].
  rewrite Hfind. apply list_find_Some in Hfind as (_ & Hq & _). simpl. by rewrite Hq.
Qed.

Lemma calendar_uuids_spec s uid r x :
  members_reference_projects s →
  x ∈ Calendar.allProjectUuids (Calendar.ownedProjectsQuery uid r s)
        (Calendar.memberProjectsQuery uid s)
  ↔ owns_overlapping s r uid x ∨ member_of s uid x.
Proof.
  intros Hfk. unfold Calendar.allProjectUuids.
  rewrite elem_of_set_of, elem_of_app.
  unfold Calendar.ownedProjectsQuery, Calendar.memberProjectsQuery,
    Query.owned_projects, Query.member_rows, owns_overlapping, member_of.
  split.
  - intros [Hx | Hx].
    + apply list_elem_of_fmap in Hx as (p & -> & Hp).
      apply list_elem_of_filter in Hp as [Hov Hp].
      apply list_elem_of_filter in Hp as [Hown Hin]. left. by exists p.
    + apply list_elem_of_omap in Hx as (mp & Hmp & Hsome).
      apply list_elem_of_fmap in Hmp as (m & -> & Hm).
      apply list_elem_of_filter in Hm as [Hm Hin].
      apply embed_project_uuid in Hsome. right. by exists m.
  - intros [(p & Hin & Hown & <- & Hov) | (m & Hin & Hm & <-)].
    + left. apply list_elem_of_fmap_2. by rewrite !list_elem_of_filter.
    + right. apply list_elem_of_omap. exists (Calendar.embed_project s m). split.
      * apply list_elem_of_fmap_2, list_elem_of_filter. done.
      * apply embed_project_found.
        unfold members_reference_projects in Hfk. rewrite Forall_forall in Hfk.
        apply Hfk, Exists_exists in Hin. exact Hin.
Qed.

(** C1, as stated, fails on the calendar handler: with both [start_date] and
    [end_date] given, an owned project that lies outside the range is not in
    the set the handler computes.  Here U owns P1, which runs over days
    20750..20800, and asks for the range 100..200. *)
Lemma calendar_range_drops_owned_project :
  let w := Scenario.world_of Scenario.invited Scenario.no_faults in
  healthy w ∧ members_reference_projects (db w) ∧
  ∃ owned member,
    (Calendar.fetchProjects 1 (Calendar.range (Some 100) (Some 200)) w).1
      = inr (owned, member)
    ∧ owns (db w) 1 "p1"
    ∧ ("p1" ∉ Calendar.allProjectUuids owned member)
    ∧ ¬ (∀ x, x ∈ Calendar.allProjectUuids owned member
              ↔ owns (db w) 1 x ∨ member_of (db w) 1 x).
Proof.
  assert (Hown : owns Scenario.invited 1 "p1").
  { eexists. split; [apply list_elem_of_here|]. done. }
  simpl. split_and!.
  - intros n. reflexivity.
  - by apply (bool_decide_unpack _).
  - exists [], []. split_and!; [reflexivity | exact Hown | by vm_compute; apply not_elem_of_nil |].
    intros Hall. apply (not_elem_of_nil "p1"), Hall. by left.
Qed.

(** C1 (amended): the set of project UUIDs the dashboard computes for user U
    is the duplicate-free union of the UUIDs of the projects U owns and the
    UUIDs of the projects with a member row carrying U's id.  The calendar
    computes the same set when [start_date] and [end_date] are not both given;
    when both are given, its owned source keeps only the owned projects with
    [end_date >= start_date] and [start_date <= end_date], the member source
    is unchanged, and the set is still duplicate-free. *)
Theorem visibility_set_deduplicated_union (w : World) (uid : Z) (r : option (Z * Z)) :
  healthy w →
  members_reference_projects (db w) →
  (∃ V, (Dashboard.allProjectUuids uid w).1 = Data V
        ∧ NoDup V
        ∧ ∀ x, x ∈ V ↔ owns (db w) uid x ∨ member_of (db w) uid x)
  ∧ (∃ owned member,
        (Calendar.fetchProjects uid r w).1 = inr (owned, member)
        ∧ NoDup (Calendar.allProjectUuids owned member)
        ∧ ∀ x, x ∈ Calendar.allProjectUuids owned member
               ↔ owns_overlapping (db w) r uid x ∨ member_of (db w) uid x)
  ∧ (∀ x, owns_overlapping (db w) None uid x ↔ owns (db w) uid x).
Proof.
  intros Hw Hfk. split_and!.
  - eexists. split; [by apply dashboard_uuids_healthy|].
    split; [apply NoDup_set_of | intros x; apply dashboard_uuids_spec].
  - eexists _, _. split; [by apply calendar_fetch_healthy|].
    split; [apply NoDup_set_of | intros x; by apply calendar_uuids_spec].
  - intros x. unfold owns_overlapping, owns. simpl.
    split; [intros (p & ? & ? & ? & _) | intros (p & ? & ? & ?)]; by exists p.
Qed.

Lemma visibility_set_deduplicated_union_witness :
  let w := Scenario.world_of Scenario.shared Scenario.no_faults in
  healthy w ∧ members_reference_projects (db w) ∧
  (Dashboard.allProjectUuids 1 w).1 = Data ["p1"; "p2"] ∧
  ∀ x, x ∈ ["p1"; "p2"] ↔ owns (db w) 1 x ∨ member_of (db w) 1 x.
Proof.
  pose (w := Scenario.world_of Scenario.shared Scenario.no_faults).
  assert (Hw : healthy w) by (intros n; reflexivity).
  assert (Hfk : members_reference_projects (db w)) by (by apply (bool_decide_unpack _)).
  destruct (visibility_set_deduplicated_union w 1 None Hw Hfk)
    as [(V & HV & _ & Hspec) _].
  split_and!; [exact Hw | exact Hfk | reflexivity |].
  assert (V = ["p1"; "p2"]) as <-; [|exact Hspec].
  change ((Dashboard.allProjectUuids 1 w).1) with (Data (A:=list string) ["p1"; "p2"]) in HV.
  congruence.
Defined.

(** * The dashboard on a healthy store *)

Lemma dashboard_uuids_run w uid :
  healthy w →
  ∃ w', Dashboard.allProjectUuids uid w = (Data (visible (db w) uid), w')
        ∧ healthy w' ∧ db w' = db w.
Proof.
  intros Hw. unfold Dashboard.allProjectUuids. run_healthy.
  eexists. split; [reflexivity|]. split; [|done].
  by do 2 apply healthy_tick.
Qed.

Lemma filter_nothing {A} (P : A → Prop) `{!∀ x, Decision (P x)} (l : list A) :
  (∀ x, ¬ P x) → filter P l = [].
Proof.
  intros HP. induction l as [|x l IH]; [done|].
  by rewrite filter_cons_False.
Qed.

Lemma filter_nothing_in {A} (P : A → Prop) `{!∀ x, Decision (P x)} (l : list A) :
  (∀ x, x ∈ l → ¬ P x) → filter P l = [].
Proof.
  induction l as [|x l IH]; intros HP; [done|].
  rewrite filter_cons_False by (apply HP; left).
  apply IH. intros y Hy. apply HP. by right.
Qed.

Lemma users_by_email_nil s : Query.users_by_email [] s = [].
Proof. apply filter_nothing. intros u. apply not_elem_of_nil. Qed.

Lemma projects_in_nil s : Query.projects_in [] s = [].
Proof. apply filter_nothing. intros p. apply not_elem_of_nil. Qed.

Lemma members_in_nil s : Query.members_in [] s = [].
Proof. apply filter_nothing. intros m. apply not_elem_of_nil. Qed.

Lemma tasks_in_nil s : Query.tasks_in [] s = [].
Proof. apply filter_nothing. intros t. apply not_elem_of_nil. Qed.

Lemma teamSets_run w allProjects allMembers :
  healthy w →
  ∃ w', Dashboard.teamSets allProjects allMembers w
        = (team_sets (db w) allProjects allMembers, w')
        ∧ healthy w' ∧ db w' = db w.
Proof.
  intros Hw. unfold Dashboard.teamSets, team_sets.
  destruct (Dashboard.collect allProjects allMembers) as [ids emails]; simpl.
  case_decide as Hemails.
  - subst emails. exists w. rewrite users_by_email_nil. by unfold mret, M_ret.
  - run_healthy. eexists. split; [reflexivity|]. split; [|done].
    by apply healthy_tick.
Qed.

Lemma dashboard_healthy clk uid w :
  healthy w → uid ≠ 0 →
  ∃ d, (Dashboard.getDashboardData clk (Some uid) w).1 = Json 200 d
    ∧ let V := visible (db w) uid in
      let allProjects := Query.projects_in V (db w) in
      totalProjects d = length allProjects
      ∧ completedProjects d = length (Dashboard.completed clk allProjects)
      ∧ totalTeamMembers d = team_size (db w) allProjects (Query.members_in V (db w))
      ∧ upcomingDeadlines d
        = Dashboard.format (Dashboard.projectsMap allProjects)
          <$> Query.upcoming_tasks V (Dashboard.window_lo clk) (Dashboard.window_hi clk) (db w).
Proof.
  intros Hw Huid. unfold Dashboard.getDashboardData.
  assert (JS.truthy_num uid = true) as ->.
  { unfold JS.truthy_num. by rewrite (proj2 (Z.eqb_neq _ _)). }
  simpl. unfold mbind at 1, M_bind at 1.
  destruct (dashboard_uuids_run w uid Hw) as (w1 & -> & Hw1 & Hdb1).
  case_decide as HV.
  - eexists. split; [reflexivity|]. rewrite HV. cbv zeta.
    unfold Query.upcoming_tasks, team_size, team_sets.
    rewrite projects_in_nil, members_in_nil, tasks_in_nil. simpl.
    by rewrite users_by_email_nil.
  - unfold mbind at 1, M_bind at 1. rewrite select_healthy by done.
    unfold mbind at 1, M_bind at 1.
    rewrite select_healthy by eauto using healthy_tick. simpl.
    unfold mbind at 1, M_bind at 1.
    edestruct teamSets_run as (w2 & -> & Hw2 & Hdb2);
      [apply healthy_tick, healthy_tick, Hw1|].
    run_healthy. simpl in Hdb2. rewrite Hdb2, Hdb1.
    eexists. split; [reflexivity|]. done.
Qed.

(** * The team-size sets *)

Lemma truthy_num_true n : JS.truthy_num n = true ↔ n ≠ 0.
Proof. unfold JS.truthy_num. rewrite negb_true_iff. apply Z.eqb_neq. Qed.

Lemma truthy_str_true s : JS.truthy_str s = true ↔ s ≠ "".
Proof. destruct s; simpl; split; done. Qed.

Lemma elem_of_owner_ids allProjects acc x :
  x ∈ foldl Dashboard.add_owner acc allProjects
  ↔ x ∈ acc ∨ (x ≠ 0 ∧ ∃ p, p ∈ allProjects ∧ owner_id p = x).
Proof.
  revert acc. induction allProjects as [|p ps IH]; intros acc; simpl.
  - split; [auto | intros [?|(_ & q & []%elem_of_nil & _)]; done].
  - rewrite IH. unfold Dashboard.add_owner.
    destruct (JS.truthy_num (owner_id p)) eqn:Hp.
    + apply truthy_num_true in Hp. rewrite elem_of_set_add. split.
      * intros [[?| ->]|(? & q & ? & ?)]; [by left| |].
        -- right. split; [done|]. exists p. split; [left|done].
        -- right. split; [done|]. exists q. split; [by right|done].
      * intros [?|(? & q & [->|?]%elem_of_cons & ?)]; [by left; left| |].
        -- left; right. done.
        -- right. split; [done|]. by exists q.
    + apply not_true_iff_false in Hp. rewrite truthy_num_true in Hp. split.
      * intros [?|(? & q & ? & ?)]; [by left|].
        right. split; [done|]. exists q. split; [by right|done].
      * intros [?|(? & q & [->|?]%elem_of_cons & ?)]; [by left| |].
        -- destruct Hp. congruence.
        -- right. split; [done|]. by exists q.
Qed.

Lemma NoDup_owner_ids allProjects acc :
  NoDup acc → NoDup (foldl Dashboard.add_owner acc allProjects).
Proof.
  revert acc. induction allProjects as [|p ps IH]; intros acc Hacc; simpl; [done|].
  apply IH. unfold Dashboard.add_owner.
  destruct (JS.truthy_num _); [by apply NoDup_set_add | done].
Qed.

Lemma elem_of_member_ids allMembers acc x :
  x ∈ (foldl Dashboard.add_member acc allMembers).1
  ↔ x ∈ acc.1 ∨ (x ≠ 0 ∧ ∃ m, m ∈ allMembers ∧ m_user_id m = Some x).
Proof.
  revert acc. induction allMembers as [|m ms IH]; intros acc; simpl.
  - split; [auto | intros [?|(_ & q & []%elem_of_nil & _)]; done].
  - rewrite IH. simpl. destruct (m_user_id m) as [u|] eqn:Hm.
    + destruct (JS.truthy_num u) eqn:Hu.
      * apply truthy_num_true in Hu. rewrite elem_of_set_add. split.
        -- intros [[?| ->]|(? & q & ? & ?)]; [by left| |].
           ++ right. split; [done|]. exists m. split; [left|done].
           ++ right. split; [done|]. exists q. split; [by right|done].
        -- intros [?|(? & q & [->|?]%elem_of_cons & ?)]; [by left; left| |].
           ++ left; right. congruence.
           ++ right. split; [done|]. by exists q.
      * apply not_true_iff_false in Hu. rewrite truthy_num_true in Hu. split.
        -- intros [?|(? & q & ? & ?)]; [by left|].
           right. split; [done|]. exists q. split; [by right|done].
        -- intros [?|(? & q & [->|?]%elem_of_cons & ?)]; [by left| |].
           ++ destruct Hu. congruence.
           ++ right. split; [done|]. by exists q.
    + split.
      * intros [?|(? & q & ? & ?)]; [by left|].
        right. split; [done|]. exists q. split; [by right|done].
      * intros [?|(? & q & [->|?]%elem_of_cons & ?)]; [by left|congruence|].
        right. split; [done|]. by exists q.
Qed.

Lemma elem_of_member_emails allMembers acc e :
  e ∈ (foldl Dashboard.add_member acc allMembers).2
  ↔ e ∈ acc.2 ∨ ∃ m, m ∈ allMembers ∧ member_email m ≠ ""
                      ∧ e = JS.toLowerCase (member_email m).
Proof.
  revert acc. induction allMembers as [|m ms IH]; intros acc; simpl.
  - split; [auto | intros [?|(q & []%elem_of_nil & _)]; done].
  - rewrite IH. simpl. destruct (JS.truthy_str (member_email m)) eqn:Hm.
    + apply truthy_str_true in Hm. rewrite elem_of_set_add. split.
      * intros [[?| ->]|(q & ? & ? & ?)]; [by left| |].
        -- right. exists m. split; [left|done].
        -- right. exists q. split; [by right|done].
      * intros [?|(q & [->|?]%elem_of_cons & ? & ?)]; [by left; left| |].
        -- left; right. done.
        -- right. by exists q.
    + apply not_true_iff_false in Hm. rewrite truthy_str_true in Hm. split.
      * intros [?|(q & ? & ? & ?)]; [by left|].
        right. exists q. split; [by right|done].
      * intros [?|(q & [->|?]%elem_of_cons & ? & ?)]; [by left|done|].
        right. by exists q.
Qed.

Lemma NoDup_member_sets allMembers acc :
  NoDup acc.1 → NoDup acc.2 →
  NoDup (foldl Dashboard.add_member acc allMembers).1
  ∧ NoDup (foldl Dashboard.add_member acc allMembers).2.
Proof.
  revert acc. induction allMembers as [|m ms IH]; intros acc H1 H2; simpl; [done|].
  apply IH; simpl.
  - destruct (m_user_id m) as [u|]; [|done].
    destruct (JS.truthy_num u); [by apply NoDup_set_add | done].
  - destruct (JS.truthy_str _); [by apply NoDup_set_add | done].
Qed.

Lemma elem_of_user_ids found acc x :
  x ∈ foldl Dashboard.add_user acc found
  ↔ x ∈ acc ∨ (x ≠ 0 ∧ ∃ u, u ∈ found ∧ user_id u = x).
Proof.
  revert acc. induction found as [|u us IH]; intros acc; simpl.
  - split; [auto | intros [?|(_ & q & []%elem_of_nil & _)]; done].
  - rewrite IH. unfold Dashboard.add_user.
    destruct (JS.truthy_num (user_id u)) eqn:Hu.
    + apply truthy_num_true in Hu. rewrite elem_of_set_add. split.
      * intros [[?| ->]|(? & q & ? & ?)]; [by left| |].
        -- right. split; [done|]. exists u. split; [left|done].
        -- right. split; [done|]. exists q. split; [by right|done].
      * intros [?|(? & q & [->|?]%elem_of_cons & ?)]; [by left; left| |].
        -- left; right. done.
        -- right. split; [done|]. by exists q.
    + apply not_true_iff_false in Hu. rewrite truthy_num_true in Hu. split.
      * intros [?|(? & q & ? & ?)]; [by left|].
        right. split; [done|]. exists q. split; [by right|done].
      * intros [?|(? & q & [->|?]%elem_of_cons & ?)]; [by left| |].
        -- destruct Hu. congruence.
        -- right. split; [done|]. by exists q.
Qed.

Lemma NoDup_user_ids found acc :
  NoDup acc → NoDup (foldl Dashboard.add_user acc found).
Proof.
  revert acc. induction found as [|u us IH]; intros acc Hacc; simpl; [done|].
  apply IH. unfold Dashboard.add_user.
  destruct (JS.truthy_num _); [by apply NoDup_set_add | done].
Qed.

Lemma team_ids_spec s allProjects allMembers x :
  x ∈ (team_sets s allProjects allMembers).1
  ↔ x ≠ 0 ∧ ((∃ p, p ∈ allProjects ∧ owner_id p = x)
             ∨ (∃ m, m ∈ allMembers ∧ m_user_id m = Some x)
             ∨ (∃ u m, u ∈ users s ∧ user_id u = x ∧ m ∈ allMembers
                       ∧ member_email m ≠ ""
                       ∧ email u = JS.toLowerCase (member_email m))).
Proof.
  unfold team_sets, Dashboard.resolve, Dashboard.collect; simpl.
  rewrite elem_of_user_ids, elem_of_member_ids; simpl.
  rewrite elem_of_owner_ids, elem_of_nil. split.
  - intros [[[[]|[Hx Hp]]|[Hx Hm]]|[Hx (u & Hu & Hid)]]; (split; [done|]); [auto..|].
    right; right. apply list_elem_of_filter in Hu as [Hmail Hu].
    apply elem_of_member_emails in Hmail as [[]%elem_of_nil|(m & Hm & Hne & Hmail)].
    by exists u, m.
  - intros [Hx [Hp|[Hm|(u & m & Hu & Hid & Hm & Hne & Hmail)]]]; [auto..|].
    right. split; [done|]. exists u. split; [|done].
    apply list_elem_of_filter. split; [|done].
    apply elem_of_member_emails. right. by exists m.
Qed.

Lemma team_emails_spec s allProjects allMembers e :
  e ∈ (team_sets s allProjects allMembers).2
  ↔ (∃ m, m ∈ allMembers ∧ member_email m ≠ "" ∧ e = JS.toLowerCase (member_email m))
    ∧ ¬ (∃ u, u ∈ users s ∧ email u = e).
Proof.
  unfold team_sets, Dashboard.resolve, Dashboard.collect; simpl.
  rewrite list_elem_of_filter, elem_of_set_of, elem_of_member_emails, elem_of_nil; simpl.
  split.
  - intros [Hno [[]|(m & Hm & Hne & ->)]]. split; [by exists m|].
    intros (u & Hu & Hmail). apply Hno, list_elem_of_fmap.
    exists u. split; [by rewrite Hmail, toLowerCase_idemp|].
    apply list_elem_of_filter. split; [|done].
    apply elem_of_member_emails. right. by exists m.
  - intros [(m & Hm & Hne & ->) Hno]. split; [|right; by exists m].
    intros (u & Hmail & Hu)%list_elem_of_fmap. apply Hno.
    apply list_elem_of_filter in Hu as [Hin Hu]. exists u. split; [done|].
    apply elem_of_member_emails in Hin as [[]%elem_of_nil|(m' & _ & _ & Hm')].
    rewrite Hmail, Hm', toLowerCase_idemp. done.
Qed.

Lemma team_sets_NoDup s allProjects allMembers :
  NoDup (team_sets s allProjects allMembers).1
  ∧ NoDup (team_sets s allProjects allMembers).2.
Proof.
  unfold team_sets, Dashboard.resolve, Dashboard.collect; simpl.
  destruct (NoDup_member_sets allMembers (foldl Dashboard.add_owner [] allProjects, []))
    as [Hids Hemails]; simpl.
  { apply NoDup_owner_ids, NoDup_nil_2. }
  { apply NoDup_nil_2. }
  split; [by apply NoDup_user_ids | by apply NoDup_filter].
Qed.

Lemma known_user_ids_spec s allProjects allMembers :
  ids_positive s → emails_lower_case s →
  (∀ p, p ∈ allProjects → p ∈ projects s) →
  (∀ m, m ∈ allMembers → m ∈ project_members s) →
  known_user_ids s allProjects allMembers
  = list_to_set (team_sets s allProjects allMembers).1.
Proof.
  intros (Husers & Hprojects & Hmembers) Hlower HP HM.
  rewrite Forall_forall in Husers. rewrite Forall_forall in Hprojects.
  rewrite Forall_forall in Hmembers.
  unfold emails_lower_case in Hlower. rewrite Forall_forall in Hlower.
  apply set_eq. intros x. unfold known_user_ids.
  rewrite !elem_of_union, !elem_of_list_to_set, team_ids_spec.
  rewrite !list_elem_of_fmap, list_elem_of_omap. split.
  - intros [[(p & -> & Hp)|(m & Hm & Hx)]|(u & -> & Hu)].
    + split; [specialize (Hprojects p (HP p Hp)); lia|]. left. by exists p.
    + split; [|right; left; by exists m].
      specialize (Hmembers m (HM m Hm)). rewrite Hx in Hmembers. simpl in Hmembers. lia.
    + apply list_elem_of_filter in Hu as [Hex Hu].
      split; [specialize (Husers u Hu); lia|]. right; right.
      apply Exists_exists in Hex as (m & Hm & Hne & Hmatch).
      exists u, m. split_and!; try done. by rewrite <- (Hlower u Hu).
  - intros [Hx [(p & Hp & <-)|[(m & Hm & Hu)|(u & m & Hu & <- & Hm & Hne & Hmail)]]].
    + left; left. by exists p.
    + left; right. by exists m.
    + right. exists u. split; [done|]. apply list_elem_of_filter. split; [|done].
      apply Exists_exists. exists m. split; [done|]. split; [done|].
      by rewrite Hmail, toLowerCase_idemp.
Qed.

Lemma unregistered_emails_spec s allProjects allMembers :
  emails_lower_case s →
  unregistered_emails s allMembers
  = list_to_set (team_sets s allProjects allMembers).2.
Proof.
  intros Hlower. unfold emails_lower_case in Hlower. rewrite Forall_forall in Hlower.
  apply set_eq. intros e. unfold unregistered_emails.
  rewrite !elem_of_list_to_set, team_emails_spec, list_elem_of_fmap. split.
  - intros (m & -> & Hm). apply list_elem_of_filter in Hm as [[Hne Hno] Hm].
    split; [by exists m|]. intros (u & Hu & Hmail). apply Hno, Exists_exists.
    exists u. split; [done|]. split; [done|].
    by rewrite Hmail, toLowerCase_idemp.
  - intros [(m & Hm & Hne & ->) Hno]. exists m. split; [done|].
    apply list_elem_of_filter. split; [|done]. split; [done|].
    intros (u & Hu & _ & Hmatch)%Exists_exists. apply Hno. exists u. split; [done|].
    by rewrite <- (Hlower u Hu).
Qed.

Lemma team_size_spec s allProjects allMembers :
  ids_positive s → emails_lower_case s →
  (∀ p, p ∈ allProjects → p ∈ projects s) →
  (∀ m, m ∈ allMembers → m ∈ project_members s) →
  team_size s allProjects allMembers
  = (size (known_user_ids s allProjects allMembers)
     + size (unregistered_emails s allMembers))%nat.
Proof.
  intros Hpos Hlower HP HM. unfold team_size.
  destruct (team_sets_NoDup s allProjects allMembers) as [Hids Hemails].
  rewrite (known_user_ids_spec s allProjects allMembers) by done.
  rewrite (unregistered_emails_spec s allProjects allMembers) by done.
  by rewrite !size_list_to_set.
Qed.

(** Inclusion of duplicate-free lists bounds their lengths. *)
Lemma NoDup_incl_length {A} (l k : list A) :
  NoDup l → (∀ x, x ∈ l → x ∈ k) → (length l ≤ length k)%nat.
Proof. intros Hl Hincl. by apply submseteq_length, NoDup_submseteq. Qed.

Lemma team_size_mono s allProjects allMembers more :
  (team_size s allProjects allMembers
   ≤ team_size s allProjects (allMembers ++ more))%nat.
Proof.
  unfold team_size.
  destruct (team_sets_NoDup s allProjects allMembers) as [Hids Hemails].
  apply Nat.add_le_mono; apply NoDup_incl_length; try done.
  - intros x. rewrite !team_ids_spec. setoid_rewrite elem_of_app.
    intros [Hx [(p & ? & ?)|[(m & ? & ?)|(u & m & ? & ? & ? & ? & ?)]]];
      (split; [done|]); [left; by exists p | right; left; exists m; auto |].
    right; right. exists u, m. auto 10.
  - intros e. rewrite !team_emails_spec. setoid_rewrite elem_of_app.
    intros [(m & ? & ? & ?) Hno]. split; [exists m; auto | done].
Qed.

Lemma NoDup_same_length {A} (l k : list A) :
  NoDup l → NoDup k → (∀ x, x ∈ l ↔ x ∈ k) → length l = length k.
Proof.
  intros Hl Hk Hiff. apply Nat.le_antisymm; apply NoDup_incl_length; try done.
  - intros x. apply Hiff.
  - intros x. apply Hiff.
Qed.

(** An email-only row whose email belongs to users that are all counted
    already leaves the estimate as it is. *)
Lemma team_size_resolved_email s allProjects allMembers m :
  m_user_id m = None →
  (∃ u, u ∈ users s ∧ email u = JS.toLowerCase (member_email m)) →
  (∀ u, u ∈ users s → email u = JS.toLowerCase (member_email m) →
        user_id u ∈ (team_sets s allProjects allMembers).1) →
  team_size s allProjects (allMembers ++ [m]) = team_size s allProjects allMembers.
Proof.
  intros Hnone (u0 & Hu0 & Hmail0) Hcounted. unfold team_size.
  destruct (team_sets_NoDup s allProjects allMembers) as [Hids Hemails].
  destruct (team_sets_NoDup s allProjects (allMembers ++ [m])) as [Hids' Hemails'].
  f_equal; apply NoDup_same_length; try done.
  - intros x. split.
    + intros Hx. pose proof Hx as Hx'. apply team_ids_spec in Hx as [Hne Hx].
      destruct Hx as [(p & ? & ?)|[(m' & Hm' & Hu)|(u & m' & Hu & Hid & Hm' & Hne' & Hmail)]].
      * apply team_ids_spec. split; [done|]. left. by exists p.
      * apply elem_of_app in Hm' as [Hm'| ->%list_elem_of_singleton]; [|congruence].
        apply team_ids_spec. split; [done|]. right; left. by exists m'.
      * apply elem_of_app in Hm' as [Hm'| ->%list_elem_of_singleton].
        -- apply team_ids_spec. split; [done|]. right; right. by exists u, m'.
        -- subst x. by apply Hcounted.
    + rewrite !team_ids_spec. setoid_rewrite elem_of_app.
      intros [Hx [(p & ? & ?)|[(m' & ? & ?)|(u & m' & ? & ? & ? & ? & ?)]]];
        (split; [done|]); [left; by exists p | right; left; exists m'; auto |].
      right; right. exists u, m'. auto 10.
  - intros e. rewrite !team_emails_spec. split.
    + intros [(m' & Hm' & Hne & ->) Hno]. split; [|done].
      apply elem_of_app in Hm' as [Hm'| ->%list_elem_of_singleton]; [by exists m'|].
      destruct Hno. by exists u0.
    + intros [(m' & Hm' & Hne & ->) Hno]. split; [|done].
      exists m'. split; [apply elem_of_app; by left | done].
Qed.

(** Adding a member row to a visible project changes neither the visibility
    set nor the visible projects, and appends the row to the visible rows. *)
Lemma set_of_snoc `{EqDecision A} (l : list A) (x : A) :
  x ∈ JS.set_of l → JS.set_of (l ++ [x]) = JS.set_of l.
Proof.
  intros Hx. unfold JS.set_of in *. rewrite foldl_snoc.
  unfold JS.set_add. by rewrite decide_True.
Qed.

Lemma visible_insert_member s uid m :
  m_project_uuid m ∈ visible s uid →
  visible (Write.insert_members [m] s) uid = visible s uid.
Proof.
  intros Hm. unfold visible, Query.owned_projects, Query.member_rows in *; simpl.
  rewrite filter_app, fmap_app.
  destruct (decide (m_user_id m = Some uid)) as [Hu|Hu].
  - rewrite (filter_cons_True _ m []) by done. simpl.
    rewrite (assoc_L (++)). by apply set_of_snoc.
  - rewrite (filter_cons_False _ m []) by done. simpl. by rewrite (right_id_L [] (++)).
Qed.

Lemma members_in_insert_member s V m :
  m_project_uuid m ∈ V →
  Query.members_in V (Write.insert_members [m] s) = Query.members_in V s ++ [m].
Proof.
  intros Hm. unfold Query.members_in; simpl.
  by rewrite filter_app, (filter_cons_True _ m []).
Qed.

Lemma healthy_with_db s w : healthy w → healthy (with_db s w).
Proof. intros Hw n. apply Hw. Qed.

(** * C6: the team-size estimate *)

(** C6, evaluated where it fails: U signed in with the address [U@x.com],
    which the sign-in sync stored as reported, and created P1 with the own
    address among the member emails.  The member row of P1 matches U up to
    case, so in the claim's words the team is the one known user id and no
    unregistered email; the dashboard looks the lower-cased email up by
    equality, finds no user, and reports two team members. *)
Lemma team_size_counts_a_mixed_case_address_twice :
  let row := Scenario.project 1 "p1" 1 (Some 20750) (Some 20800) in
  let w0 := Scenario.world_of Scenario.signed_in Scenario.no_faults in
  let w := Scenario.world_of Scenario.own_address Scenario.no_faults in
  let V := visible (db w) 1 in
  let allProjects := Query.projects_in V (db w) in
  let allMembers := Query.members_in V (db w) in
  db (Projects.createProject (Some 1) row (Some ["U@x.com"]) w0).2 = db w
  ∧ allMembers = [Scenario.member "p1" None "u@x.com"]
  ∧ (∀ m, m ∈ allMembers → matches Scenario.U_synced m)
  ∧ size (known_user_ids (db w) allProjects allMembers) = 1%nat
  ∧ size (unregistered_emails (db w) allMembers) = 0%nat
  ∧ ∃ d, (Dashboard.getDashboardData Clocks.utc_morning (Some 1) w).1 = Json 200 d
         ∧ totalTeamMembers d = 2%nat.
Proof.
  cbv zeta. split_and!.
  - reflexivity.
  - reflexivity.
  - intros m Hm. change (m ∈ [Scenario.member "p1" None "u@x.com"]) in Hm.
    apply list_elem_of_singleton in Hm as ->. split; [done|reflexivity].
  - vm_compute. reflexivity.
  - vm_compute. reflexivity.
  - eexists. split; [vm_compute; reflexivity|]. reflexivity.
Qed.

(** On a store that keeps the registered emails in lower case, as the
    handlers that create and update users write them, [totalTeamMembers] is
    the number of distinct known user ids (owners, members with a resolved
    user id, users whose registered email matches an invited email up to
    case) plus the number of invited emails that match no registered user.
    Adding a member row to a visible project never lowers it, and an
    email-only row whose email resolves to users that are counted already
    leaves it unchanged. *)
Lemma team_size_on_lower_case_emails clk w uid :
  healthy w → uid ≠ 0 →
  ids_positive (db w) → emails_lower_case (db w) →
  ∃ d, (Dashboard.getDashboardData clk (Some uid) w).1 = Json 200 d
    ∧ let V := visible (db w) uid in
      let allProjects := Query.projects_in V (db w) in
      let allMembers := Query.members_in V (db w) in
      totalTeamMembers d
      = (size (known_user_ids (db w) allProjects allMembers)
         + size (unregistered_emails (db w) allMembers))%nat
      ∧ ∀ m, m_project_uuid m ∈ V →
          ∃ d', (Dashboard.getDashboardData clk (Some uid)
                   (with_db (Write.insert_members [m] (db w)) w)).1 = Json 200 d'
            ∧ (totalTeamMembers d ≤ totalTeamMembers d')%nat
            ∧ (m_user_id m = None →
               (∃ u, u ∈ users (db w) ∧ matches u m) →
               (∀ u, u ∈ users (db w) → matches u m →
                     user_id u ∈ known_user_ids (db w) allProjects allMembers) →
               totalTeamMembers d' = totalTeamMembers d).
Proof.
  intros Hw Huid Hpos Hlower.
  destruct (dashboard_healthy clk uid w Hw Huid) as (d & Hd & _ & _ & Hteam & _).
  exists d. split; [done|]. cbv zeta in *.
  assert (HP : ∀ p, p ∈ Query.projects_in (visible (db w) uid) (db w) → p ∈ projects (db w)).
  { intros p Hp. by apply list_elem_of_filter in Hp as [_ Hp]. }
  assert (HM : ∀ m, m ∈ Query.members_in (visible (db w) uid) (db w)
                    → m ∈ project_members (db w)).
  { intros m Hm. by apply list_elem_of_filter in Hm as [_ Hm]. }
  split; [by rewrite Hteam, team_size_spec|].
  intros m Hm.
  destruct (dashboard_healthy clk uid (with_db (Write.insert_members [m] (db w)) w))
    as (d' & Hd' & _ & _ & Hteam' & _); [by apply healthy_with_db | done |].
  exists d'. split; [done|]. cbv zeta in Hteam'.
  change (db (with_db (Write.insert_members [m] (db w)) w))
    with (Write.insert_members [m] (db w)) in Hteam'.
  rewrite visible_insert_member, members_in_insert_member in Hteam' by done.
  change (team_size (Write.insert_members [m] (db w)))
    with (team_size (db w)) in Hteam'.
  change (Query.projects_in (visible (db w) uid) (Write.insert_members [m] (db w)))
    with (Query.projects_in (visible (db w) uid) (db w)) in Hteam'.
  rewrite Hteam, Hteam'. split; [apply team_size_mono|].
  intros Hnone (u0 & Hu0 & Hne & Hmatch0) Hcounted.
  unfold emails_lower_case in Hlower. rewrite Forall_forall in Hlower.
  apply team_size_resolved_email; [done| |].
  - exists u0. split; [done|]. by rewrite <- (Hlower u0 Hu0).
  - intros u Hu Hmail.
    rewrite <- (elem_of_list_to_set (C:=gset Z)).
    rewrite <- known_user_ids_spec by (done || by apply Forall_forall).
    apply Hcounted; [done|]. split; [done|].
    by rewrite Hmail, toLowerCase_idemp.
Qed.

Lemma team_size_on_lower_case_emails_witness :
  let w := Scenario.world_of Scenario.shared Scenario.no_faults in
  healthy w ∧ ids_positive (db w) ∧ emails_lower_case (db w) ∧
  ∃ d, (Dashboard.getDashboardData Clocks.utc_morning (Some 1) w).1 = Json 200 d
       ∧ totalTeamMembers d = 2%nat.
Proof.
  pose (w := Scenario.world_of Scenario.shared Scenario.no_faults).
  assert (Hw : healthy w) by (intros n; reflexivity).
  assert (Hpos : ids_positive (db w)).
  { split_and!; repeat constructor; simpl; lia. }
  assert (Hlower : emails_lower_case (db w)) by (repeat constructor).
  destruct (team_size_on_lower_case_emails Clocks.utc_morning w 1 Hw ltac:(lia) Hpos Hlower)
    as (d & Hd & Hsize & _).
  split_and!; [exact Hw | exact Hpos | exact Hlower |].
  exists d. split; [exact Hd|]. rewrite Hsize. vm_compute. reflexivity.
Defined.

(** * C2: a project the user was only invited to by email *)

(** C2, as stated, fails: U owns P1 and P2 carries a member row with U's
    email and no user id; the dashboard for U reports one project, not two. *)
Lemma email_only_project_is_not_counted :
  let w := Scenario.world_of Scenario.invited Scenario.no_faults in
  owns (db w) 1 "p1"
  ∧ (∃ m, m ∈ project_members (db w) ∧ m_project_uuid m = "p2"
          ∧ m_user_id m = None ∧ member_email m = email Scenario.U)
  ∧ ∃ d, (Dashboard.getDashboardData Clocks.utc_morning (Some 1) w).1 = Json 200 d
         ∧ totalProjects d = 1%nat
         ∧ totalTeamMembers d = 1%nat.
Proof.
  simpl. split_and!.
  - eexists. split; [apply list_elem_of_here|]. done.
  - eexists. split; [apply list_elem_of_here|]. done.
  - eexists. split; [vm_compute; reflexivity|]. done.
Qed.

(** C2 (amended): for a user U who owns P1 and is recorded on P2 only by
    email (U does not own P2 and no member row of P2 carries U's id), the
    dashboard's [totalProjects] counts the projects of U's visibility set,
    which has p1 and does not have p2; the team-size estimate counts U once:
    U's id occurs once among the counted ids and U's registered email is not
    among the emails counted as unregistered. *)
Theorem email_only_membership_is_not_visible clk w u p1 p2 :
  healthy w → user_id u ≠ 0 → u ∈ users (db w) →
  owns (db w) (user_id u) p1 →
  ¬ owns (db w) (user_id u) p2 →
  ¬ member_of (db w) (user_id u) p2 →
  ∃ d, (Dashboard.getDashboardData clk (Some (user_id u)) w).1 = Json 200 d
    ∧ let V := visible (db w) (user_id u) in
      let allProjects := Query.projects_in V (db w) in
      let sets := team_sets (db w) allProjects (Query.members_in V (db w)) in
      totalProjects d = length allProjects
      ∧ (p1 ∈ V) ∧ (p2 ∉ V)
      ∧ (∀ p, p ∈ allProjects → project_uuid p ≠ p2)
      ∧ totalTeamMembers d = (length sets.1 + length sets.2)%nat
      ∧ NoDup sets.1 ∧ (user_id u ∈ sets.1) ∧ (email u ∉ sets.2).
Proof.
  intros Hw Hid Hu Hown1 Hown2 Hmem2.
  destruct (dashboard_healthy clk (user_id u) w Hw Hid) as (d & Hd & Htotal & _ & Hteam & _).
  exists d. split; [done|]. cbv zeta in *.
  assert (Hp1 : p1 ∈ visible (db w) (user_id u)) by (apply dashboard_uuids_spec; by left).
  assert (Hp2 : p2 ∉ visible (db w) (user_id u)).
  { rewrite dashboard_uuids_spec. tauto. }
  split_and!; try done.
  - intros p [Hp _]%list_elem_of_filter <-. done.
  - apply team_sets_NoDup.
  - apply team_ids_spec. split; [done|]. left.
    destruct Hown1 as (p & Hp & Howner & Huuid). exists p. split; [|done].
    apply list_elem_of_filter. by rewrite Huuid.
  - rewrite team_emails_spec. intros [_ Hno]. apply Hno. by exists u.
Qed.

Lemma email_only_membership_is_not_visible_witness :
  let w := Scenario.world_of Scenario.invited Scenario.no_faults in
  healthy w ∧ Scenario.U ∈ users (db w)
  ∧ owns (db w) 1 "p1" ∧ ¬ owns (db w) 1 "p2" ∧ ¬ member_of (db w) 1 "p2"
  ∧ ∃ d, (Dashboard.getDashboardData Clocks.utc_morning (Some 1) w).1 = Json 200 d
         ∧ totalProjects d = 1%nat.
Proof.
  pose (w := Scenario.world_of Scenario.invited Scenario.no_faults).
  assert (Hw : healthy w) by (intros n; reflexivity).
  assert (Hu : Scenario.U ∈ users (db w)) by apply list_elem_of_here.
  assert (Hown1 : owns (db w) 1 "p1").
  { eexists. split; [apply list_elem_of_here|]. done. }
  assert (Hown2 : ¬ owns (db w) 1 "p2").
  { intros (p & Hp & Howner & Huuid). simpl in Hp.
    repeat (apply elem_of_cons in Hp as [->|Hp]; [done|]). by apply elem_of_nil in Hp. }
  assert (Hmem2 : ¬ member_of (db w) 1 "p2").
  { intros (m & Hm & Huid & Huuid). simpl in Hm.
    repeat (apply elem_of_cons in Hm as [->|Hm]; [done|]). by apply elem_of_nil in Hm. }
  destruct (email_only_membership_is_not_visible Clocks.utc_morning w Scenario.U "p1" "p2"
              Hw ltac:(done) Hu Hown1 Hown2 Hmem2) as (d & Hd & Htotal & _).
  split_and!; try done.
  exists d. split; [exact Hd|]. rewrite Htotal. vm_compute. reflexivity.
Defined.

(** * C3: merging with a preferred variant *)

Section merge.
Context {A K : Type} `{EqDecision K} (key : A → K) (wins : A → bool).

Lemma merged_nil : merged key wins [] [].
Proof.
  split; [apply NoDup_nil_2 | intros x []%elem_of_nil | intros y []%elem_of_nil
         | intros x []%elem_of_nil].
Qed.

Lemma key_index acc i j x y :
  NoDup (key <$> acc) → acc !! i = Some x → acc !! j = Some y →
  key x = key y → i = j.
Proof.
  intros Hnd Hi Hj Hkey.
  apply (NoDup_lookup _ i j (key x) Hnd); rewrite list_lookup_fmap.
  - by rewrite Hi.
  - by rewrite Hj, Hkey.
Qed.

Lemma merged_step acc seen x :
  merged key wins acc seen →
  merged key wins (Calendar.merge_step key wins acc x) (seen ++ [x]).
Proof.
  intros [Hnd Hsub Hkeys Hwins]. unfold Calendar.merge_step.
  destruct (list_find _ acc) as [[i z]|] eqn:Hfind.
  - apply list_find_Some in Hfind as (Hi & Hz & _).
    assert (Hin : key x ∈ key <$> acc).
    { rewrite <- Hz. apply list_elem_of_fmap_2. by eapply list_elem_of_lookup_2. }
    destruct (wins x) eqn:Hx.
    + assert (Hsame : key <$> <[i:=x]> acc = key <$> acc).
      { rewrite list_fmap_insert. apply list_insert_id.
        by rewrite list_lookup_fmap, Hi, <- Hz. }
      assert (Hold : ∀ x', x' ∈ <[i:=x]> acc → x' = x ∨ (x' ∈ acc ∧ key x' ≠ key x)).
      { intros x' (j & Hj)%list_elem_of_lookup.
        destruct (decide (i = j)) as [<-|Hij].
        - rewrite list_lookup_insert_eq in Hj by (by eapply lookup_lt_Some).
          left. congruence.
        - rewrite list_lookup_insert_ne in Hj by done. right.
          split; [by eapply list_elem_of_lookup_2|].
          intros Hk. apply Hij. apply (key_index acc i j z x'); congruence. }
      split.
      * by rewrite Hsame.
      * intros x' [->|[Hx' _]]%Hold; apply elem_of_app; [right; by left | left; auto].
      * intros y [Hy| ->%list_elem_of_singleton]%elem_of_app; rewrite Hsame; auto.
      * intros x' [->|[Hx' Hne]]%Hold Hlose y
          [Hy| ->%list_elem_of_singleton]%elem_of_app Hk;
          [congruence | congruence | by eapply Hwins | congruence].
    + split; [done| | |].
      * intros x' Hx'. apply elem_of_app. left. auto.
      * intros y [Hy| ->%list_elem_of_singleton]%elem_of_app; auto.
      * intros x' Hx' Hlose y [Hy| ->%list_elem_of_singleton]%elem_of_app Hk;
          [by eapply Hwins | done].
  - apply list_find_None in Hfind. rewrite Forall_forall in Hfind.
    assert (Hfresh : key x ∉ key <$> acc).
    { intros (z & Hz & Hin)%list_elem_of_fmap. by apply (Hfind z Hin). }
    split.
    + rewrite fmap_app. apply NoDup_app. split_and!; [done| |apply NoDup_singleton].
      intros k Hk ->%list_elem_of_singleton. done.
    + intros x' [Hx'| ->%list_elem_of_singleton]%elem_of_app; apply elem_of_app;
        [left; auto | right; by left].
    + intros y [Hy| ->%list_elem_of_singleton]%elem_of_app; rewrite fmap_app;
        apply elem_of_app; [left; auto | right; by left].
    + intros x' [Hx'| ->%list_elem_of_singleton]%elem_of_app Hlose y
        [Hy| ->%list_elem_of_singleton]%elem_of_app Hk; [by eapply Hwins | | | done].
      * destruct Hfresh. rewrite Hk. by apply list_elem_of_fmap_2.
      * destruct Hfresh. rewrite <- Hk. auto.
Qed.

Lemma merged_foldl l acc seen :
  merged key wins acc seen →
  merged key wins (foldl (Calendar.merge_step key wins) acc l) (seen ++ l).
Proof.
  revert acc seen. induction l as [|x l IH]; intros acc seen Hm; simpl.
  - by rewrite (right_id_L [] (++)).
  - replace (seen ++ x :: l) with ((seen ++ [x]) ++ l)
      by (by rewrite <- (assoc_L (++))).
    apply IH, merged_step, Hm.
Qed.

(** A duplicate-free key column has exactly one row per key it holds. *)
Lemma filter_key_single acc k :
  NoDup (key <$> acc) → k ∈ key <$> acc →
  ∃ e, filter (λ x, key x = k) acc = [e].
Proof.
  induction acc as [|x acc IH]; simpl; intros Hnd Hk.
  - by apply elem_of_nil in Hk.
  - apply NoDup_cons in Hnd as [Hx Hnd].
    destruct (decide (key x = k)) as [Hxk|Hxk].
    + exists x. rewrite filter_cons_True by done. f_equal.
      apply filter_nothing_in. intros y Hy Hyk. apply Hx.
      rewrite Hxk, <- Hyk. by apply list_elem_of_fmap_2.
    + rewrite filter_cons_False by done. apply IH; [done|].
      apply elem_of_cons in Hk as [?|?]; [congruence | done].
Qed.

(** One element per key, and the preferred variant when there is one. *)
Lemma merge_prefers l k y :
  y ∈ l → key y = k → wins y = true →
  ∃ e, filter (λ x, key x = k) (foldl (Calendar.merge_step key wins) [] l) = [e]
       ∧ e ∈ l ∧ wins e = true.
Proof.
  intros Hy Hk Hwin.
  destruct (merged_foldl l [] [] merged_nil) as [Hnd Hsub Hkeys Hwins]. simpl in *.
  destruct (filter_key_single _ k Hnd) as [e He].
  { rewrite <- Hk. auto. }
  exists e. split; [done|].
  assert (He' : e ∈ filter (λ x, key x = k) (foldl (Calendar.merge_step key wins) [] l))
    by (rewrite He; left).
  apply list_elem_of_filter in He' as [Hek Hin].
  split; [auto|].
  destruct (wins e) eqn:Hlose; [done|].
  rewrite (Hwins e Hin Hlose y Hy) in Hwin; congruence.
Qed.
End merge.

Lemma calendar_healthy w uid mail sd ed :
  healthy w → uid ≠ 0 → mail ≠ "" →
  let r := Calendar.range sd ed in
  let owned := Calendar.ownedProjectsQuery uid r (db w) in
  let member := Calendar.memberProjectsQuery uid (db w) in
  let V := Calendar.allProjectUuids owned member in
  let pm := Calendar.projectsMap owned member in
  let assigned := Calendar.assignedTasks V (Calendar.assignedTasksQuery uid (db w)) in
  let projectTasks := Calendar.projectTasksQuery V r (db w) in
  ∃ d, (Calendar.getCalendarData (Some uid) (Some mail) sd ed w).1 = Json 200 d
    ∧ (V = [] ∧ d = Calendar.emptyData
       ∨ V ≠ []
         ∧ cal_projects d = Calendar.uniqueProjects (Calendar.formattedProjects owned member)
         ∧ cal_tasks d
           = Calendar.uniqueTasks (Calendar.formattedAssignedTasks pm assigned
                                   ++ Calendar.formattedProjectTasks pm projectTasks)).
Proof.
  intros Hw Huid Hmail. cbv zeta. unfold Calendar.getCalendarData.
  assert (JS.truthy_num uid = true) as -> by (by apply truthy_num_true).
  assert (JS.truthy_str mail = true) as -> by (by apply truthy_str_true).
  simpl. unfold Calendar.fetchProjects. run_healthy.
  case_decide as HV.
  - eexists. split; [reflexivity|]. by left.
  - run_healthy. eexists. split; [reflexivity|]. right. done.
Qed.

(** C3: in the calendar response, a project UUID that occurs in both the
    owned list and the member list has exactly one entry in the returned
    project list, and it is the owned-shaped record (role "owner", isOwner
    true); a task id that occurs in both the assigned list and the plain
    project-task list has exactly one entry in the returned task list, and it
    is the assigned variant, which carries [assigned_at]. *)
Theorem calendar_merge_prefers_owned_and_assigned w uid mail sd ed :
  healthy w → uid ≠ 0 → mail ≠ "" →
  let r := Calendar.range sd ed in
  let owned := Calendar.ownedProjectsQuery uid r (db w) in
  let member := Calendar.memberProjectsQuery uid (db w) in
  let V := Calendar.allProjectUuids owned member in
  let pm := Calendar.projectsMap owned member in
  let assigned :=
    Calendar.formattedAssignedTasks pm
      (Calendar.assignedTasks V (Calendar.assignedTasksQuery uid (db w))) in
  let projectTasks := Calendar.projectTasksQuery V r (db w) in
  ∃ d, (Calendar.getCalendarData (Some uid) (Some mail) sd ed w).1 = Json 200 d
    ∧ (∀ uuid,
         uuid ∈ project_uuid <$> owned →
         uuid ∈ omap (λ m, project_uuid <$> mp_projects m) member →
         ∃ e, filter (λ p, project_uuid (cp_project p) = uuid) (cal_projects d) = [e]
              ∧ cp_isOwner e = true ∧ cp_role e = "owner")
    ∧ (∀ id,
         id ∈ (λ t, task_id (ct_task t)) <$> assigned →
         id ∈ task_id <$> projectTasks →
         ∃ e, filter (λ t, task_id (ct_task t) = id) (cal_tasks d) = [e]
              ∧ e ∈ assigned
              ∧ ct_isAssigned e = true ∧ is_Some (ct_assigned_at e)).
Proof.
  intros Hw Huid Hmail. cbv zeta.
  destruct (calendar_healthy w uid mail sd ed Hw Huid Hmail) as (d & Hd & Hcases).
  exists d. split; [done|]. cbv zeta in Hcases.
  destruct Hcases as [[HV ->]|(HV & -> & ->)].
  - rewrite HV. split.
    + intros uuid Howned _. exfalso. apply (not_elem_of_nil uuid).
      rewrite <- HV. unfold Calendar.allProjectUuids.
      apply elem_of_set_of, elem_of_app. by left.
    + intros id _ (t & _ & Ht)%list_elem_of_fmap. exfalso.
      apply list_elem_of_filter in Ht as [_ Ht].
      rewrite tasks_in_nil in Ht. by apply elem_of_nil in Ht.
  - split.
    + intros uuid (p & -> & Hp)%list_elem_of_fmap _.
      destruct (merge_prefers (λ p, project_uuid (cp_project p)) cp_isOwner
                  (Calendar.formattedProjects
                     (Calendar.ownedProjectsQuery uid (Calendar.range sd ed) (db w))
                     (Calendar.memberProjectsQuery uid (db w)))
                  (project_uuid p)
                  {| cp_project := p; cp_role := "owner"; cp_isOwner := true |})
        as (e & He & Hin & Hwin); [|done|done|].
      { apply elem_of_app. left.
        by apply (list_elem_of_fmap_2
                    (λ p, {| cp_project := p; cp_role := "owner"; cp_isOwner := true |})). }
      exists e. split; [exact He|]. split; [done|].
      apply elem_of_app in Hin as [(q & -> & _)%list_elem_of_fmap|Hin]; [done|].
      apply list_elem_of_omap in Hin as (m & _ & Hm).
      destruct (mp_projects m); simplify_eq/=.
    + intros id (t & -> & Ht)%list_elem_of_fmap _.
      set (assigned := Calendar.formattedAssignedTasks _ _) in *.
      set (plain := Calendar.formattedProjectTasks _ _).
      assert (Hshape : ∀ e, e ∈ assigned →
                ct_isAssigned e = true ∧ is_Some (ct_assigned_at e)).
      { intros e (a & _ & Ha)%list_elem_of_omap.
        destruct (at_tasks a); simplify_eq/=. eauto. }
      destruct (merge_prefers (λ t, task_id (ct_task t)) ct_isAssigned
                  (assigned ++ plain) (task_id (ct_task t)) t)
        as (e & He & Hin & Hwin); [apply elem_of_app; by left | done | by apply Hshape |].
      exists e. split; [exact He|].
      apply elem_of_app in Hin as [Hin|(q & -> & _)%list_elem_of_fmap]; [|done].
      split; [done|]. by apply Hshape.
Qed.

Lemma calendar_merge_prefers_owned_and_assigned_witness :
  let w := Scenario.world_of Scenario.shared Scenario.no_faults in
  healthy w
  ∧ ∃ d, (Calendar.getCalendarData (Some 1) (Some "u@x.com") None None w).1 = Json 200 d
      ∧ (∃ e, filter (λ p, project_uuid (cp_project p) = "p1") (cal_projects d) = [e]
              ∧ cp_isOwner e = true ∧ cp_role e = "owner")
      ∧ (∃ e, filter (λ t, task_id (ct_task t) = 1) (cal_tasks d) = [e]
              ∧ ct_isAssigned e = true ∧ is_Some (ct_assigned_at e)).
Proof.
  pose (w := Scenario.world_of Scenario.shared Scenario.no_faults).
  assert (Hw : healthy w) by (intros n; reflexivity).
  destruct (calendar_merge_prefers_owned_and_assigned w 1 "u@x.com" None None
              Hw ltac:(done) ltac:(done)) as (d & Hd & Hprojects & Htasks).
  split; [exact Hw|]. exists d. split; [exact Hd|]. split.
  - destruct (Hprojects "p1") as (e & He & Hshape).
    + apply (bool_decide_unpack _). vm_compute. reflexivity.
    + apply (bool_decide_unpack _). vm_compute. reflexivity.
    + by exists e.
  - destruct (Htasks 1) as (e & He & _ & Hshape).
    + apply (bool_decide_unpack _). vm_compute. reflexivity.
    + apply (bool_decide_unpack _). vm_compute. reflexivity.
    + by exists e.
Defined.

(** * C4: upcoming deadlines *)

#[local] Instance due_asc_total : Total Query.due_asc.
Proof.
  intros a b. unfold Query.due_asc, Query.date_asc.
  destruct (due_date a), (due_date b); try tauto. lia.
Qed.

#[local] Instance due_asc_trans : Transitive Query.due_asc.
Proof.
  intros a b c. unfold Query.due_asc, Query.date_asc.
  destruct (due_date a), (due_date b), (due_date c); try tauto. lia.
Qed.

(** What the query returns: tasks of the given projects with a due date in
    [lo, hi], soonest first, ten at most. *)
Lemma upcoming_tasks_spec V lo hi s :
  let result := Query.upcoming_tasks V lo hi s in
  (∀ t, t ∈ result →
        t ∈ tasks s ∧ t_project_uuid t ∈ V
        ∧ ∃ d, due_date t = Some d ∧ lo ≤ d ≤ hi)
  ∧ StronglySorted Query.due_asc result
  ∧ (length result ≤ 10)%nat.
Proof.
  cbv zeta. unfold Query.upcoming_tasks. split_and!.
  - intros t Ht%subseteq_take.
    rewrite merge_sort_Permutation in Ht.
    apply list_elem_of_filter in Ht as [(Hhi & Hlo & Hnull) Ht].
    apply list_elem_of_filter in Ht as [HV Ht].
    split_and!; [done..|]. unfold Query.date_lte, Query.date_gte in *.
    destruct (due_date t) as [d|]; [|done]. exists d. split; [done|lia].
  - set (sorted := merge_sort _ _).
    assert (Hsorted : StronglySorted Query.due_asc sorted)
      by (apply StronglySorted_merge_sort; apply _).
    rewrite <- (take_drop 10 sorted) in Hsorted.
    by apply StronglySorted_app_1_l in Hsorted.
  - rewrite length_take. lia.
Qed.

(** On a server that runs on UTC the window is [today, today + 14]. *)
Lemma window_utc clk :
  Clock.tz_offset_min clk = 0 →
  Dashboard.window_lo clk = Clock.today clk
  ∧ Dashboard.window_hi clk = Clock.today clk + 14.
Proof.
  intros Hutc.
  unfold Dashboard.window_lo, Dashboard.window_hi, Clock.today, Clock.isoDate,
    Clock.setHours0, Clock.addDays, Clock.local_day.
  rewrite Hutc, !Z.mul_0_l, Z.sub_0_r, !Z.add_0_r. split.
  - apply Z.div_mul. done.
  - rewrite Z.div_add by done. done.
Qed.

(** C4, evaluated where it fails: on a server at UTC+05:30, at 10:00 local
    time on 2026-11-02 (04:30 UTC of the same day), the lower end of the
    window is 2026-11-01, and the task due on that day is returned in
    [upcomingDeadlines] although it was due before today. *)
Lemma upcoming_deadlines_include_yesterday :
  let clk := Clocks.kolkata_morning in
  let w := Scenario.world_of Scenario.overdue Scenario.no_faults in
  Clock.today clk = Clocks.nov2
  ∧ Clock.isoDate (Clock.now_ms clk) = Clocks.nov2
  ∧ Dashboard.window_lo clk = Clocks.nov2 - 1
  ∧ ∃ d t, (Dashboard.getDashboardData clk (Some 1) w).1 = Json 200 d
           ∧ t ∈ upcomingDeadlines d
           ∧ f_due_date t = Some (Clocks.nov2 - 1).
Proof.
  simpl. split_and!; [reflexivity..|].
  eexists _, _. split; [vm_compute; reflexivity|].
  split; [apply list_elem_of_here | reflexivity].
Qed.

(** On a server that runs on UTC, the dashboard's [upcomingDeadlines] are as
    the claim says: due dates within [today, today + 14], soonest first, ten
    at most. *)
Lemma upcoming_deadlines_utc clk uid w :
  healthy w → uid ≠ 0 → Clock.tz_offset_min clk = 0 →
  ∃ d, (Dashboard.getDashboardData clk (Some uid) w).1 = Json 200 d
    ∧ (∀ f, f ∈ upcomingDeadlines d →
            ∃ due, f_due_date f = Some due
                   ∧ Clock.today clk ≤ due ≤ Clock.today clk + 14)
    ∧ StronglySorted (λ a b, Query.date_asc (f_due_date a) (f_due_date b))
        (upcomingDeadlines d)
    ∧ (length (upcomingDeadlines d) ≤ 10)%nat.
Proof.
  intros Hw Huid Hutc.
  destruct (dashboard_healthy clk uid w Hw Huid) as (d & Hd & _ & _ & _ & Hup).
  destruct (window_utc clk Hutc) as [Hlo Hhi].
  exists d. split; [done|]. cbv zeta in Hup. rewrite Hup, Hlo, Hhi.
  destruct (upcoming_tasks_spec (visible (db w) uid) (Clock.today clk)
              (Clock.today clk + 14) (db w)) as (Hin & Hsorted & Hlen).
  split_and!.
  - intros f (t & -> & Ht)%list_elem_of_fmap.
    destruct (Hin t Ht) as (_ & _ & due & Hdue & Hrange). by exists due.
  - eapply (StronglySorted_fmap _ Query.due_asc); [|exact Hsorted]. by intros a b.
  - by rewrite length_fmap.
Qed.

(** * C5: completed projects *)






(** * Logs *)

Lemma issued_refl w : issued w w = [].
Proof. unfold issued. by rewrite drop_all. Qed.

Lemma issued_tick w w' op s :
  (length (log w) ≤ length (log w'))%nat →
  issued w (tick op s w') = issued w w' ++ [op].
Proof. intros Hlen. unfold issued; simpl. by rewrite drop_app_le. Qed.

Lemma length_log_tick op s w : length (log (tick op s w)) = S (length (log w)).
Proof. simpl. rewrite length_app. simpl. lia. Qed.

(** Normalises [issued w w'] when [w'] is [w] after some calls. *)
Ltac issued_norm :=
  repeat (rewrite issued_tick by (rewrite ?length_log_tick; lia));
  rewrite ?issued_refl; simpl.

(** * C8 and C10: [deleteProject] *)

(** C8: when some requested UUID resolves to a project that another user
    owns, the whole batch is turned away with the authorization error: no
    delete is issued and the store is as it was, the caller's own projects
    included. *)
Theorem bulk_delete_rejects_whole_batch w uid singleUuid projectIds :
  faults w (calls w) = false → uid ≠ 0 →
  (∃ p, p ∈ projects (db w)
        ∧ project_uuid p ∈ Projects.uuidsToDelete singleUuid projectIds
        ∧ owner_id p ≠ uid) →
  let run := Projects.deleteProject (Some uid) singleUuid projectIds w in
  run.1 = Fail 403 "Access denied. You can only delete projects you own."
  ∧ db run.2 = db w
  ∧ issued w run.2 = [Select "projects"].
Proof.
  intros Hfetch Huid (p & Hp & Hreq & Hother). cbv zeta.
  unfold Projects.deleteProject.
  assert (JS.truthy_num uid = true) as -> by (by apply truthy_num_true).
  simpl. unfold mbind, M_bind, select, call. rewrite Hfetch.
  case_decide as Hnone.
  - exfalso. apply (not_elem_of_nil p). rewrite <- Hnone.
    apply list_elem_of_filter. split; [done|].
    apply list_elem_of_filter. done.
  - simpl. split_and!; [done..|]. by issued_norm.
Qed.

Lemma bulk_delete_rejects_whole_batch_witness :
  let w := Scenario.world_of Scenario.shared Scenario.no_faults in
  let run := Projects.deleteProject (Some 1) "p1" (Some ["p1"; "p2"]) w in
  faults w (calls w) = false
  ∧ (∃ p, p ∈ projects (db w)
          ∧ project_uuid p ∈ Projects.uuidsToDelete "p1" (Some ["p1"; "p2"])
          ∧ owner_id p ≠ 1)
  ∧ run.1 = Fail 403 "Access denied. You can only delete projects you own."
  ∧ projects (db run.2) = projects Scenario.shared.
Proof.
  pose (w := Scenario.world_of Scenario.shared Scenario.no_faults).
  assert (Hother : ∃ p, p ∈ projects (db w)
                        ∧ project_uuid p ∈ Projects.uuidsToDelete "p1" (Some ["p1"; "p2"])
                        ∧ owner_id p ≠ 1).
  { exists (Scenario.project 2 "p2" 2 (Some 20750) (Some 20800)).
    split_and!; [apply list_elem_of_further, list_elem_of_here
               | by apply (bool_decide_unpack _) | done]. }
  destruct (bulk_delete_rejects_whole_batch w 1 "p1" (Some ["p1"; "p2"])
              eq_refl ltac:(done) Hother) as (Hresponse & Hdb & _).
  split; [reflexivity|]. split; [exact Hother|]. split; [exact Hresponse|].
  exact (f_equal projects Hdb).
Defined.

(** C10: a bulk delete in which no requested UUID resolves to a project of
    another user succeeds whether or not every requested UUID exists: there
    is no not-found error, the one delete issued removes the rows that match,
    and [deletedCount] is the number of UUIDs requested. *)
Theorem bulk_delete_counts_requested_uuids w uid singleUuid projectIds :
  healthy w → uid ≠ 0 → projectIds ≠ [] →
  (∀ p, p ∈ projects (db w) → project_uuid p ∈ projectIds → owner_id p = uid) →
  let run := Projects.deleteProject (Some uid) singleUuid (Some projectIds) w in
  run.1 = Json 200 (length projectIds)
  ∧ projects (db run.2) = filter (λ p, project_uuid p ∉ projectIds) (projects (db w))
  ∧ writes w run.2 = [DeleteProjects projectIds].
Proof.
  intros Hw Huid Hids Hown. cbv zeta. unfold Projects.deleteProject.
  assert (JS.truthy_num uid = true) as -> by (by apply truthy_num_true).
  assert (Projects.uuidsToDelete singleUuid (Some projectIds) = projectIds) as ->
    by (destruct projectIds; [by destruct Hids | done]).
  simpl. run_healthy. rewrite decide_True.
  - run_healthy. split_and!; [done..|]. unfold writes. by issued_norm.
  - apply filter_nothing_in. intros p [Hreq Hp]%list_elem_of_filter Hother.
    apply Hother. by apply Hown.
Qed.

Lemma bulk_delete_counts_requested_uuids_witness :
  let w := Scenario.world_of Scenario.shared Scenario.no_faults in
  let run := Projects.deleteProject (Some 1) "p1" (Some ["p1"; "no-such-project"]) w in
  healthy w
  ∧ (∀ p, p ∈ projects (db w) → project_uuid p ∈ ["p1"; "no-such-project"]
          → owner_id p = 1)
  ∧ run.1 = Json 200 2%nat
  ∧ (length (projects (db w)) - length (projects (db run.2)) = 1)%nat.
Proof.
  pose (w := Scenario.world_of Scenario.shared Scenario.no_faults).
  assert (Hw : healthy w) by (intros n; reflexivity).
  assert (Hown : ∀ p, p ∈ projects (db w)
                      → project_uuid p ∈ ["p1"; "no-such-project"] → owner_id p = 1).
  { intros p Hp Hreq. simpl in Hp.
    apply elem_of_cons in Hp as [->|Hp]; [done|].
    apply elem_of_cons in Hp as [->|Hp]; [|by apply elem_of_nil in Hp].
    exfalso. simpl in Hreq.
    repeat (apply elem_of_cons in Hreq as [Hreq|Hreq]; [done|]).
    by apply elem_of_nil in Hreq. }
  destruct (bulk_delete_counts_requested_uuids w 1 "p1" ["p1"; "no-such-project"]
              Hw ltac:(done) ltac:(done) Hown) as (Hresponse & Hrows & _).
  split; [exact Hw|]. split; [exact Hown|]. split; [exact Hresponse|].
  vm_compute. reflexivity.
Defined.

(** * C7: [bulkAddProjectMembers] *)

Lemma writes_of_log w w' ops :
  log w' = log w ++ ops → writes w w' = filter is_write ops.
Proof.
  intros Hlog. unfold writes, issued. by rewrite Hlog, drop_app_length.
Qed.

Lemma authorize_healthy w projectUuid uid emails :
  healthy w → uid ≠ 0 → emails ≠ [] →
  may_add_members (db w) projectUuid uid →
  ∃ w' selects,
    ProjectMembers.authorize projectUuid (Some uid) (Some emails) w = (inr (uid, emails), w')
    ∧ healthy w' ∧ db w' = db w
    ∧ log w' = log w ++ selects ∧ filter is_write selects = [].
Proof.
  intros Hw Huid Hemails (project & Hproject & Hmay).
  unfold ProjectMembers.authorize.
  assert (JS.truthy_num uid = true) as -> by (by apply truthy_num_true).
  destruct emails as [|e emails]; [done|]. simpl. run_healthy. rewrite Hproject.
  case_decide as Howner.
  - eexists _, [_]. split; [reflexivity|]. split; [by apply healthy_tick|]. done.
  - destruct Hmay as [?|Hmay]; [done|]. run_healthy. rewrite Hmay.
    eexists _, [_; _]. split; [reflexivity|].
    split; [by do 2 apply healthy_tick|]. simpl. by rewrite <- (assoc_L (++)).
Qed.

Lemma elem_of_cleanEmails emails e :
  e ∈ cleanEmails emails
  ↔ e ≠ "" ∧ ∃ raw, raw ∈ emails ∧ e = JS.toLowerCase (JS.trim raw).
Proof.
  unfold cleanEmails.
  rewrite elem_of_set_of, list_elem_of_filter, truthy_str_true, list_elem_of_fmap.
  split; intros [Hne (raw & ? & ?)]; (split; [done|]); by exists raw.
Qed.

Lemma elem_of_newEmails clean existing e :
  e ∈ ProjectMembers.newEmails clean existing
  ↔ e ∈ clean ∧ ¬ (∃ m, m ∈ existing ∧ JS.toLowerCase (member_email m) = e).
Proof.
  unfold ProjectMembers.newEmails.
  rewrite list_elem_of_filter, elem_of_set_of, list_elem_of_fmap. split.
  - intros [Hno He]. split; [done|]. intros (m & Hm & Hmail). apply Hno. by exists m.
  - intros [He Hno]. split; [|done]. intros (m & Hmail & Hm). apply Hno. by exists m.
Qed.

Lemma memberRows_emails projectUuid byEmail defaultRole emails :
  member_email <$> ProjectMembers.memberRows projectUuid byEmail defaultRole emails
  = emails.
Proof.
  unfold ProjectMembers.memberRows.
  induction emails as [|e emails IH]; [done|]. csimpl. f_equal. exact IH.
Qed.

Lemma memberRows_project projectUuid byEmail defaultRole emails :
  Forall (λ m, m_project_uuid m = projectUuid)
    (ProjectMembers.memberRows projectUuid byEmail defaultRole emails).
Proof.
  unfold ProjectMembers.memberRows. apply Forall_fmap, Forall_forall. done.
Qed.

(** C7, as stated, fails on inputs in which no address is left after
    cleaning: the new subset is empty, and the answer is the validation error
    400, not the conflict 409.  The owner sends one blank entry; the owner
    sends no entry at all. *)
Lemma blank_input_is_not_a_conflict :
  let w := Scenario.world_of Scenario.overdue Scenario.no_faults in
  let existing := ProjectMembers.existingMembersQuery "p1" (db w) in
  may_add_members (db w) "p1" 1
  ∧ ProjectMembers.newEmails (cleanEmails ["  "]) existing = []
  ∧ (ProjectMembers.bulkAddProjectMembers "p1" (Some 1) (Some ["  "]) None w).1
    = Fail 400 "No valid email addresses provided"
  ∧ ProjectMembers.newEmails (cleanEmails []) existing = []
  ∧ (ProjectMembers.bulkAddProjectMembers "p1" (Some 1) (Some []) None w).1
    = Fail 400 "memberEmails array is required and must not be empty".
Proof.
  simpl. split_and!; try reflexivity.
  eexists. split; [reflexivity|]. by left.
Qed.

(** C7 (amended): for a bulk member-add request with a non-empty input list
    from a caller who may add members, the input is trimmed, lower-cased,
    cleared of blank entries and deduplicated, and the emails already present
    as members of the project are filtered out.  If no address is left after
    cleaning, the request fails with the validation error 400; if addresses
    are left and none is new, it fails with the conflict 409; in both cases
    nothing is inserted.  Otherwise exactly the new subset is inserted, one
    row per email. *)
Theorem bulk_add_inserts_exactly_the_new_emails w projectUuid uid emails defaultRole :
  healthy w → uid ≠ 0 → emails ≠ [] →
  may_add_members (db w) projectUuid uid →
  let clean := cleanEmails emails in
  let new :=
    ProjectMembers.newEmails clean (ProjectMembers.existingMembersQuery projectUuid (db w)) in
  let run :=
    ProjectMembers.bulkAddProjectMembers projectUuid (Some uid) (Some emails) defaultRole w in
  NoDup new
  ∧ (∀ e, e ∈ new
          ↔ e ≠ ""
            ∧ (∃ raw, raw ∈ emails ∧ e = JS.toLowerCase (JS.trim raw))
            ∧ ¬ (∃ m, m ∈ project_members (db w) ∧ m_project_uuid m = projectUuid
                      ∧ JS.toLowerCase (member_email m) = e))
  ∧ (clean = [] →
       run.1 = Fail 400 "No valid email addresses provided"
       ∧ db run.2 = db w ∧ writes w run.2 = [])
  ∧ (clean ≠ [] → new = [] →
       run.1 = Fail 409 "All provided emails are already members of this project"
       ∧ db run.2 = db w ∧ writes w run.2 = [])
  ∧ (new ≠ [] →
       ∃ rows sent,
         run.1 = Json 201 {| ba_membersAdded := length rows; ba_emailsSent := sent;
                             ba_members := rows |}
         ∧ member_email <$> rows = new
         ∧ Forall (λ m, m_project_uuid m = projectUuid) rows
         ∧ project_members (db run.2) = project_members (db w) ++ rows
         ∧ writes w run.2 = [InsertMembers rows]).
Proof.
  intros Hw Huid Hemails Hmay. cbv zeta.
  destruct (authorize_healthy w projectUuid uid emails Hw Huid Hemails Hmay)
    as (w' & selects & Hauth & Hw' & Hdb & Hlog & Hselects).
  split_and!.
  - apply NoDup_filter, NoDup_set_of.
  - intros e. rewrite elem_of_newEmails, elem_of_cleanEmails.
    unfold ProjectMembers.existingMembersQuery. split.
    + intros [[Hne Hraw] Hno]. split_and!; [done..|].
      intros (m & Hm & Hp & Hmail). apply Hno. exists m. split; [|done].
      by apply list_elem_of_filter.
    + intros (Hne & Hraw & Hno). split; [done|].
      intros (m & [Hp Hm]%list_elem_of_filter & Hmail). apply Hno. by exists m.
  - intros Hclean.
    assert (Hrun : ProjectMembers.bulkAddProjectMembers projectUuid (Some uid)
                     (Some emails) defaultRole w
                   = (Fail 400 "No valid email addresses provided", w')).
    { unfold ProjectMembers.bulkAddProjectMembers.
      unfold mbind at 1, M_bind at 1. by rewrite Hauth, Hclean. }
    rewrite Hrun. simpl. split_and!; [done..|].
    by rewrite (writes_of_log w w' selects).
  - intros Hclean Hnew.
    assert (Hrun : ProjectMembers.bulkAddProjectMembers projectUuid (Some uid)
                     (Some emails) defaultRole w
                   = (Fail 409 "All provided emails are already members of this project",
                      tick (Select "project_members") (db w') w')).
    { unfold ProjectMembers.bulkAddProjectMembers.
      unfold mbind at 1, M_bind at 1. rewrite Hauth.
      rewrite decide_False by done. run_healthy. by rewrite Hdb, Hnew. }
    rewrite Hrun. simpl. split_and!; [done..|].
    rewrite (writes_of_log w _ (selects ++ [Select "project_members"])).
    + by rewrite filter_app, Hselects.
    + simpl. by rewrite Hlog, <- (assoc_L (++)).
  - intros Hnew.
    assert (Hclean : cleanEmails emails ≠ []).
    { intros Hnil. apply Hnew. unfold ProjectMembers.newEmails. by rewrite Hnil. }
    set (new := ProjectMembers.newEmails _ _) in *.
    set (byEmail := ProjectMembers.userByEmail (Query.users_by_email new (db w))).
    set (rows := ProjectMembers.memberRows projectUuid byEmail defaultRole new).
    set (invite := filter (λ e, byEmail !! e = None) new).
    assert (Hrun : ∃ w'' ops,
              ProjectMembers.bulkAddProjectMembers projectUuid (Some uid)
                (Some emails) defaultRole w
              = (Json 201 {| ba_membersAdded := length rows;
                             ba_emailsSent := length invite; ba_members := rows |}, w'')
              ∧ db w'' = Write.insert_members rows (db w)
              ∧ log w'' = log w ++ ops
              ∧ filter is_write ops = [InsertMembers rows]).
    { unfold ProjectMembers.bulkAddProjectMembers.
      unfold mbind at 1, M_bind at 1. rewrite Hauth.
      rewrite decide_False by done. run_healthy. rewrite Hdb. fold new.
      rewrite decide_False by done. run_healthy. fold byEmail. fold rows. fold invite.
      case_decide as Hinvite; run_healthy.
      - eexists _, (selects ++ [Select "project_members"; Select "users"; InsertMembers rows]).
        split; [reflexivity|]. split; [done|]. simpl.
        rewrite Hlog, <- !(assoc_L (++)), filter_app, Hselects. done.
      - eexists _, (selects ++ [Select "project_members"; Select "users"; InsertMembers rows;
                                Select "users"]).
        split; [reflexivity|]. split; [done|]. simpl.
        rewrite Hlog, <- !(assoc_L (++)), filter_app, Hselects. done. }
    destruct Hrun as (w'' & ops & Hrun & Hdb'' & Hlog'' & Hops).
    exists rows, (length invite). rewrite Hrun. simpl.
    split_and!; [done | apply memberRows_emails | apply memberRows_project | |].
    + by rewrite Hdb''.
    + by rewrite (writes_of_log w w'' ops).
Qed.

Lemma bulk_add_inserts_exactly_the_new_emails_witness :
  let w := Scenario.world_of Scenario.overdue Scenario.no_faults in
  let emails := ["a@x.com"; "a@x.com"; "B@x.com"] in
  let run := ProjectMembers.bulkAddProjectMembers "p1" (Some 1) (Some emails) None w in
  healthy w ∧ may_add_members (db w) "p1" 1
  ∧ project_members (db w) = []
  ∧ ∃ rows sent,
      run.1 = Json 201 {| ba_membersAdded := length rows; ba_emailsSent := sent;
                          ba_members := rows |}
      ∧ member_email <$> rows = ["a@x.com"; "b@x.com"]
      ∧ project_members (db run.2) = rows.
Proof.
  pose (w := Scenario.world_of Scenario.overdue Scenario.no_faults).
  assert (Hw : healthy w) by (intros n; reflexivity).
  assert (Hmay : may_add_members (db w) "p1" 1).
  { eexists. split; [reflexivity|]. by left. }
  destruct (bulk_add_inserts_exactly_the_new_emails w "p1" 1
              ["a@x.com"; "a@x.com"; "B@x.com"] None Hw ltac:(done) ltac:(done) Hmay)
    as (_ & _ & _ & _ & Hinsert).
  destruct Hinsert as (rows & sent & Hresponse & Hemails & _ & Hrows & _).
  { vm_compute. done. }
  split; [exact Hw|]. split; [exact Hmay|]. split; [reflexivity|].
  exists rows, sent. split; [exact Hresponse|]. split; [exact Hemails | exact Hrows].
Defined.

(** * C9: [createProject] *)

(** C9, as stated, fails: the store takes the project row and refuses every
    call after it.  The user lookup comes back with an error, the handler
    issues the delete of the row it created and answers 400 without looking
    at the delete's result; the delete was refused, and the row is still in
    the store. *)
Lemma create_project_row_survives_a_refused_delete :
  let w := Scenario.world_of Scenario.overdue (λ n, bool_decide (1 ≤ n)%nat) in
  let row := Scenario.project 9 "p9" 1 None None in
  let run := Projects.createProject (Some 1) row (Some [" A@x.com "]) w in
  run.1 = Fail 400 "usersError"
  ∧ issued w run.2 = [InsertProject row; Select "users"; DeleteProjects ["p9"]]
  ∧ row ∈ projects (db run.2)
  ∧ ¬ (∀ p, p ∈ projects (db run.2) → project_uuid p ≠ "p9").
Proof.
  cbv zeta.
  assert (Hrow : Scenario.project 9 "p9" 1 None None
                 ∈ projects (db (Projects.createProject (Some 1)
                      (Scenario.project 9 "p9" 1 None None) (Some [" A@x.com "])
                      (Scenario.world_of Scenario.overdue
                         (λ n, bool_decide (1 ≤ n)%nat))).2)).
  { vm_compute. apply list_elem_of_further, list_elem_of_here. }
  split; [reflexivity|]. split; [reflexivity|]. split; [exact Hrow|].
  intros Hgone. by apply (Hgone _ Hrow).
Qed.

(** C9 (amended): when the project row is in and the user lookup or the
    insert of the member rows comes back with an error, the handler answers
    with the error only after it has issued the delete of the row it
    created, and it does not look at the result of that delete: when the
    store has carried the delete out, no row with the project's UUID is
    left; when the store has refused the delete too, the created row is
    still there. *)
Theorem create_project_deletes_the_row_on_error w userId row raw :
  faults w (calls w) = false →
  project_uuid row ≠ "" →
  cleanEmails raw ≠ [] →
  faults w (S (calls w)) = true
  ∨ faults w (S (calls w)) = false ∧ faults w (S (S (calls w))) = true →
  let run := Projects.createProject userId row (Some raw) w in
  (∃ message, run.1 = Fail 400 message)
  ∧ (∃ between,
        issued w run.2
        = InsertProject row :: between ++ [DeleteProjects [project_uuid row]]
        ∧ filter is_write between
          = (if faults w (S (calls w)) then []
             else [InsertMembers
                     (Projects.memberRows (project_uuid row)
                        (Projects.foundByEmail
                           (Query.users_by_email (cleanEmails raw)
                              (Write.insert_project row (db w))))
                        (cleanEmails raw))]))
  ∧ (faults w (pred (calls run.2)) = false →
     ∀ p, p ∈ projects (db run.2) → project_uuid p ≠ project_uuid row)
  ∧ (faults w (pred (calls run.2)) = true → row ∈ projects (db run.2)).
Proof.
  intros Hinsert Huuid Hclean Hfail. cbv zeta.
  assert (Hkept : row ∈ projects (db w) ++ [row]).
  { apply elem_of_app. right. apply list_elem_of_here. }
  assert (Hgone : ∀ (l : list Project) p,
                    p ∈ filter (λ p, project_uuid p ∉ [project_uuid row]) l
                         → project_uuid p ≠ project_uuid row).
  { intros l p [Hp _]%list_elem_of_filter Heq. apply Hp. rewrite Heq. left. }
  assert (Hrun : ∃ w' message between,
            Projects.createProject userId row (Some raw) w = (Fail 400 message, w')
            ∧ log w' = log w ++ InsertProject row :: between
                               ++ [DeleteProjects [project_uuid row]]
            ∧ filter is_write between
              = (if faults w (S (calls w)) then []
                 else [InsertMembers
                         (Projects.memberRows (project_uuid row)
                            (Projects.foundByEmail
                               (Query.users_by_email (cleanEmails raw)
                                  (Write.insert_project row (db w))))
                            (cleanEmails raw))])
            ∧ (faults w (pred (calls w')) = false →
               ∀ p, p ∈ projects (db w') → project_uuid p ≠ project_uuid row)
            ∧ (faults w (pred (calls w')) = true → row ∈ projects (db w'))).
  { unfold Projects.createProject.
    unfold mbind, M_bind, mret, M_ret, mutate, select, call. simpl.
    rewrite Hinsert. simpl.
    assert (JS.truthy_str (project_uuid row) = true) as -> by (by apply truthy_str_true).
    simpl. destruct (cleanEmails raw) as [|e clean] eqn:Hemails; [done|]. simpl.
    destruct Hfail as [Husers|[Husers Hmembers]]; rewrite !Husers; simpl.
    - destruct (faults w (S (S (calls w)))) eqn:Hdelete; simpl.
      + eexists _, _, [Select "users"]. split; [reflexivity|]. simpl.
        split; [by rewrite <- !(assoc_L (++))|]. split; [done|].
        rewrite Hdelete. split; [done|]. intros _. exact Hkept.
      + eexists _, _, [Select "users"]. split; [reflexivity|]. simpl.
        split; [by rewrite <- !(assoc_L (++))|]. split; [done|].
        rewrite Hdelete. split; [|done]. intros _. apply Hgone.
    - rewrite Hmembers. simpl.
      destruct (faults w (S (S (S (calls w))))) eqn:Hdelete; simpl.
      + eexists _, _, [Select "users"; InsertMembers _]. split; [reflexivity|]. simpl.
        split; [by rewrite <- !(assoc_L (++))|]. split; [done|].
        rewrite Hdelete. split; [done|]. intros _. exact Hkept.
      + eexists _, _, [Select "users"; InsertMembers _]. split; [reflexivity|]. simpl.
        split; [by rewrite <- !(assoc_L (++))|]. split; [done|].
        rewrite Hdelete. split; [|done]. intros _. apply Hgone. }
  destruct Hrun as (w' & message & between & -> & Hlog & Hbetween & Hrows & Hstays). simpl.
  split; [by exists message|]. split; [|done].
  exists between. split; [|done]. unfold issued. by rewrite Hlog, drop_app_length.
Qed.

Lemma create_project_deletes_the_row_on_error_witness :
  let w := Scenario.world_of Scenario.overdue (fault_at 2) in
  let row := Scenario.project 9 "p9" 1 None None in
  let run := Projects.createProject (Some 1) row (Some [" A@x.com "]) w in
  faults w (calls w) = false
  ∧ (faults w (S (calls w)) = false ∧ faults w (S (S (calls w))) = true)
  ∧ (∃ message, run.1 = Fail 400 message)
  ∧ issued w run.2
    = [InsertProject row; Select "users";
       InsertMembers [Scenario.member "p9" None "a@x.com"]; DeleteProjects ["p9"]]
  ∧ ∀ p, p ∈ projects (db run.2) → project_uuid p ≠ "p9".
Proof.
  pose (w := Scenario.world_of Scenario.overdue (fault_at 2)).
  pose (row := Scenario.project 9 "p9" 1 None None).
  assert (Hfail : faults w (S (calls w)) = false ∧ faults w (S (S (calls w))) = true)
    by (split; reflexivity).
  destruct (create_project_deletes_the_row_on_error w (Some 1) row [" A@x.com "]
              eq_refl ltac:(done) ltac:(vm_compute; done) (or_intror Hfail))
    as (Hresponse & _ & Hgone & _).
  split; [reflexivity|]. split; [exact Hfail|]. split; [exact Hresponse|].
  split; [reflexivity|]. exact (Hgone eq_refl).
Defined.

(** * Handlers that only read *)

Lemma reads_only_ret {A} (a : A) : reads_only (mret a).
Proof. intros w. split; [done|]. exists []. by rewrite (right_id_L [] (++)). Qed.

Lemma reads_only_select {A} table (q : Store → A) : reads_only (select table q).
Proof.
  intros w. unfold select, call. destruct (faults w (calls w)); simpl.
  - split; [done|]. by exists [Select table].
  - split; [done|]. by exists [Select table].
Qed.

Lemma reads_only_bind {A B} (m : M A) (f : A → M B) :
  reads_only m → (∀ a, reads_only (f a)) → reads_only (m ≫= f).
Proof.
  intros Hm Hf w. unfold mbind, M_bind.
  destruct (m w) as [a w1] eqn:Hrun.
  destruct (Hm w) as [Hdb1 (ops1 & Hlog1 & Hops1)]. rewrite Hrun in Hdb1, Hlog1.
  destruct (Hf a w1) as [Hdb2 (ops2 & Hlog2 & Hops2)]. simpl in *.
  split; [congruence|]. exists (ops1 ++ ops2).
  rewrite Hlog2, Hlog1, (assoc_L (++)), filter_app, Hops1, Hops2. done.
Qed.

Lemma reads_only_writes {A} (m : M A) w :
  reads_only m → db (m w).2 = db w ∧ writes w (m w).2 = [].
Proof.
  intros Hm. destruct (Hm w) as [Hdb (ops & Hlog & Hops)].
  split; [done|]. by rewrite (writes_of_log w _ ops).
Qed.

(** Walks through a handler made of reads, binds and case distinctions. *)
Ltac reads_only_step :=
  first
    [ apply reads_only_ret
    | apply reads_only_select
    | apply reads_only_bind; [|intros ?]
    | match goal with
      | |- reads_only (match ?x with _ => _ end) => destruct x
      | |- reads_only (if ?b then _ else _) => destruct b
      end ].

Lemma reads_only_dashboard clk userId : reads_only (Dashboard.getDashboardData clk userId).
Proof.
  unfold Dashboard.getDashboardData, Dashboard.allProjectUuids, Dashboard.teamSets.
  repeat reads_only_step.
Qed.

Lemma reads_only_calendar userId userEmail sd ed :
  reads_only (Calendar.getCalendarData userId userEmail sd ed).
Proof.
  unfold Calendar.getCalendarData, Calendar.fetchProjects.
  repeat reads_only_step.
Qed.

Lemma reads_only_listProjects userId : reads_only (ProjectsRead.listProjects userId).
Proof. unfold ProjectsRead.listProjects. repeat reads_only_step. Qed.

Lemma reads_only_getProjectById uuid userId :
  reads_only (ProjectsRead.getProjectById uuid userId).
Proof. unfold ProjectsRead.getProjectById. repeat reads_only_step. Qed.

Lemma reads_only_sendProjectInvites uuid userId emails accepted :
  reads_only (ProjectsRead.sendProjectInvites uuid userId emails accepted).
Proof. unfold ProjectsRead.sendProjectInvites. repeat reads_only_step. Qed.

(** X1: the dashboard, the calendar, the project list, the single-project
    read and the invitation mailer never change the store: whichever calls
    the store answers or refuses, no write is issued and every table is as
    it was. *)
Theorem reading_handlers_never_write w clk userId userEmail sd ed uuid emails accepted :
  (db (Dashboard.getDashboardData clk userId w).2 = db w
   ∧ writes w (Dashboard.getDashboardData clk userId w).2 = [])
  ∧ (db (Calendar.getCalendarData userId userEmail sd ed w).2 = db w
     ∧ writes w (Calendar.getCalendarData userId userEmail sd ed w).2 = [])
  ∧ (db (ProjectsRead.listProjects userId w).2 = db w
     ∧ writes w (ProjectsRead.listProjects userId w).2 = [])
  ∧ (db (ProjectsRead.getProjectById uuid userId w).2 = db w
     ∧ writes w (ProjectsRead.getProjectById uuid userId w).2 = [])
  ∧ (db (ProjectsRead.sendProjectInvites uuid userId emails accepted w).2 = db w
     ∧ writes w (ProjectsRead.sendProjectInvites uuid userId emails accepted w).2 = []).
Proof.
  split_and!;
    first [ apply reads_only_writes, reads_only_dashboard
          | apply reads_only_writes, reads_only_calendar
          | apply reads_only_writes, reads_only_listProjects
          | apply reads_only_writes, reads_only_getProjectById
          | apply reads_only_writes, reads_only_sendProjectInvites ].
Qed.

(** * More on the dashboard *)

Lemma dashboard_run clk uid w :
  healthy w → uid ≠ 0 →
  (Dashboard.getDashboardData clk (Some uid) w).1 = Json 200 (dashboard_data clk (db w) uid).
Proof.
  intros Hw Huid. unfold Dashboard.getDashboardData.
  assert (JS.truthy_num uid = true) as -> by (by apply truthy_num_true).
  simpl. unfold mbind at 1, M_bind at 1.
  destruct (dashboard_uuids_run w uid Hw) as (w1 & -> & Hw1 & Hdb1).
  case_decide as HV.
  - simpl. f_equal. unfold dashboard_data, Query.recent_tasks, Query.upcoming_tasks,
      team_size, team_sets.
    rewrite HV, projects_in_nil, members_in_nil, tasks_in_nil. simpl.
    by rewrite users_by_email_nil.
  - unfold mbind at 1, M_bind at 1. rewrite select_healthy by done.
    unfold mbind at 1, M_bind at 1.
    rewrite select_healthy by eauto using healthy_tick. simpl.
    unfold mbind at 1, M_bind at 1.
    edestruct teamSets_run as (w2 & -> & Hw2 & Hdb2);
      [apply healthy_tick, healthy_tick, Hw1|].
    run_healthy. simpl in Hdb2. rewrite Hdb2, Hdb1. done.
Qed.

Lemma visible_nil s uid :
  visible s uid = []
  ↔ (∀ p, p ∈ projects s → owner_id p ≠ uid)
    ∧ (∀ m, m ∈ project_members s → m_user_id m ≠ Some uid).
Proof.
  split.
  - intros HV. split.
    + intros p Hp Howner. apply (not_elem_of_nil (project_uuid p)). rewrite <- HV.
      apply dashboard_uuids_spec. left. by exists p.
    + intros m Hm Huser. apply (not_elem_of_nil (m_project_uuid m)). rewrite <- HV.
      apply dashboard_uuids_spec. right. by exists m.
  - intros [Hown Hmem]. apply elem_of_nil_inv. intros x Hx.
    apply dashboard_uuids_spec in Hx as [(p & Hp & Howner & _)|(m & Hm & Huser & _)].
    + by apply (Hown p).
    + by apply (Hmem m).
Qed.

(** X2: a user who owns no project and has no member row gets the zero-valued
    summary from the dashboard and the empty calendar, both with status 200,
    after the two reads of the visibility set and no further call. *)
Theorem no_projects_short_circuit clk w uid mail sd ed :
  healthy w → uid ≠ 0 → mail ≠ "" →
  (∀ p, p ∈ projects (db w) → owner_id p ≠ uid) →
  (∀ m, m ∈ project_members (db w) → m_user_id m ≠ Some uid) →
  let dash := Dashboard.getDashboardData clk (Some uid) w in
  let cal := Calendar.getCalendarData (Some uid) (Some mail) sd ed w in
  dash.1 = Json 200 Dashboard.emptyData
  ∧ issued w dash.2 = [Select "projects"; Select "project_members"]
  ∧ cal.1 = Json 200 Calendar.emptyData
  ∧ issued w cal.2 = [Select "projects"; Select "project_members"].
Proof.
  intros Hw Huid Hmail Hown Hmem. cbv zeta.
  assert (HV : visible (db w) uid = []) by (by apply visible_nil).
  assert (Hdash : Dashboard.getDashboardData clk (Some uid) w
                  = (Json 200 Dashboard.emptyData,
                     tick (Select "project_members") (db w)
                       (tick (Select "projects") (db w) w))).
  { unfold Dashboard.getDashboardData, Dashboard.allProjectUuids.
    assert (JS.truthy_num uid = true) as -> by (by apply truthy_num_true).
    run_healthy. fold (visible (db w) uid). by rewrite HV. }
  assert (Hnone : Calendar.allProjectUuids
                    (Calendar.ownedProjectsQuery uid (Calendar.range sd ed) (db w))
                    (Calendar.memberProjectsQuery uid (db w)) = []).
  { unfold Calendar.allProjectUuids, Calendar.ownedProjectsQuery,
      Calendar.memberProjectsQuery, Query.owned_projects, Query.member_rows.
    rewrite (filter_nothing_in (λ p, owner_id p = uid)) by done.
    rewrite (filter_nothing_in (λ m, m_user_id m = Some uid)) by done. done. }
  assert (Hcal : Calendar.getCalendarData (Some uid) (Some mail) sd ed w
                 = (Json 200 Calendar.emptyData,
                    tick (Select "project_members") (db w)
                      (tick (Select "projects") (db w) w))).
  { unfold Calendar.getCalendarData, Calendar.fetchProjects.
    assert (JS.truthy_num uid = true) as -> by (by apply truthy_num_true).
    assert (JS.truthy_str mail = true) as -> by (by apply truthy_str_true).
    run_healthy. by rewrite Hnone. }
  rewrite Hdash, Hcal. simpl. split_and!; try done; by issued_norm.
Qed.

Lemma no_projects_short_circuit_witness :
  let w := Scenario.world_of Scenario.overdue Scenario.no_faults in
  healthy w
  ∧ (∀ p, p ∈ projects (db w) → owner_id p ≠ 2)
  ∧ (Dashboard.getDashboardData Clocks.utc_morning (Some 2) w).1
    = Json 200 Dashboard.emptyData
  ∧ (Calendar.getCalendarData (Some 2) (Some "v@x.com") None None w).1
    = Json 200 Calendar.emptyData.
Proof.
  pose (w := Scenario.world_of Scenario.overdue Scenario.no_faults).
  assert (Hw : healthy w) by (intros n; reflexivity).
  assert (Hown : ∀ p, p ∈ projects (db w) → owner_id p ≠ 2).
  { intros p Hp. simpl in Hp.
    repeat (apply elem_of_cons in Hp as [->|Hp]; [done|]). by apply elem_of_nil in Hp. }
  assert (Hmem : ∀ m, m ∈ project_members (db w) → m_user_id m ≠ Some 2).
  { intros m Hm. by apply elem_of_nil in Hm. }
  destruct (no_projects_short_circuit Clocks.utc_morning w 2 "v@x.com" None None
              Hw ltac:(done) ltac:(done) Hown Hmem) as (Hdash & _ & Hcal & _).
  split; [exact Hw|]. split; [exact Hown|]. split; [exact Hdash | exact Hcal].
Defined.

#[local] Instance created_desc_total : Total Query.created_desc.
Proof. intros a b. unfold Query.created_desc. lia. Qed.

#[local] Instance created_desc_trans : Transitive Query.created_desc.
Proof. intros a b c. unfold Query.created_desc. lia. Qed.

(** What the recent-tasks query returns, and what it leaves out. *)
Lemma recent_tasks_spec V since s :
  let result := Query.recent_tasks V since s in
  (∀ t, t ∈ result → t ∈ tasks s ∧ t_project_uuid t ∈ V ∧ since ≤ t_created_at t)
  ∧ StronglySorted Query.created_desc result
  ∧ (length result ≤ 10)%nat
  ∧ (∀ t, t ∈ tasks s → t_project_uuid t ∈ V → since ≤ t_created_at t →
          t ∈ result
          ∨ length result = 10%nat ∧ ∀ r, r ∈ result → t_created_at t ≤ t_created_at r).
Proof.
  cbv zeta. unfold Query.recent_tasks.
  set (sorted := merge_sort _ _).
  assert (Hsorted : StronglySorted Query.created_desc (take 10 sorted ++ drop 10 sorted)).
  { rewrite take_drop. apply StronglySorted_merge_sort; apply _. }
  split_and!.
  - intros t Ht%subseteq_take. unfold sorted in Ht.
    rewrite merge_sort_Permutation in Ht.
    apply list_elem_of_filter in Ht as [Hsince Ht].
    by apply list_elem_of_filter in Ht as [HV Ht].
  - by apply StronglySorted_app_1_l in Hsorted.
  - rewrite length_take. lia.
  - intros t Ht HV Hsince.
    assert (Hin : t ∈ take 10 sorted ++ drop 10 sorted).
    { rewrite take_drop. unfold sorted. rewrite merge_sort_Permutation.
      apply list_elem_of_filter. split; [done|]. by apply list_elem_of_filter. }
    apply elem_of_app in Hin as [Hin|Hin]; [by left|]. right. split.
    + rewrite length_take. destruct (decide (length sorted ≤ 10)%nat) as [Hle|]; [|lia].
      rewrite drop_ge in Hin by done. by apply elem_of_nil in Hin.
    + intros r Hr. by apply (StronglySorted_app_1_elem_of _ _ _ r t Hsorted).
Qed.

(** Where the zone's offset does not change, moving the date by [n] days
    moves the instant by [n] times 24 hours. *)
Lemma setDate_steady zone clk n :
  Zone.steady zone clk n →
  Zone.setDate zone clk n = Clock.addDays (Clock.now_ms clk) n.
Proof.
  unfold Zone.steady, Zone.setDate, Zone.local_days_from_now, Clock.addDays.
  intros ->. lia.
Qed.

(** X3: on a server whose zone has no daylight-saving change within the
    seven days before the request, the dashboard's [recentTasks] are tasks of
    visible projects created at or after the instant [setDate(getDate() - 7)]
    gives, newest first and ten at most; a task of a visible project created
    at or after that instant is left out only when ten tasks are returned,
    none of them older than it. *)
Theorem recent_tasks_are_the_newest zone clk uid w :
  healthy w → uid ≠ 0 →
  Zone.steady zone clk (-7) →
  let V := visible (db w) uid in
  let since := Zone.setDate zone clk (-7) in
  ∃ d, (Dashboard.getDashboardData clk (Some uid) w).1 = Json 200 d
    ∧ (∀ f, f ∈ recentTasks d →
         f_project_uuid f ∈ V ∧ since ≤ f_created_at f
         ∧ ∃ t, t ∈ tasks (db w) ∧ task_id t = f_task_id f
                ∧ t_project_uuid t = f_project_uuid f
                ∧ t_created_at t = f_created_at f)
    ∧ StronglySorted (λ a b, f_created_at b ≤ f_created_at a) (recentTasks d)
    ∧ (length (recentTasks d) ≤ 10)%nat
    ∧ (∀ t, t ∈ tasks (db w) → t_project_uuid t ∈ V → since ≤ t_created_at t →
            (∃ f, f ∈ recentTasks d ∧ f_task_id f = task_id t)
            ∨ length (recentTasks d) = 10%nat
              ∧ ∀ f, f ∈ recentTasks d → t_created_at t ≤ f_created_at f).
Proof.
  intros Hw Huid Hzone. cbv zeta. eexists. split; [by apply dashboard_run|].
  unfold dashboard_data; simpl.
  rewrite (setDate_steady zone clk (-7) Hzone).
  destruct (recent_tasks_spec (visible (db w) uid)
              (Clock.addDays (Clock.now_ms clk) (-7)) (db w))
    as (Hin & Hsorted & Hlen & Hall).
  split_and!.
  - intros f (t & -> & Ht)%list_elem_of_fmap. apply Hin in Ht as (Ht & HV & Hnew).
    split; [exact HV|]. split; [exact Hnew|]. by exists t.
  - eapply (StronglySorted_fmap _ Query.created_desc); [|exact Hsorted]. by intros a b.
  - by rewrite length_fmap.
  - intros t Ht HV Hrecent. rewrite length_fmap.
    destruct (Hall t Ht HV Hrecent) as [Hreturned|[Hfull Holder]].
    + left. eexists. split; [by apply list_elem_of_fmap_2|]. done.
    + right. split; [done|]. intros f (r & -> & Hr)%list_elem_of_fmap. simpl. auto.
Qed.

Lemma recent_tasks_are_the_newest_witness :
  healthy Office.world
  ∧ Zone.steady (Zone.fixed 0) Clocks.utc_morning (-7)
  ∧ Zone.setDate (Zone.fixed 0) Clocks.utc_morning (-7)
    = (Clocks.nov2 - 7) * Clock.ms_per_day + 10 * 3600000
  ∧ ∃ d, (Dashboard.getDashboardData Clocks.utc_morning (Some 1) Office.world).1
         = Json 200 d
         ∧ f_task_id <$> recentTasks d = [4; 1; 3].
Proof.
  assert (Hw : healthy Office.world) by (intros n; reflexivity).
  assert (Hzone : Zone.steady (Zone.fixed 0) Clocks.utc_morning (-7)) by reflexivity.
  destruct (recent_tasks_are_the_newest (Zone.fixed 0) Clocks.utc_morning 1 Office.world
              Hw ltac:(done) Hzone)
    as (d & Hd & _).
  split; [exact Hw|]. split; [exact Hzone|]. split; [reflexivity|].
  exists d. split; [exact Hd|].
  rewrite dashboard_run in Hd by done. injection Hd as <-.
  vm_compute. reflexivity.
Defined.

(** The counting loop: every key is counted as often as it occurs. *)
Lemma bump_count (l : list string) (counts : gmap string nat) (k : string) :
  foldl Dashboard.bump counts l !! k
  = if decide (k ∈ l)
    then Some (default 0%nat (counts !! k) + length (filter (λ x, x = k) l))%nat
    else counts !! k.
Proof.
  revert counts. induction l as [|x l IH]; intros counts.
  - destruct (decide (k ∈ [])) as [[]%elem_of_nil|]. done.
  - cbn [foldl]. rewrite IH. unfold Dashboard.bump.
    destruct (decide (x = k)) as [->|Hx].
    + rewrite filter_cons_True by done. rewrite lookup_insert_eq.
      destruct (decide (k ∈ k :: l)) as [_|Hno]; [|destruct Hno; left].
      destruct (decide (k ∈ l)); cbn [default from_option id length]; f_equal; [lia|].
      rewrite filter_nothing_in; [simpl; lia|]. by intros y Hy ->.
    + rewrite filter_cons_False by done. rewrite lookup_insert_ne by done.
      destruct (decide (k ∈ l)) as [Hk|Hk], (decide (k ∈ x :: l)) as [Hk'|Hk'];
        try done.
      * destruct Hk'. by right.
      * apply elem_of_cons in Hk' as [?|?]; congruence.
Qed.

Lemma histogram_spec {A} (key : A → string) (l : list A) (k : string) (n : nat) :
  foldl Dashboard.bump ∅ (key <$> l) !! k = Some n
  ↔ n ≠ 0%nat ∧ n = length (filter (λ x, key x = k) l).
Proof.
  rewrite bump_count, lookup_empty. simpl.
  assert (Hlen : length (filter (λ x, x = k) (key <$> l))
                 = length (filter (λ x, key x = k) l)).
  { induction l as [|x l IH]; [done|]. csimpl. rewrite !filter_cons.
    destruct (decide (key x = k)); simpl; by rewrite IH. }
  rewrite Hlen. destruct (decide (k ∈ key <$> l)) as [Hk|Hk].
  - split; [|intros [_ ->]; done]. intros [= <-]. split; [|done].
    apply list_elem_of_fmap in Hk as (x & -> & Hx).
    assert (x ∈ filter (λ y, key y = key x) l) as Hin by (by apply list_elem_of_filter).
    destruct (filter _ l); [by apply elem_of_nil in Hin | done].
  - split; [done|]. intros [Hn ->]. destruct Hn.
    rewrite filter_nothing_in; [done|]. intros x Hx Hkey. apply Hk.
    rewrite <- Hkey. by apply list_elem_of_fmap_2.
Qed.

(** X4: in the dashboard's statistics, each status that occurs among the
    visible projects is a key of [projectsByStatus] with the number of
    visible projects in that status, and no other key is there; likewise
    [projectsByPriority] by priority, and [tasksByStatus] over all tasks of
    the visible projects. *)
Theorem stats_count_every_value clk uid w :
  healthy w → uid ≠ 0 →
  let V := visible (db w) uid in
  ∃ d, (Dashboard.getDashboardData clk (Some uid) w).1 = Json 200 d
    ∧ ∀ k n,
        (projectsByStatus (stats d) !! k = Some n
         ↔ n ≠ 0%nat
           ∧ n = length (filter (λ p, status p = k) (Query.projects_in V (db w))))
        ∧ (projectsByPriority (stats d) !! k = Some n
           ↔ n ≠ 0%nat
             ∧ n = length (filter (λ p, priority p = k) (Query.projects_in V (db w))))
        ∧ (tasksByStatus (stats d) !! k = Some n
           ↔ n ≠ 0%nat
             ∧ n = length (filter (λ t, t_status t = k) (Query.tasks_in V (db w)))).
Proof.
  intros Hw Huid. cbv zeta. eexists. split; [by apply dashboard_run|].
  intros k n. unfold dashboard_data; simpl. split_and!; apply histogram_spec.
Qed.

Lemma stats_count_every_value_witness :
  healthy Office.world
  ∧ ∃ d, (Dashboard.getDashboardData Clocks.utc_morning (Some 1) Office.world).1
         = Json 200 d
         ∧ tasksByStatus (stats d) !! "On track" = Some 2%nat
         ∧ tasksByStatus (stats d) !! "Off track" = None.
Proof.
  assert (Hw : healthy Office.world) by (intros n; reflexivity).
  destruct (stats_count_every_value Clocks.utc_morning 1 Office.world Hw ltac:(done))
    as (d & Hd & Hcount).
  split; [exact Hw|]. exists d. split; [exact Hd|]. split.
  - apply Hcount. split; [done|]. vm_compute. reflexivity.
  - destruct (tasksByStatus (stats d) !! "Off track") as [n|] eqn:Hn; [|done].
    apply Hcount in Hn as [Hpos Hn]. vm_compute in Hn. by subst n.
Defined.

(** * The dashboard's project summaries *)

Lemma projectsMap_snoc l x k :
  Dashboard.projectsMap (l ++ [x]) !! k
  = if decide (project_uuid x = k) then Some (Dashboard.summary x)
    else Dashboard.projectsMap l !! k.
Proof.
  unfold Dashboard.projectsMap. rewrite foldl_snoc.
  destruct (decide (project_uuid x = k)) as [<-|Hk].
  - by rewrite lookup_insert_eq.
  - by rewrite lookup_insert_ne.
Qed.

Lemma projectsMap_lookup l p :
  NoDup (project_uuid <$> l) → p ∈ l →
  Dashboard.projectsMap l !! project_uuid p = Some (Dashboard.summary p).
Proof.
  induction l as [|x l IH] using rev_ind; intros Hnd Hp.
  - by apply elem_of_nil in Hp.
  - rewrite projectsMap_snoc. rewrite fmap_app in Hnd.
    apply NoDup_app in Hnd as (Hl & Hfresh & _).
    apply elem_of_app in Hp as [Hp|Hp].
    + destruct (decide (project_uuid x = project_uuid p)) as [Heq|_]; [|by apply IH].
      destruct (Hfresh (project_uuid p)).
      * by apply list_elem_of_fmap_2.
      * rewrite <- Heq. simpl. left.
    + apply list_elem_of_singleton in Hp as ->. by rewrite decide_True.
Qed.

Lemma projects_in_unique V s :
  uuids_unique s → NoDup (project_uuid <$> Query.projects_in V s).
Proof.
  intros Hu. eapply sublist_NoDup; [exact Hu|].
  apply fmap_sublist, sublist_filter.
Qed.

(** X5: every task the dashboard lists, recent or upcoming, is a task of the
    store in a project of the caller's visibility set, and it carries the id
    and the summary of exactly that project. *)
Theorem dashboard_tasks_carry_their_project clk uid w :
  healthy w → uid ≠ 0 →
  uuids_unique (db w) → tasks_reference_projects (db w) →
  ∃ d, (Dashboard.getDashboardData clk (Some uid) w).1 = Json 200 d
    ∧ ∀ f, f ∈ recentTasks d ++ upcomingDeadlines d →
        ∃ t p, t ∈ tasks (db w) ∧ p ∈ projects (db w)
          ∧ f_task_id f = task_id t
          ∧ project_uuid p = t_project_uuid t
          ∧ project_uuid p ∈ visible (db w) uid
          ∧ f_project_uuid f = project_uuid p
          ∧ f_project_id f = Some (project_id p)
          ∧ f_project f = Some (Dashboard.summary p).
Proof.
  intros Hw Huid Hu Hfk. eexists. split; [by apply dashboard_run|].
  unfold dashboard_data; simpl. set (V := visible (db w) uid).
  assert (Hone : ∀ t, t ∈ tasks (db w) → t_project_uuid t ∈ V →
            ∃ p, p ∈ projects (db w) ∧ project_uuid p = t_project_uuid t
              ∧ Dashboard.projectsMap (Query.projects_in V (db w)) !! t_project_uuid t
                = Some (Dashboard.summary p)).
  { intros t Ht HV. unfold tasks_reference_projects in Hfk.
    rewrite Forall_forall in Hfk. apply Hfk, Exists_exists in Ht as (p & Hp & Hpu).
    exists p. split; [done|]. split; [done|]. rewrite <- Hpu.
    apply projectsMap_lookup; [by apply projects_in_unique|].
    apply list_elem_of_filter. split; [|done]. by rewrite Hpu. }
  assert (Hraw : ∀ t, t ∈ Query.recent_tasks V (Clock.addDays (Clock.now_ms clk) (-7)) (db w)
                      ∨ t ∈ Query.upcoming_tasks V (Dashboard.window_lo clk)
                              (Dashboard.window_hi clk) (db w) →
                      t ∈ tasks (db w) ∧ t_project_uuid t ∈ V).
  { intros t [Ht|Ht].
    - apply recent_tasks_spec in Ht as (? & ? & _). done.
    - apply upcoming_tasks_spec in Ht as (? & ? & _). done. }
  intros f Hf.
  assert (∃ t, f = Dashboard.format (Dashboard.projectsMap (Query.projects_in V (db w))) t
               ∧ t ∈ tasks (db w) ∧ t_project_uuid t ∈ V) as (t & -> & Ht & HV).
  { apply elem_of_app in Hf as [Hf|Hf];
      apply list_elem_of_fmap in Hf as (t & -> & Ht); exists t; (split; [done|]);
      apply Hraw; [by left|by right]. }
  destruct (Hone t Ht HV) as (p & Hp & Hpu & Hlook).
  exists t, p. unfold Dashboard.format; simpl. rewrite Hlook, Hpu. done.
Qed.

Lemma dashboard_tasks_carry_their_project_witness :
  healthy Office.world ∧ uuids_unique (db Office.world)
  ∧ tasks_reference_projects (db Office.world)
  ∧ ∃ d, (Dashboard.getDashboardData Clocks.utc_morning (Some 1) Office.world).1
         = Json 200 d
         ∧ f_project_id <$> recentTasks d = [Some 2; Some 1; Some 2]
         ∧ f_project_uuid <$> upcomingDeadlines d = ["p1"].
Proof.
  assert (Hw : healthy Office.world) by (intros n; reflexivity).
  assert (Hu : uuids_unique (db Office.world)) by (by apply (bool_decide_unpack _)).
  assert (Hfk : tasks_reference_projects (db Office.world))
    by (by apply (bool_decide_unpack _)).
  destruct (dashboard_tasks_carry_their_project Clocks.utc_morning 1 Office.world
              Hw ltac:(done) Hu Hfk) as (d & Hd & _).
  split_and!; [exact Hw|exact Hu|exact Hfk|]. exists d. split; [exact Hd|].
  rewrite dashboard_run in Hd by done. injection Hd as <-.
  vm_compute. split; reflexivity.
Defined.

(** * Counting the visible projects *)

Lemma visible_NoDup s uid : NoDup (visible s uid).
Proof. apply NoDup_set_of. Qed.

Lemma visible_projects_length s uid :
  uuids_unique s → members_reference_projects s →
  length (Query.projects_in (visible s uid) s) = length (visible s uid).
Proof.
  intros Hu Hfk.
  rewrite <- (length_fmap project_uuid (Query.projects_in _ _)).
  apply NoDup_same_length; [by apply projects_in_unique|apply visible_NoDup|].
  intros x. split.
  - intros (p & -> & Hp)%list_elem_of_fmap. by apply list_elem_of_filter in Hp as [? _].
  - intros Hx. destruct (proj1 (dashboard_uuids_spec _ _ _) Hx)
      as [(p & Hp & _ & Hpu)|(m & Hm & _ & Hmu)].
    + apply list_elem_of_fmap. exists p. split; [done|].
      apply list_elem_of_filter. split; [|done]. by rewrite Hpu.
    + unfold members_reference_projects in Hfk. rewrite Forall_forall in Hfk.
      apply Hfk, Exists_exists in Hm as (p & Hp & Hpu).
      apply list_elem_of_fmap. exists p. split; [congruence|].
      apply list_elem_of_filter. split; [|done]. by rewrite Hpu, Hmu.
Qed.

(** X6: with one project per UUID and member rows that reference projects of
    the store, [totalProjects] is the size of the caller's visibility set,
    the duplicate-free list of the UUIDs the caller owns or is a member of by
    user id; [completedProjects] never exceeds it. *)
Theorem total_projects_counts_the_visibility_set clk uid w :
  healthy w → uid ≠ 0 →
  uuids_unique (db w) → members_reference_projects (db w) →
  ∃ d, (Dashboard.getDashboardData clk (Some uid) w).1 = Json 200 d
    ∧ totalProjects d = length (visible (db w) uid)
    ∧ NoDup (visible (db w) uid)
    ∧ (∀ x, x ∈ visible (db w) uid ↔ owns (db w) uid x ∨ member_of (db w) uid x)
    ∧ (completedProjects d ≤ totalProjects d)%nat.
Proof.
  intros Hw Huid Hu Hfk. eexists. split; [by apply dashboard_run|].
  unfold dashboard_data; simpl. split_and!.
  - by apply visible_projects_length.
  - apply visible_NoDup.
  - apply dashboard_uuids_spec.
  - apply length_filter.
Qed.

Lemma total_projects_counts_the_visibility_set_witness :
  healthy Office.world ∧ uuids_unique (db Office.world)
  ∧ members_reference_projects (db Office.world)
  ∧ ∃ d, (Dashboard.getDashboardData Clocks.utc_morning (Some 1) Office.world).1
         = Json 200 d
         ∧ totalProjects d = 2%nat ∧ completedProjects d = 1%nat.
Proof.
  assert (Hw : healthy Office.world) by (intros n; reflexivity).
  assert (Hu : uuids_unique (db Office.world)) by (by apply (bool_decide_unpack _)).
  assert (Hfk : members_reference_projects (db Office.world))
    by (by apply (bool_decide_unpack _)).
  destruct (total_projects_counts_the_visibility_set Clocks.utc_morning 1 Office.world
              Hw ltac:(done) Hu Hfk) as (d & Hd & _).
  split_and!; [exact Hw|exact Hu|exact Hfk|]. exists d. split; [exact Hd|].
  rewrite dashboard_run in Hd by done. injection Hd as <-.
  vm_compute. split; reflexivity.
Defined.

(** * The dashboard when the store refuses a read *)

Lemma select_answered {A} table (q : Store → A) w :
  faults w (calls w) = false →
  select table q w = (Data (q (db w)), tick (Select table) (db w) w).
Proof. intros Hf. unfold select, call. by rewrite Hf. Qed.

Lemma select_refused {A} table (q : Store → A) w :
  faults w (calls w) = true →
  select table q w = (Error, tick (Select table) (db w) w).
Proof. intros Hf. unfold select, call. by rewrite Hf. Qed.

(** X7: the four reads every non-empty dashboard needs are mandatory: when
    the store refuses one of them, the answer is 500 with the message of
    that read (one message for the two reads of the visibility set, which
    are issued together), and no read after it is issued. *)
Theorem dashboard_refused_read_is_a_500 clk uid w k :
  uid ≠ 0 → (k < 4)%nat →
  (∀ n, (n < k)%nat → faults w (calls w + n) = false) →
  faults w (calls w + k) = true →
  ((2 ≤ k)%nat → visible (db w) uid ≠ []) →
  let run := Dashboard.getDashboardData clk (Some uid) w in
  run.1 = Fail 500 (match k with
                    | 0%nat | 1%nat => "Failed to fetch user projects"
                    | 2%nat => "Failed to fetch projects"
                    | _ => "Failed to fetch team members"
                    end)
  ∧ issued w run.2
    = take (max 2 (S k)) [Select "projects"; Select "project_members";
                          Select "projects"; Select "project_members"].
Proof.
  intros Huid Hk Hbefore Hat HV. cbv zeta.
  unfold Dashboard.getDashboardData, Dashboard.allProjectUuids.
  assert (JS.truthy_num uid = true) as -> by (by apply truthy_num_true).
  cbn [negb]. cbv iota.
  destruct k as [|[|[|[|k]]]]; [| | | |lia].
  - rewrite Nat.add_0_r in Hat.
    unfold mbind, mret, M_bind, M_ret. rewrite select_refused by done.
    destruct (faults w (S (calls w))) eqn:H1;
      [rewrite select_refused by done|rewrite select_answered by done];
      simpl; (split; [done|by issued_norm]).
  - pose proof (Hbefore 0%nat ltac:(lia)) as H0. rewrite Nat.add_0_r in H0.
    replace (calls w + 1)%nat with (S (calls w)) in Hat by lia.
    unfold mbind, mret, M_bind, M_ret. rewrite select_answered by done.
    rewrite select_refused by done. simpl. split; [done|by issued_norm].
  - pose proof (Hbefore 0%nat ltac:(lia)) as H0. rewrite Nat.add_0_r in H0.
    pose proof (Hbefore 1%nat ltac:(lia)) as H1.
    replace (calls w + 1)%nat with (S (calls w)) in H1 by lia.
    replace (calls w + 2)%nat with (S (S (calls w))) in Hat by lia.
    unfold mbind, mret, M_bind, M_ret. rewrite select_answered by done.
    rewrite select_answered by done. simpl. fold (visible (db w) uid).
    rewrite decide_False by (apply HV; lia).
    rewrite select_refused by done. simpl. split; [done|by issued_norm].
  - pose proof (Hbefore 0%nat ltac:(lia)) as H0. rewrite Nat.add_0_r in H0.
    pose proof (Hbefore 1%nat ltac:(lia)) as H1.
    pose proof (Hbefore 2%nat ltac:(lia)) as H2.
    replace (calls w + 1)%nat with (S (calls w)) in H1 by lia.
    replace (calls w + 2)%nat with (S (S (calls w))) in H2 by lia.
    replace (calls w + 3)%nat with (S (S (S (calls w)))) in Hat by lia.
    unfold mbind, mret, M_bind, M_ret. rewrite select_answered by done.
    rewrite select_answered by done. simpl. fold (visible (db w) uid).
    rewrite decide_False by (apply HV; lia).
    rewrite select_answered by done. rewrite select_refused by done. simpl.
    split; [done|by issued_norm].
Qed.

Lemma dashboard_refused_read_is_a_500_witness :
  let w := Scenario.world_of Office.store (fault_at 3) in
  (Dashboard.getDashboardData Clocks.utc_morning (Some 1) w).1
  = Fail 500 "Failed to fetch team members"
  ∧ length (issued w (Dashboard.getDashboardData Clocks.utc_morning (Some 1) w).2)
    = 4%nat.
Proof.
  pose (w := Scenario.world_of Office.store (fault_at 3)).
  assert (Hbefore : ∀ n, (n < 3)%nat → faults w (calls w + n) = false).
  { intros [|[|[|n]]] Hn; [reflexivity..|lia]. }
  destruct (dashboard_refused_read_is_a_500 Clocks.utc_morning 1 w 3
              ltac:(done) ltac:(lia) Hbefore ltac:(reflexivity) ltac:(done))
    as [Hfail Hissued].
  split; [exact Hfail|exact (f_equal length Hissued)].
Defined.

Lemma filter_everything {A} (P : A → Prop) `{!∀ x, Decision (P x)} (l : list A) :
  (∀ x, x ∈ l → P x) → filter P l = l.
Proof.
  induction l as [|x l IH]; intros HP; [done|].
  rewrite filter_cons_True by (apply HP; left).
  f_equal. apply IH. intros y Hy. apply HP. by right.
Qed.

(** X8: the lookup of the users behind the invited emails and the read of
    all tasks for the histogram are optional: when the store refuses just
    these two, the dashboard still answers 200; every invited email is then
    counted as a person of its own next to the owners and members known by
    id, the task histogram is empty, and the rest of the summary is what it
    is on a store that answers every read. *)
Theorem dashboard_optional_reads_may_fail clk uid w :
  uid ≠ 0 →
  (∀ n, faults w n = true ↔ n = (calls w + 4)%nat ∨ n = (calls w + 7)%nat) →
  let V := visible (db w) uid in
  let allProjects := Query.projects_in V (db w) in
  let sets := Dashboard.collect allProjects (Query.members_in V (db w)) in
  sets.2 ≠ [] →
  ∃ d, (Dashboard.getDashboardData clk (Some uid) w).1 = Json 200 d
    ∧ totalTeamMembers d = (length sets.1 + length sets.2)%nat
    ∧ tasksByStatus (stats d) = ∅
    ∧ totalProjects d = totalProjects (dashboard_data clk (db w) uid)
    ∧ completedProjects d = completedProjects (dashboard_data clk (db w) uid)
    ∧ recentTasks d = recentTasks (dashboard_data clk (db w) uid)
    ∧ upcomingDeadlines d = upcomingDeadlines (dashboard_data clk (db w) uid)
    ∧ projectsByStatus (stats d) = projectsByStatus (stats (dashboard_data clk (db w) uid))
    ∧ projectsByPriority (stats d)
      = projectsByPriority (stats (dashboard_data clk (db w) uid)).
Proof.
  intros Huid Hfaults V allProjects sets Hemails.
  assert (Hok : ∀ n, n ≠ (calls w + 4)%nat → n ≠ (calls w + 7)%nat → faults w n = false).
  { intros n H4 H7. destruct (faults w n) eqn:Hn; [|done].
    apply Hfaults in Hn as [?|?]; done. }
  assert (H4 : faults w (S (S (S (S (calls w))))) = true).
  { apply Hfaults. left. lia. }
  assert (H7 : faults w (S (S (S (S (S (S (S (calls w)))))))) = true).
  { apply Hfaults. right. lia. }
  assert (HV : V ≠ []).
  { intros HV. apply Hemails. unfold sets, allProjects.
    by rewrite HV, projects_in_nil, members_in_nil. }
  unfold Dashboard.getDashboardData, Dashboard.allProjectUuids, Dashboard.teamSets.
  assert (JS.truthy_num uid = true) as -> by (by apply truthy_num_true).
  cbn [negb]. cbv iota. unfold mbind, mret, M_bind, M_ret.
  rewrite select_answered by (apply Hok; lia).
  rewrite select_answered by (apply Hok; simpl; lia).
  simpl. fold (visible (db w) uid). fold V. rewrite decide_False by done.
  rewrite select_answered by (apply Hok; simpl; lia).
  rewrite select_answered by (apply Hok; simpl; lia).
  simpl. fold allProjects. fold sets.
  destruct sets as [ids emails] eqn:Hsets. simpl in Hemails.
  rewrite decide_False by done.
  rewrite select_refused by done. simpl.
  rewrite select_answered by (apply Hok; simpl; lia).
  rewrite select_answered by (apply Hok; simpl; lia).
  rewrite select_refused by done. simpl.
  eexists. split; [reflexivity|]. simpl.
  rewrite (filter_everything (λ e, e ∉ JS.set_of [])) by (intros e _; apply not_elem_of_nil).
  split_and!; reflexivity.
Qed.

Lemma dashboard_optional_reads_may_fail_witness :
  let w := Scenario.world_of Office.store (λ n, bool_decide (n = 4%nat ∨ n = 7%nat)) in
  (Dashboard.collect (Query.projects_in (visible (db w) 1) (db w))
     (Query.members_in (visible (db w) 1) (db w))).2 ≠ []
  ∧ ∃ d, (Dashboard.getDashboardData Clocks.utc_morning (Some 1) w).1 = Json 200 d
         ∧ totalTeamMembers d = 6%nat
         ∧ totalTeamMembers (dashboard_data Clocks.utc_morning (db w) 1) = 4%nat.
Proof.
  intros w.
  assert (Hfaults : ∀ n, faults w n = true
                         ↔ n = (calls w + 4)%nat ∨ n = (calls w + 7)%nat).
  { intros n. simpl. apply bool_decide_eq_true. }
  assert (Hemails : (Dashboard.collect (Query.projects_in (visible (db w) 1) (db w))
                       (Query.members_in (visible (db w) 1) (db w))).2 ≠ []) by done.
  destruct (dashboard_optional_reads_may_fail Clocks.utc_morning 1 w
              ltac:(done) Hfaults Hemails) as (d & Hd & Hteam & _).
  split; [exact Hemails|]. exists d. split; [exact Hd|]. split; [exact Hteam|].
  vm_compute. reflexivity.
Defined.

(** * More on the calendar *)

Lemma calendar_run w uid mail sd ed :
  healthy w → uid ≠ 0 → mail ≠ "" →
  (Calendar.getCalendarData (Some uid) (Some mail) sd ed w).1
  = Json 200 (calendar_data (db w) uid (Calendar.range sd ed)).
Proof.
  intros Hw Huid Hmail. unfold Calendar.getCalendarData, calendar_data.
  assert (JS.truthy_num uid = true) as -> by (by apply truthy_num_true).
  assert (JS.truthy_str mail = true) as -> by (by apply truthy_str_true).
  simpl. unfold Calendar.fetchProjects. run_healthy.
  case_decide as HV; [done|]. by run_healthy.
Qed.

Lemma uniqueProjects_merged l :
  merged cp_uuid cp_isOwner (Calendar.uniqueProjects l) l.
Proof. exact (merged_foldl cp_uuid cp_isOwner l [] [] (merged_nil _ _)). Qed.

Lemma uniqueTasks_merged l :
  merged ct_id ct_isAssigned (Calendar.uniqueTasks l) l.
Proof. exact (merged_foldl ct_id ct_isAssigned l [] [] (merged_nil _ _)). Qed.

(** The merged list has the keys of the list that went in. *)
Lemma merged_same_keys {A K} (key : A → K) (wins : A → bool) acc seen k :
  merged key wins acc seen → k ∈ key <$> acc ↔ k ∈ key <$> seen.
Proof.
  intros [_ Hsub Hkeys _]. split.
  - intros (x & -> & Hx)%list_elem_of_fmap. apply list_elem_of_fmap_2. auto.
  - intros (y & -> & Hy)%list_elem_of_fmap. auto.
Qed.

(** An element that wins is in the merged list under its key. *)
Lemma merged_winner {A K} `{EqDecision K} (key : A → K) (wins : A → bool) acc seen y :
  merged key wins acc seen → y ∈ seen → wins y = true →
  ∃ e, e ∈ acc ∧ key e = key y ∧ wins e = true.
Proof.
  intros [_ _ Hkeys Hwins] Hy Hwin.
  destruct (proj1 (list_elem_of_fmap _ _ _) (Hkeys y Hy)) as (e & Hk & He).
  exists e. split; [done|]. split; [done|].
  destruct (wins e) eqn:Hlose; [done|].
  rewrite (Hwins e He Hlose y Hy) in Hwin; congruence.
Qed.

Lemma elem_of_formattedProjects owned member cp :
  cp ∈ Calendar.formattedProjects owned member
  ↔ (cp_isOwner cp = true ∧ cp_role cp = "owner" ∧ cp_project cp ∈ owned)
    ∨ (cp_isOwner cp = false
       ∧ ∃ m, m ∈ member ∧ mp_projects m = Some (cp_project cp) ∧ mp_role m = cp_role cp).
Proof.
  unfold Calendar.formattedProjects. rewrite elem_of_app. split.
  - intros [(p & -> & Hp)%list_elem_of_fmap|(m & Hm & Hcp)%list_elem_of_omap].
    + by left.
    + right. destruct (mp_projects m) as [p|] eqn:Hp; simplify_eq/=. eauto.
  - intros [(Hown & Hrole & Hp)|(Hown & m & Hm & Hp & Hrole)].
    + left. apply list_elem_of_fmap. exists (cp_project cp). split; [|done].
      destruct cp; simplify_eq/=. done.
    + right. apply list_elem_of_omap. exists m. split; [done|].
      rewrite Hp. destruct cp; simplify_eq/=. done.
Qed.

Lemma formattedProjects_keys owned member x :
  x ∈ cp_uuid <$> Calendar.formattedProjects owned member
  ↔ x ∈ Calendar.allProjectUuids owned member.
Proof.
  unfold Calendar.allProjectUuids. rewrite elem_of_set_of, elem_of_app. split.
  - intros (cp & -> & Hcp)%list_elem_of_fmap.
    apply elem_of_formattedProjects in Hcp as [(_ & _ & Hp)|(_ & m & Hm & Hp & _)].
    + left. by apply (list_elem_of_fmap_2 project_uuid).
    + right. apply list_elem_of_omap. exists m. split; [done|]. by rewrite Hp.
  - intros [(p & -> & Hp)%list_elem_of_fmap|(m & Hm & Hx)%list_elem_of_omap].
    + apply list_elem_of_fmap.
      exists {| cp_project := p; cp_role := "owner"; cp_isOwner := true |}.
      split; [done|]. apply elem_of_formattedProjects. by left.
    + destruct (mp_projects m) as [p|] eqn:Hp; simplify_eq/=.
      apply list_elem_of_fmap.
      exists {| cp_project := p; cp_role := mp_role m; cp_isOwner := false |}.
      split; [done|]. apply elem_of_formattedProjects. right. eauto.
Qed.

(** What the two project reads of the calendar return. *)
Lemma elem_of_calendar_owned uid r s p :
  p ∈ Calendar.ownedProjectsQuery uid r s
  ↔ p ∈ projects s ∧ owner_id p = uid ∧ Calendar.overlaps r p.
Proof.
  unfold Calendar.ownedProjectsQuery, Query.owned_projects.
  rewrite !list_elem_of_filter. tauto.
Qed.

Lemma elem_of_calendar_member uid s mp p :
  mp ∈ Calendar.memberProjectsQuery uid s → mp_projects mp = Some p →
  p ∈ projects s
  ∧ ∃ m, m ∈ project_members s ∧ m_user_id m = Some uid
         ∧ m_project_uuid m = project_uuid p ∧ role m = mp_role mp.
Proof.
  intros (m & -> & Hm)%list_elem_of_fmap Hp. simpl in Hp.
  apply list_elem_of_filter in Hm as [Huser Hm].
  destruct (list_find _ _) as [[i q]|] eqn:Hfind; simplify_eq/=.
  apply list_find_Some in Hfind as (Hi & Hq & _).
  split; [by eapply list_elem_of_lookup_2|]. exists m. done.
Qed.

Lemma calendar_projects_keys s uid r x :
  Calendar.allProjectUuids (Calendar.ownedProjectsQuery uid r s)
    (Calendar.memberProjectsQuery uid s) ≠ [] →
  x ∈ cp_uuid <$> cal_projects (calendar_data s uid r)
  ↔ x ∈ Calendar.allProjectUuids (Calendar.ownedProjectsQuery uid r s)
          (Calendar.memberProjectsQuery uid s).
Proof.
  intros HV. unfold calendar_data. rewrite decide_False by done. simpl.
  rewrite (merged_same_keys _ _ _ _ _ (uniqueProjects_merged _)).
  apply formattedProjects_keys.
Qed.

(** X9: the projects of the calendar are the caller's.  An entry marked as
    owned is a project of the store that the caller owns and that overlaps
    the requested range, under the role [owner]; any other entry is a project
    joined through a member row of the caller and carries that row's role.
    Conversely every owned project that overlaps the range has an owned
    entry, and every project the caller is a member of has an entry
    whatever its dates: the range is not applied to member projects. *)
Theorem calendar_projects_are_the_callers w uid mail sd ed :
  healthy w → uid ≠ 0 → mail ≠ "" →
  members_reference_projects (db w) →
  let r := Calendar.range sd ed in
  ∃ d, (Calendar.getCalendarData (Some uid) (Some mail) sd ed w).1 = Json 200 d
    ∧ (∀ cp, cp ∈ cal_projects d →
         cp_project cp ∈ projects (db w)
         ∧ if cp_isOwner cp
           then owner_id (cp_project cp) = uid ∧ cp_role cp = "owner"
                ∧ Calendar.overlaps r (cp_project cp)
           else ∃ m, m ∈ project_members (db w) ∧ m_user_id m = Some uid
                     ∧ m_project_uuid m = cp_uuid cp ∧ role m = cp_role cp)
    ∧ (∀ p, p ∈ projects (db w) → owner_id p = uid → Calendar.overlaps r p →
         ∃ cp, cp ∈ cal_projects d ∧ cp_uuid cp = project_uuid p
               ∧ cp_isOwner cp = true)
    ∧ (∀ m, m ∈ project_members (db w) → m_user_id m = Some uid →
         ∃ cp, cp ∈ cal_projects d ∧ cp_uuid cp = m_project_uuid m).
Proof.
  intros Hw Huid Hmail Hfk r. eexists. split; [by apply calendar_run|]. fold r.
  set (owned := Calendar.ownedProjectsQuery uid r (db w)).
  set (member := Calendar.memberProjectsQuery uid (db w)).
  pose proof (calendar_uuids_spec (db w) uid r) as HVspec.
  pose proof (calendar_projects_keys (db w) uid r) as Hkeys.
  unfold calendar_data in *. fold owned member in HVspec, Hkeys |- *.
  destruct (decide (Calendar.allProjectUuids owned member = [])) as [HV|HV].
  - split_and!.
    + intros cp []%elem_of_nil.
    + intros p Hp Howner Hover. exfalso. apply (not_elem_of_nil (project_uuid p)).
      rewrite <- HV. apply HVspec; [done|]. left. by exists p.
    + intros m Hm Huser. exfalso. apply (not_elem_of_nil (m_project_uuid m)).
      rewrite <- HV. apply HVspec; [done|]. right. by exists m.
  - simpl in *. pose proof (uniqueProjects_merged (Calendar.formattedProjects owned member))
      as Hmerged.
    split_and!.
    + intros cp Hcp. apply (merged_sub _ _ _ _ Hmerged) in Hcp.
      apply elem_of_formattedProjects in Hcp
        as [(-> & Hrole & Hp)|(-> & mp & Hmp & Hp & Hrole)].
      * apply elem_of_calendar_owned in Hp as (? & ? & ?). done.
      * destruct (elem_of_calendar_member _ _ _ _ Hmp Hp) as (? & m & ? & ? & ? & ?).
        split; [done|]. exists m. unfold cp_uuid. split_and!; congruence.
    + intros p Hp Howner Hover.
      apply (merged_winner _ _ _ _
               {| cp_project := p; cp_role := "owner"; cp_isOwner := true |} Hmerged);
        [|done].
      apply elem_of_formattedProjects. left. split_and!; [done..|].
      by apply elem_of_calendar_owned.
    + intros m Hm Huser.
      assert (Hin : m_project_uuid m
                    ∈ cp_uuid <$> Calendar.uniqueProjects
                                    (Calendar.formattedProjects owned member)).
      { apply Hkeys; [done|]. apply HVspec; [done|]. right. by exists m. }
      apply list_elem_of_fmap in Hin as (cp & Hk & Hcp). by exists cp.
Qed.

Lemma calendar_projects_are_the_callers_witness :
  let w := Office.world in
  healthy w ∧ members_reference_projects (db w)
  ∧ ∃ d, (Calendar.getCalendarData (Some 1) (Some "u@x.com") (Some 20790) (Some 20799) w).1
         = Json 200 d
         ∧ (λ cp, (cp_uuid cp, cp_role cp)) <$> cal_projects d
           = [("p1", "owner"); ("p2", "viewer")].
Proof.
  intros w.
  assert (Hw : healthy w) by (intros n; reflexivity).
  assert (Hfk : members_reference_projects (db w)) by (by apply (bool_decide_unpack _)).
  destruct (calendar_projects_are_the_callers w 1 "u@x.com" (Some 20790) (Some 20799)
              Hw ltac:(done) ltac:(done) Hfk) as (d & Hd & _).
  split; [exact Hw|]. split; [exact Hfk|]. exists d. split; [exact Hd|].
  rewrite calendar_run in Hd by done. injection Hd as <-.
  vm_compute. reflexivity.
Defined.

(** * The calendar's tasks *)

Lemma unique_by_key {A K} (key : A → K) (l : list A) x y :
  NoDup (key <$> l) → x ∈ l → y ∈ l → key x = key y → x = y.
Proof.
  intros Hnd (i & Hi)%list_elem_of_lookup (j & Hj)%list_elem_of_lookup Hk.
  assert (i = j) as -> by (by eapply (key_index key)). congruence.
Qed.

Lemma elem_of_assignedTasksQuery uid s a' t :
  a' ∈ Calendar.assignedTasksQuery uid s → at_tasks a' = Some t →
  t ∈ tasks s
  ∧ ∃ a, a ∈ task_assignments s ∧ a_user_id a = uid
         ∧ a_task_id a = task_id t ∧ at_assigned_at a' = assigned_at a.
Proof.
  intros (a & -> & Ha)%list_elem_of_fmap Ht. simpl in Ht.
  apply list_elem_of_filter in Ha as [Huser Ha].
  destruct (list_find _ _) as [[i q]|] eqn:Hfind; simplify_eq/=.
  apply list_find_Some in Hfind as (Hi & Hq & _).
  split; [by eapply list_elem_of_lookup_2|]. exists a. done.
Qed.

Lemma embed_task_found s a t :
  task_ids_unique s → t ∈ tasks s → task_id t = a_task_id a →
  at_tasks (Calendar.embed_task s a) = Some t.
Proof.
  intros Hnd Ht Hid. simpl.
  destruct (list_find _ _) as [[i q]|] eqn:Hfind; simpl.
  - apply list_find_Some in Hfind as (Hi & Hq & _). f_equal.
    apply (unique_by_key task_id (tasks s)); [done| |done|congruence].
    by eapply list_elem_of_lookup_2.
  - apply list_find_None in Hfind. rewrite Forall_forall in Hfind.
    by destruct (Hfind t Ht).
Qed.

Lemma elem_of_formattedAssignedTasks pm assigned ct :
  ct ∈ Calendar.formattedAssignedTasks pm assigned
  ↔ ∃ a, a ∈ assigned ∧ at_tasks a = Some (ct_task ct)
         ∧ ct_isAssigned ct = true ∧ ct_assigned_at ct = Some (at_assigned_at a)
         ∧ ct_name ct = title (ct_task ct)
         ∧ ct_projects ct = pm !! t_project_uuid (ct_task ct).
Proof.
  unfold Calendar.formattedAssignedTasks. rewrite list_elem_of_omap. split.
  - intros (a & Ha & Hct). exists a.
    destruct (at_tasks a) as [t|]; simplify_eq/=. done.
  - intros (a & Ha & Ht & ? & ? & ? & ?). exists a. split; [done|].
    rewrite Ht. destruct ct; simplify_eq/=. done.
Qed.

Lemma elem_of_formattedProjectTasks pm projectTasks ct :
  ct ∈ Calendar.formattedProjectTasks pm projectTasks
  ↔ ct_task ct ∈ projectTasks
    ∧ ct_isAssigned ct = false ∧ ct_assigned_at ct = None
    ∧ ct_name ct = title (ct_task ct)
    ∧ ct_projects ct = pm !! t_project_uuid (ct_task ct).
Proof.
  unfold Calendar.formattedProjectTasks. rewrite list_elem_of_fmap. split.
  - intros (t & -> & Ht). done.
  - intros (Ht & ? & ? & ? & ?). exists (ct_task ct). split; [|done].
    destruct ct; simplify_eq/=. done.
Qed.

(** X10: the tasks of the calendar.  Every entry is a task of the store in
    one of the returned projects; an entry marked as assigned goes back to
    an assignment row of the caller and carries its [assigned_at], any other
    entry has its due date within the requested range.  Conversely a task of
    a returned project that is due within the range is returned, and so is
    a task of a returned project that is assigned to the caller, whatever
    its due date: the range is not applied to assigned tasks. *)
Theorem calendar_tasks_are_the_callers w uid mail sd ed :
  healthy w → uid ≠ 0 → mail ≠ "" →
  task_ids_unique (db w) →
  let r := Calendar.range sd ed in
  ∃ d, (Calendar.getCalendarData (Some uid) (Some mail) sd ed w).1 = Json 200 d
    ∧ (∀ ct, ct ∈ cal_tasks d →
         ct_task ct ∈ tasks (db w)
         ∧ t_project_uuid (ct_task ct) ∈ cp_uuid <$> cal_projects d
         ∧ if ct_isAssigned ct
           then ∃ a, a ∈ task_assignments (db w) ∧ a_user_id a = uid
                     ∧ a_task_id a = ct_id ct
                     ∧ ct_assigned_at ct = Some (assigned_at a)
           else Calendar.due_within r (ct_task ct) ∧ ct_assigned_at ct = None)
    ∧ (∀ t, t ∈ tasks (db w) → t_project_uuid t ∈ cp_uuid <$> cal_projects d →
         Calendar.due_within r t →
         ∃ ct, ct ∈ cal_tasks d ∧ ct_id ct = task_id t)
    ∧ (∀ a t, a ∈ task_assignments (db w) → a_user_id a = uid →
         t ∈ tasks (db w) → task_id t = a_task_id a →
         t_project_uuid t ∈ cp_uuid <$> cal_projects d →
         ∃ ct, ct ∈ cal_tasks d ∧ ct_task ct = t ∧ ct_isAssigned ct = true).
Proof.
  intros Hw Huid Hmail Hids r. eexists. split; [by apply calendar_run|]. fold r.
  set (owned := Calendar.ownedProjectsQuery uid r (db w)).
  set (member := Calendar.memberProjectsQuery uid (db w)).
  pose proof (calendar_projects_keys (db w) uid r) as Hkeys.
  unfold calendar_data in *. fold owned member in Hkeys |- *.
  set (V := Calendar.allProjectUuids owned member) in *.
  destruct (decide (V = [])) as [HV|HV].
  - simpl. split_and!.
    + intros ct []%elem_of_nil.
    + intros t _ []%elem_of_nil.
    + intros a t _ _ _ _ []%elem_of_nil.
  - simpl in *. specialize (λ x, Hkeys x HV).
    set (pm := Calendar.projectsMap owned member).
    set (assigned := Calendar.formattedAssignedTasks pm _).
    set (plain := Calendar.formattedProjectTasks pm _).
    pose proof (uniqueTasks_merged (assigned ++ plain)) as Hmerged.
    assert (Hassigned : ∀ ct, ct ∈ assigned →
              ct_task ct ∈ tasks (db w) ∧ t_project_uuid (ct_task ct) ∈ V
              ∧ ct_isAssigned ct = true
              ∧ ∃ a, a ∈ task_assignments (db w) ∧ a_user_id a = uid
                     ∧ a_task_id a = ct_id ct
                     ∧ ct_assigned_at ct = Some (assigned_at a)).
    { intros ct (a' & Ha' & Ht & Hwin & Hat & _)%elem_of_formattedAssignedTasks.
      apply list_elem_of_filter in Ha' as [HinV Ha'].
      unfold Calendar.in_projects in HinV. rewrite Ht in HinV.
      destruct (elem_of_assignedTasksQuery _ _ _ _ Ha' Ht) as (? & a & ? & ? & ? & Hsame).
      split_and!; [done..|]. exists a. rewrite Hat, Hsame. done. }
    assert (Hplain : ∀ ct, ct ∈ plain →
              ct_task ct ∈ tasks (db w) ∧ t_project_uuid (ct_task ct) ∈ V
              ∧ ct_isAssigned ct = false
              ∧ Calendar.due_within r (ct_task ct) ∧ ct_assigned_at ct = None).
    { intros ct (Ht & Hlose & Hat & _)%elem_of_formattedProjectTasks.
      apply list_elem_of_filter in Ht as [Hdue Ht].
      apply list_elem_of_filter in Ht as [HinV Ht]. done. }
    split_and!.
    + intros ct Hct. apply (merged_sub _ _ _ _ Hmerged), elem_of_app in Hct as [Hct|Hct].
      * apply Hassigned in Hct as (? & ? & -> & ?). split; [done|].
        split; [by apply Hkeys|done].
      * apply Hplain in Hct as (? & ? & -> & ?). split; [done|].
        split; [by apply Hkeys|done].
    + intros t Ht HinV%Hkeys Hdue.
      assert (Hin : task_id t ∈ ct_id <$> Calendar.uniqueTasks (assigned ++ plain)).
      { apply (merged_keys _ _ _ _ Hmerged
                 {| ct_task := t; ct_name := title t; ct_projects := pm !! t_project_uuid t;
                    ct_assigned_at := None; ct_isAssigned := false |}).
        apply elem_of_app. right. apply elem_of_formattedProjectTasks. simpl.
        split_and!; [|done..]. apply list_elem_of_filter. split; [done|].
        by apply list_elem_of_filter. }
      apply list_elem_of_fmap in Hin as (ct & Hk & Hct). by exists ct.
    + intros a t Ha Huser Ht Hid HinV%Hkeys.
      destruct (merged_winner _ _ _ _
                  {| ct_task := t; ct_name := title t; ct_projects := pm !! t_project_uuid t;
                     ct_assigned_at := Some (assigned_at a); ct_isAssigned := true |} Hmerged)
        as (e & He & Hk & Hwin); [|done|].
      { apply elem_of_app. left. apply elem_of_formattedAssignedTasks.
        exists (Calendar.embed_task (db w) a).
        assert (Hfound : at_tasks (Calendar.embed_task (db w) a) = Some t)
          by (by apply embed_task_found).
        split_and!; [|done..].
        apply list_elem_of_filter. split.
        - unfold Calendar.in_projects. by rewrite Hfound.
        - apply list_elem_of_fmap_2. by apply list_elem_of_filter. }
      exists e. split; [done|]. split; [|done].
      assert (Hsrc : ct_task e ∈ tasks (db w)).
      { apply (merged_sub _ _ _ _ Hmerged), elem_of_app in He as [He|He].
        - by apply Hassigned in He as (? & _).
        - by apply Hplain in He as (? & _). }
      by apply (unique_by_key task_id (tasks (db w))).
Qed.

Lemma calendar_tasks_are_the_callers_witness :
  let w := Office.world in
  healthy w ∧ task_ids_unique (db w)
  ∧ ∃ d, (Calendar.getCalendarData (Some 1) (Some "u@x.com") (Some 20760) (Some 20770) w).1
         = Json 200 d
         ∧ (λ ct, (ct_id ct, due_date (ct_task ct), ct_isAssigned ct)) <$> cal_tasks d
           = [(3, Some 20900, true); (1, Some 20761, false)].
Proof.
  intros w.
  assert (Hw : healthy w) by (intros n; reflexivity).
  assert (Hids : task_ids_unique (db w)) by (by apply (bool_decide_unpack _)).
  destruct (calendar_tasks_are_the_callers w 1 "u@x.com" (Some 20760) (Some 20770)
              Hw ltac:(done) ltac:(done) Hids) as (d & Hd & _).
  split; [exact Hw|]. split; [exact Hids|]. exists d. split; [exact Hd|].
  rewrite calendar_run in Hd by done. injection Hd as <-.
  vm_compute. reflexivity.
Defined.

(** * The calendar's summary *)

Lemma merged_winners_length {A K} `{EqDecision K} (key : A → K) (wins : A → bool)
    acc seen :
  merged key wins acc seen →
  NoDup (key <$> filter (λ x, wins x = true) seen) →
  length (filter (λ x, wins x = true) acc)
  = length (filter (λ x, wins x = true) seen).
Proof.
  intros Hmerged Hnd.
  rewrite <- (length_fmap key (filter _ acc)), <- (length_fmap key (filter _ seen)).
  apply NoDup_same_length; [|done|].
  - eapply sublist_NoDup; [apply (merged_NoDup _ _ _ _ Hmerged)|].
    apply fmap_sublist, sublist_filter.
  - intros k. split.
    + intros (x & -> & [Hwin Hx]%list_elem_of_filter)%list_elem_of_fmap.
      apply list_elem_of_fmap_2, list_elem_of_filter.
      split; [done|]. by apply (merged_sub _ _ _ _ Hmerged).
    + intros (y & -> & [Hwin Hy]%list_elem_of_filter)%list_elem_of_fmap.
      destruct (merged_winner key wins acc seen y Hmerged Hy Hwin) as (e & He & <- & Hwe).
      apply list_elem_of_fmap_2, list_elem_of_filter. done.
Qed.

Lemma merged_length {A K} (key : A → K) (wins : A → bool) acc seen :
  merged key wins acc seen → (length acc ≤ length seen)%nat.
Proof.
  intros Hmerged.
  rewrite <- (length_fmap key acc), <- (length_fmap key seen).
  apply NoDup_incl_length; [apply (merged_NoDup _ _ _ _ Hmerged)|].
  intros k Hk. by apply (merged_same_keys key wins acc seen k Hmerged).
Qed.

Lemma length_omap_le {A B} (f : A → option B) (l : list A) :
  (length (omap f l) ≤ length l)%nat.
Proof.
  induction l as [|x l IH]; [done|].
  change (omap f (x :: l))
    with (match f x with Some y => y :: omap f l | None => omap f l end).
  destruct (f x); cbn [length]; lia.
Qed.

Lemma formattedProjects_owned owned member :
  filter (λ cp, cp_isOwner cp = true) (Calendar.formattedProjects owned member)
  = (λ p, {| cp_project := p; cp_role := "owner"; cp_isOwner := true |}) <$> owned.
Proof.
  unfold Calendar.formattedProjects. rewrite filter_app.
  rewrite filter_everything by (by intros cp (p & -> & _)%list_elem_of_fmap).
  rewrite filter_nothing_in; [by rewrite (right_id_L [] (++))|].
  intros cp (m & _ & Hcp)%list_elem_of_omap. destruct (mp_projects m); simplify_eq/=. done.
Qed.

Lemma tasks_assigned pm assigned projectTasks :
  filter (λ ct, ct_isAssigned ct = true)
    (Calendar.formattedAssignedTasks pm assigned
     ++ Calendar.formattedProjectTasks pm projectTasks)
  = Calendar.formattedAssignedTasks pm assigned.
Proof.
  rewrite filter_app.
  rewrite filter_everything
    by (by intros ct (a & _ & _ & ? & _)%elem_of_formattedAssignedTasks).
  rewrite filter_nothing_in; [by rewrite (right_id_L [] (++))|].
  intros ct (_ & Hlose & _)%elem_of_formattedProjectTasks. congruence.
Qed.

(** The ids of the assigned entries are ids of the caller's assignment rows,
    in their order. *)
Lemma assigned_ids_sublist pm V s raw :
  ct_id <$> Calendar.formattedAssignedTasks pm
              (Calendar.assignedTasks V (Calendar.embed_task s <$> raw))
  `sublist_of` a_task_id <$> raw.
Proof.
  unfold Calendar.assignedTasks, Calendar.formattedAssignedTasks.
  induction raw as [|a raw IH]; [done|].
  rewrite !fmap_cons.
  destruct (decide (Calendar.in_projects V (Calendar.embed_task s a))) as [Hin|Hout].
  - rewrite filter_cons_True by done.
    unfold Calendar.in_projects in Hin. cbn [omap list_omap].
    destruct (at_tasks (Calendar.embed_task s a)) as [t|] eqn:Ht; [|done].
    cbn [fmap option_fmap option_map list_fmap].
    assert (ct_id {| ct_task := t; ct_name := title t;
                     ct_projects := pm !! t_project_uuid t;
                     ct_assigned_at := Some (at_assigned_at (Calendar.embed_task s a));
                     ct_isAssigned := true |} = a_task_id a) as ->.
    { unfold ct_id. simpl in *.
      destruct (list_find _ _) as [[i q]|] eqn:Hfind; simplify_eq/=.
      by apply list_find_Some in Hfind as (_ & ? & _). }
    by apply sublist_skip.
  - rewrite filter_cons_False by done. by apply sublist_cons.
Qed.

(** X11: the summary of the calendar agrees with the lists it is sent
    with.  No project UUID and no task id occurs twice; [totalProjects] and
    [totalTasks] are the lengths of the two lists; with one project per UUID
    [ownedProjects] is the number of entries marked as owned, and with at
    most one assignment row per task [assignedTasks] is the number of
    entries marked as assigned; [totalProjects] never exceeds
    [ownedProjects + memberProjects]. *)
Theorem calendar_summary_counts w uid mail sd ed :
  healthy w → uid ≠ 0 → mail ≠ "" →
  uuids_unique (db w) → assignments_unique (db w) uid →
  ∃ d, (Calendar.getCalendarData (Some uid) (Some mail) sd ed w).1 = Json 200 d
    ∧ NoDup (cp_uuid <$> cal_projects d)
    ∧ NoDup (ct_id <$> cal_tasks d)
    ∧ sum_totalProjects (cal_summary d) = length (cal_projects d)
    ∧ sum_totalTasks (cal_summary d) = length (cal_tasks d)
    ∧ sum_ownedProjects (cal_summary d)
      = length (filter (λ cp, cp_isOwner cp = true) (cal_projects d))
    ∧ sum_assignedTasks (cal_summary d)
      = length (filter (λ ct, ct_isAssigned ct = true) (cal_tasks d))
    ∧ (sum_totalProjects (cal_summary d)
       ≤ sum_ownedProjects (cal_summary d) + sum_memberProjects (cal_summary d))%nat.
Proof.
  intros Hw Huid Hmail Hu Ha. eexists. split; [by apply calendar_run|].
  unfold calendar_data.
  set (r := Calendar.range sd ed).
  set (owned := Calendar.ownedProjectsQuery uid r (db w)).
  set (member := Calendar.memberProjectsQuery uid (db w)).
  set (V := Calendar.allProjectUuids owned member).
  destruct (decide (V = [])) as [HV|HV]; simpl.
  { split_and!; try done; apply NoDup_nil_2. }
  set (pm := Calendar.projectsMap owned member).
  set (assigned := Calendar.formattedAssignedTasks pm _).
  set (plain := Calendar.formattedProjectTasks pm _).
  pose proof (uniqueProjects_merged (Calendar.formattedProjects owned member)) as HP.
  pose proof (uniqueTasks_merged (assigned ++ plain)) as HT.
  split_and!; try done.
  - apply (merged_NoDup _ _ _ _ HP).
  - apply (merged_NoDup _ _ _ _ HT).
  - rewrite (merged_winners_length _ _ _ _ HP); rewrite formattedProjects_owned.
    + by rewrite length_fmap.
    + rewrite <- list_fmap_compose.
      eapply sublist_NoDup; [exact Hu|].
      apply (fmap_sublist project_uuid). unfold owned, Calendar.ownedProjectsQuery.
      etrans; [apply sublist_filter|apply sublist_filter].
  - rewrite (merged_winners_length _ _ _ _ HT); unfold assigned, plain;
      rewrite tasks_assigned; [done|].
    eapply sublist_NoDup; [exact Ha|]. apply assigned_ids_sublist.
  - etrans; [apply (merged_length _ _ _ _ HP)|].
    unfold Calendar.formattedProjects. rewrite length_app, length_fmap.
    pose proof (length_omap_le
      (λ m, (λ p, {| cp_project := p; cp_role := mp_role m; cp_isOwner := false |})
              <$> mp_projects m) member). lia.
Qed.

Lemma calendar_summary_counts_witness :
  let w := Office.world in
  healthy w ∧ uuids_unique (db w) ∧ assignments_unique (db w) 1
  ∧ ∃ d, (Calendar.getCalendarData (Some 1) (Some "u@x.com") None None w).1 = Json 200 d
         ∧ cal_summary d
           = {| sum_totalProjects := 2; sum_ownedProjects := 1; sum_memberProjects := 1;
                sum_totalTasks := 4; sum_assignedTasks := 1 |}.
Proof.
  intros w.
  assert (Hw : healthy w) by (intros n; reflexivity).
  assert (Hu : uuids_unique (db w)) by (by apply (bool_decide_unpack _)).
  assert (Ha : assignments_unique (db w) 1) by (by apply (bool_decide_unpack _)).
  destruct (calendar_summary_counts w 1 "u@x.com" None None
              Hw ltac:(done) ltac:(done) Hu Ha) as (d & Hd & _).
  split_and!; [exact Hw|exact Hu|exact Ha|]. exists d. split; [exact Hd|].
  rewrite calendar_run in Hd by done. injection Hd as <-.
  vm_compute. reflexivity.
Defined.

(** * Deleting projects *)

(** The run issued no write. *)
Ltac no_write :=
  match goal with
  | |- context [writes ?w ?w'] =>
      let Hnone := fresh "Hnone" in
      assert (Hnone : writes w w' = []) by (unfold writes; by issued_norm);
      rewrite Hnone
  end.

(** X12: whatever the store answers, a delete request removes no project of
    another owner and no project that was not requested; the only write the
    handler issues is one delete on the projects table, and only when every
    existing project among the requested UUIDs is owned by the caller; after
    a 200 the count is the number of requested UUIDs and no project with a
    requested UUID is left. *)
Theorem delete_project_spares_other_owners w uid singleUuid projectIds :
  uid ≠ 0 →
  let uuids := Projects.uuidsToDelete singleUuid projectIds in
  let run := Projects.deleteProject (Some uid) singleUuid projectIds w in
  (∀ p, p ∈ projects (db w) → owner_id p ≠ uid ∨ project_uuid p ∉ uuids →
        p ∈ projects (db run.2))
  ∧ (writes w run.2 = [] ∨ writes w run.2 = [DeleteProjects uuids])
  ∧ (writes w run.2 ≠ [] →
       ∀ p, p ∈ projects (db w) → project_uuid p ∈ uuids → owner_id p = uid)
  ∧ (∀ n, run.1 = Json 200 n →
       n = length uuids ∧ ∀ p, p ∈ projects (db run.2) → project_uuid p ∉ uuids).
Proof.
  intros Huid uuids. cbv zeta. unfold Projects.deleteProject. fold uuids.
  assert (JS.truthy_num uid = true) as -> by (by apply truthy_num_true).
  cbn [negb]. cbv iota.
  unfold mbind, mret, M_bind, M_ret, select, mutate, call.
  destruct (faults w (calls w)) eqn:H0; simpl.
  { no_write. split_and!; try done. by left. }
  destruct (decide (filter (λ p, owner_id p ≠ uid) (Query.projects_in uuids (db w)) = []))
    as [Hall|Hsome]; simpl.
  - assert (Howned : ∀ p, p ∈ projects (db w) → project_uuid p ∈ uuids → owner_id p = uid).
    { intros p Hp Hin. destruct (decide (owner_id p = uid)) as [|Hne]; [done|].
      exfalso. apply (not_elem_of_nil p). rewrite <- Hall.
      apply list_elem_of_filter. split; [done|]. by apply list_elem_of_filter. }
    destruct (faults w (S (calls w))) eqn:H1; simpl.
    + split_and!; try done. right. unfold writes. by issued_norm.
    + split_and!; try done.
      * intros p Hp Hspared. apply list_elem_of_filter. split; [|done].
        destruct Hspared as [Hne|Hout]; [|done].
        intros Hin. by apply Hne, Howned.
      * right. unfold writes. by issued_norm.
      * intros n [= <-]. split; [done|]. by intros p [? _]%list_elem_of_filter.
  - no_write. split_and!; try done. by left.
Qed.

Lemma delete_project_spares_other_owners_witness :
  let w := Office.world in
  let run := Projects.deleteProject (Some 1) "p1" None w in
  run.1 = Json 200 1%nat
  ∧ project_uuid <$> projects (db run.2) = ["p2"]
  ∧ writes w run.2 = [DeleteProjects ["p1"]]
  ∧ ∀ p, p ∈ projects (db w) → owner_id p ≠ 1 → p ∈ projects (db run.2).
Proof.
  intros w run.
  destruct (delete_project_spares_other_owners w 1 "p1" None ltac:(done))
    as (Hspared & _).
  split; [reflexivity|]. split; [reflexivity|]. split; [reflexivity|].
  intros p Hp Hne. apply Hspared; [exact Hp|by left].
Defined.

(** * Creating a project *)

Lemma foundByEmail_snoc found u :
  Projects.foundByEmail (found ++ [u])
  = if JS.truthy_str (email u) && JS.truthy_num (user_id u)
    then <[JS.toLowerCase (email u) := user_id u]> (Projects.foundByEmail found)
    else Projects.foundByEmail found.
Proof. unfold Projects.foundByEmail. by rewrite foldl_snoc. Qed.

Lemma foundByEmail_Some found k id :
  Projects.foundByEmail found !! k = Some id →
  id ≠ 0 ∧ ∃ u, u ∈ found ∧ user_id u = id ∧ JS.toLowerCase (email u) = k.
Proof.
  induction found as [|u found IH] using rev_ind; [done|].
  rewrite foundByEmail_snoc.
  destruct (JS.truthy_str (email u) && JS.truthy_num (user_id u)) eqn:Hu.
  - apply andb_true_iff in Hu as [_ Hid%truthy_num_true].
    destruct (decide (JS.toLowerCase (email u) = k)) as [<-|Hk].
    + rewrite lookup_insert_eq. intros [= <-]. split; [done|].
      exists u. split; [|done]. apply elem_of_app. right. left.
    + rewrite lookup_insert_ne by done. intros (? & u' & ? & ?)%IH.
      split; [done|]. exists u'. split; [|done]. apply elem_of_app. by left.
  - intros (? & u' & ? & ?)%IH.
    split; [done|]. exists u'. split; [|done]. apply elem_of_app. by left.
Qed.

Lemma foundByEmail_is_Some found u :
  u ∈ found → email u ≠ "" → user_id u ≠ 0 →
  is_Some (Projects.foundByEmail found !! JS.toLowerCase (email u)).
Proof.
  induction found as [|u' found IH] using rev_ind; intros Hu Hmail Hid.
  - by apply elem_of_nil in Hu.
  - rewrite foundByEmail_snoc.
    destruct (JS.truthy_str (email u') && JS.truthy_num (user_id u')) eqn:Hu'.
    + destruct (decide (JS.toLowerCase (email u') = JS.toLowerCase (email u))) as [<-|Hk].
      * rewrite lookup_insert_eq. eauto.
      * rewrite lookup_insert_ne by done.
        apply elem_of_app in Hu as [Hu| ->%list_elem_of_singleton]; [by apply IH|done].
    + apply elem_of_app in Hu as [Hu| ->%list_elem_of_singleton]; [by apply IH|].
      apply andb_false_iff in Hu' as [Hu'|Hu'].
      * apply truthy_str_true in Hmail. congruence.
      * apply truthy_num_true in Hid. congruence.
Qed.

Lemma get_or_null_foundByEmail found k :
  get_or_null (Projects.foundByEmail found) k = Projects.foundByEmail found !! k.
Proof.
  unfold get_or_null.
  destruct (Projects.foundByEmail found !! k) as [id|] eqn:Hk; [|done].
  apply foundByEmail_Some in Hk as [Hid%truthy_num_true _]. by rewrite Hid.
Qed.

(** The cleaned emails are trimmed and in lower case already. *)
Lemma cleanEmails_lower emails e :
  e ∈ cleanEmails emails → JS.toLowerCase e = e.
Proof.
  intros (_ & raw & _ & ->)%elem_of_cleanEmails. apply toLowerCase_idemp.
Qed.

Lemma cleanEmails_NoDup emails : NoDup (cleanEmails emails).
Proof. apply NoDup_set_of. Qed.

(** The run of [createProject] on a store that answers every call. *)
Lemma createProject_healthy w userId row memberEmailsRaw :
  healthy w → project_uuid row ≠ "" →
  let clean := default [] (cleanEmails <$> memberEmailsRaw) in
  let run := Projects.createProject userId row memberEmailsRaw w in
  run.1 = Json 201 {| cr_project := row;
                      cr_membersAdded := if decide (clean = []) then None
                                         else Some (length clean);
                      cr_emailsSent := if decide (clean = []) then None
                                       else Some (length clean) |}
  ∧ healthy run.2
  ∧ users (db run.2) = users (db w)
  ∧ projects (db run.2) = projects (db w) ++ [row]
  ∧ project_members (db run.2)
    = project_members (db w) ++ created_rows (db w) row memberEmailsRaw
  ∧ tasks (db run.2) = tasks (db w)
  ∧ task_assignments (db run.2) = task_assignments (db w).
Proof.
  intros Hw Huuid clean run. subst clean run.
  unfold Projects.createProject, created_rows.
  assert (JS.truthy_str (project_uuid row) = true) as Htruthy by (by apply truthy_str_true).
  destruct memberEmailsRaw as [raw|]; cbn [fmap option_fmap option_map from_option id];
    [destruct (cleanEmails raw) as [|e clean'] eqn:Hclean|];
    run_healthy; rewrite Htruthy; cbn [negb]; cbv iota.
  2: { run_healthy. split_and!; try done.
       unfold Projects.memberRows. by rewrite length_fmap. }
  all: simpl; split_and!; try done; try (by apply healthy_tick);
    by rewrite (right_id_L [] (++)).
Qed.

Lemma created_rows_spec s row memberEmailsRaw :
  let clean := default [] (cleanEmails <$> memberEmailsRaw) in
  let rows := created_rows s row memberEmailsRaw in
  member_email <$> rows = clean
  ∧ NoDup clean
  ∧ ∀ m, m ∈ rows →
      m_project_uuid m = project_uuid row ∧ role m = "viewer"
      ∧ match m_user_id m with
        | Some id => id ≠ 0 ∧ ∃ u, u ∈ users s ∧ user_id u = id
                                   ∧ email u ∈ clean
                                   ∧ JS.toLowerCase (email u) = member_email m
        | None => ∀ u, u ∈ users s → email u = member_email m → user_id u = 0
        end.
Proof.
  intros clean rows. subst rows. unfold created_rows. fold clean.
  set (found := Query.users_by_email clean s).
  assert (Hclean : ∀ e, e ∈ clean → e ≠ "" ∧ JS.toLowerCase e = e).
  { subst clean. destruct memberEmailsRaw as [raw|]; simpl; [|by intros e []%elem_of_nil].
    intros e He. split; [by apply elem_of_cleanEmails in He as [? _]|].
    by apply (cleanEmails_lower raw). }
  split_and!.
  - unfold Projects.memberRows. rewrite <- list_fmap_compose. apply list_fmap_id.
  - subst clean. destruct memberEmailsRaw; simpl; [apply cleanEmails_NoDup|apply NoDup_nil_2].
  - intros m (e' & -> & He')%list_elem_of_fmap. simpl. split; [done|]. split; [done|].
    rewrite get_or_null_foundByEmail.
    destruct (Projects.foundByEmail found !! e') as [id|] eqn:Hlook.
    + apply foundByEmail_Some in Hlook as (Hid & u & Hu & Hsame & Hlower).
      split; [done|]. exists u.
      apply list_elem_of_filter in Hu as [Hmail Hu]. done.
    + intros u Hu Hmail. destruct (decide (user_id u = 0)) as [|Hid]; [done|].
      exfalso. destruct (Hclean e' He') as [Hne Hlow].
      destruct (foundByEmail_is_Some found u) as [id Hsome]; [|..|].
      * apply list_elem_of_filter. by rewrite Hmail.
      * by rewrite Hmail.
      * done.
      * rewrite Hmail, Hlow in Hsome. congruence.
Qed.

(** X13: on a store that answers every call, creating a project with member
    emails answers 201 whoever the caller is, appends the project row, and
    appends one member row per cleaned email, in order: each row names the
    new project, has the role [viewer] and the cleaned email, and its user id
    is that of a registered user with this email when there is one with a
    usable id, and null otherwise.  [membersAdded] and [emailsSent] both
    count the cleaned emails; without usable emails no member row is added
    and the two counts are missing. *)
Theorem create_project_adds_a_viewer_per_email w userId row memberEmailsRaw :
  healthy w → project_uuid row ≠ "" →
  let clean := default [] (cleanEmails <$> memberEmailsRaw) in
  let run := Projects.createProject userId row memberEmailsRaw w in
  ∃ rows,
    run.1 = Json 201 {| cr_project := row;
                        cr_membersAdded := if decide (clean = []) then None
                                           else Some (length clean);
                        cr_emailsSent := if decide (clean = []) then None
                                         else Some (length clean) |}
    ∧ projects (db run.2) = projects (db w) ++ [row]
    ∧ project_members (db run.2) = project_members (db w) ++ rows
    ∧ member_email <$> rows = clean
    ∧ NoDup clean
    ∧ (∀ m, m ∈ rows →
         m_project_uuid m = project_uuid row ∧ role m = "viewer"
         ∧ match m_user_id m with
           | Some id => id ≠ 0 ∧ ∃ u, u ∈ users (db w) ∧ user_id u = id
                                      ∧ email u ∈ clean
                                      ∧ JS.toLowerCase (email u) = member_email m
           | None => ∀ u, u ∈ users (db w) → email u = member_email m → user_id u = 0
           end).
Proof.
  intros Hw Huuid clean run.
  destruct (createProject_healthy w userId row memberEmailsRaw Hw Huuid)
    as (Hresponse & _ & _ & Hprojects & Hmembers & _).
  destruct (created_rows_spec (db w) row memberEmailsRaw) as (Hemails & Hnd & Hrows).
  exists (created_rows (db w) row memberEmailsRaw). done.
Qed.

Lemma create_project_adds_a_viewer_per_email_witness :
  let w := Office.world in
  let row := Scenario.project 9 "p9" 2 None None in
  let run := Projects.createProject None row (Some [" W@x.com"; "new@x.com"; "w@x.com "]) w in
  healthy w
  ∧ (∃ body, run.1 = Json 201 body ∧ cr_membersAdded body = Some 2%nat)
  ∧ drop 3 (project_members (db run.2))
    = [Scenario.member "p9" (Some 3) "w@x.com"; Scenario.member "p9" None "new@x.com"].
Proof.
  intros w row run.
  assert (Hw : healthy w) by (intros n; reflexivity).
  destruct (create_project_adds_a_viewer_per_email w None row
              (Some [" W@x.com"; "new@x.com"; "w@x.com "]) Hw ltac:(done))
    as (rows & Hresponse & _).
  split; [exact Hw|]. split; [|reflexivity].
  eexists. split; [exact Hresponse|]. reflexivity.
Defined.

(** X14: who sees a project once it is created.  With a UUID that is new to
    the store and registered emails that differ beyond letter case, the new
    project is in the visibility set of a user exactly when the user is the
    owner named in the row, or has a usable id and a registered email among
    the cleaned member emails. *)
Theorem created_project_is_visible_to_owner_and_invited w userId row memberEmailsRaw id :
  healthy w → project_uuid row ≠ "" →
  fresh_uuid (db w) (project_uuid row) → emails_unique (db w) →
  let clean := default [] (cleanEmails <$> memberEmailsRaw) in
  let w' := (Projects.createProject userId row memberEmailsRaw w).2 in
  ∃ V, (Dashboard.allProjectUuids id w').1 = Data V
    ∧ (project_uuid row ∈ V
       ↔ id = owner_id row
         ∨ id ≠ 0 ∧ ∃ u, u ∈ users (db w) ∧ user_id u = id ∧ email u ∈ clean).
Proof.
  intros Hw Huuid [Hfresh_p Hfresh_m] Hunique clean w'.
  destruct (createProject_healthy w userId row memberEmailsRaw Hw Huuid)
    as (_ & Hw' & _ & Hprojects & Hmembers & _).
  destruct (created_rows_spec (db w) row memberEmailsRaw) as (Hemails & Hnd & Hrows).
  fold clean in Hemails, Hnd, Hrows. fold w' in Hw', Hprojects, Hmembers.
  exists (visible (db w') id). split; [by apply dashboard_uuids_healthy|].
  rewrite dashboard_uuids_spec. split.
  - intros [(p & Hp & Howner & Hpu)|(m & Hm & Huser & Hmu)].
    + rewrite Hprojects in Hp.
      apply elem_of_app in Hp as [Hp| ->%list_elem_of_singleton]; [|by left].
      by destruct (Hfresh_p p Hp).
    + rewrite Hmembers in Hm. apply elem_of_app in Hm as [Hm|Hm].
      * by destruct (Hfresh_m m Hm).
      * right. apply Hrows in Hm as (_ & _ & Hm). rewrite Huser in Hm.
        destruct Hm as (Hid & u & Hu & Hsame & Hin & _). split; [done|]. by exists u.
  - intros [->|(Hid & u & Hu & Hsame & Hin)].
    + left. exists row. split; [|done]. rewrite Hprojects. apply elem_of_app. right. left.
    + right. rewrite <- Hemails in Hin.
      apply list_elem_of_fmap in Hin as (m & Hmail & Hm).
      exists m. split; [rewrite Hmembers; apply elem_of_app; by right|].
      destruct (Hrows m Hm) as (Hmu & _ & Hres). split; [|done].
      destruct (m_user_id m) as [id'|].
      * destruct Hres as (_ & u' & Hu' & Hsame' & Hin' & Hlower). f_equal.
        assert (Hlow : JS.toLowerCase (email u) = email u).
        { assert (email u ∈ clean) as Hc by (rewrite <- Hemails, Hmail; by apply list_elem_of_fmap_2).
          subst clean. destruct memberEmailsRaw as [raw|]; simpl in Hc;
            [by apply (cleanEmails_lower raw)|by apply elem_of_nil in Hc]. }
        assert (u' = u) as ->; [|congruence].
        apply (unique_by_key (λ u, JS.toLowerCase (email u)) (users (db w)));
          [done..|]. simpl. congruence.
      * destruct Hid. rewrite <- Hsame. by apply Hres.
Qed.

Lemma created_project_is_visible_to_owner_and_invited_witness :
  let w := Office.world in
  let row := Scenario.project 9 "p9" 2 None None in
  let w' := (Projects.createProject (Some 2) row (Some ["W@x.com"; "new@x.com"]) w).2 in
  healthy w ∧ fresh_uuid (db w) "p9" ∧ emails_unique (db w)
  ∧ (Dashboard.allProjectUuids 3 w').1 = Data ["p1"; "p9"]
  ∧ (Dashboard.allProjectUuids 1 w').1 = Data ["p1"; "p2"].
Proof.
  intros w row w'.
  assert (Hw : healthy w) by (intros n; reflexivity).
  assert (Hfresh : fresh_uuid (db w) "p9").
  { split; intros x Hx; simpl in Hx;
      repeat (apply elem_of_cons in Hx as [->|Hx]; [done|]); by apply elem_of_nil in Hx. }
  assert (Hunique : emails_unique (db w)) by (by apply (bool_decide_unpack _)).
  destruct (created_project_is_visible_to_owner_and_invited w (Some 2) row
              (Some ["W@x.com"; "new@x.com"]) 3 Hw ltac:(done) Hfresh Hunique)
    as (V & HV & _).
  split_and!; [exact Hw|exact Hfresh|exact Hunique|reflexivity|reflexivity].
Defined.

(** X15: creating a project and deleting it again.  When the UUID is new to
    the store, the owner named in the row can delete the project right after
    it was created, which leaves the projects table as it was before the
    two requests; every other caller is turned away with 403. *)
Theorem create_then_delete_restores_projects w userId row memberEmailsRaw :
  healthy w → project_uuid row ≠ "" → owner_id row ≠ 0 →
  (∀ p, p ∈ projects (db w) → project_uuid p ≠ project_uuid row) →
  let w1 := (Projects.createProject userId row memberEmailsRaw w).2 in
  let run := Projects.deleteProject (Some (owner_id row)) (project_uuid row) None w1 in
  run.1 = Json 200 1%nat
  ∧ projects (db run.2) = projects (db w)
  ∧ ∀ other, other ≠ 0 → other ≠ owner_id row →
      (Projects.deleteProject (Some other) (project_uuid row) None w1).1
      = Fail 403 "Access denied. You can only delete projects you own.".
Proof.
  intros Hw Huuid Howner Hfresh w1.
  destruct (createProject_healthy w userId row memberEmailsRaw Hw Huuid)
    as (_ & Hw1 & _ & Hprojects & _).
  fold w1 in Hw1, Hprojects. clearbody w1.
  assert (Hkeep : filter (λ p, project_uuid p ∉ [project_uuid row]) (projects (db w1))
                  = projects (db w)).
  { rewrite Hprojects, filter_app, filter_everything.
    - rewrite filter_nothing_in; [by rewrite (right_id_L [] (++))|].
      intros p ->%list_elem_of_singleton Hp. apply Hp. left.
    - intros p Hp Heq%list_elem_of_singleton. by apply (Hfresh p). }
  assert (Hfound : Query.projects_in [project_uuid row] (db w1) = [row]).
  { unfold Query.projects_in. rewrite Hprojects, filter_app.
    rewrite filter_nothing_in.
    - rewrite filter_cons_True by left. done.
    - intros p Hp Heq%list_elem_of_singleton. by apply (Hfresh p). }
  assert (Hrun : ∀ uid, uid ≠ 0 →
            Projects.deleteProject (Some uid) (project_uuid row) None w1
            = if decide (owner_id row = uid)
              then (Json 200 1%nat,
                    tick (DeleteProjects [project_uuid row])
                      (Write.delete_projects [project_uuid row] (db w1))
                      (tick (Select "projects") (db w1) w1))
              else (Fail 403 "Access denied. You can only delete projects you own.",
                    tick (Select "projects") (db w1) w1)).
  { intros uid Huid. unfold Projects.deleteProject.
    assert (JS.truthy_num uid = true) as -> by (by apply truthy_num_true).
    cbn [negb Projects.uuidsToDelete]. cbv iota.
    unfold mbind, mret, M_bind, M_ret. rewrite select_healthy by done.
    rewrite Hfound.
    destruct (decide (owner_id row = uid)) as [Heq|Hne].
    - rewrite filter_cons_False by (intros ?; done). rewrite filter_nil.
      rewrite decide_True by done. rewrite mutate_healthy by (by apply healthy_tick). done.
    - rewrite filter_cons_True by done. by rewrite decide_False. }
  split_and!.
  - rewrite Hrun by done. by rewrite decide_True.
  - rewrite Hrun by done. rewrite decide_True by done. exact Hkeep.
  - intros other Hother Hne. rewrite Hrun by done. by rewrite decide_False.
Qed.

Lemma create_then_delete_restores_projects_witness :
  let w := Office.world in
  let row := Scenario.project 9 "p9" 2 None None in
  let w1 := (Projects.createProject (Some 2) row (Some ["new@x.com"]) w).2 in
  healthy w
  ∧ (∀ p, p ∈ projects (db w) → project_uuid p ≠ "p9")
  ∧ length (projects (db w1)) = 3%nat
  ∧ projects (db (Projects.deleteProject (Some 2) "p9" None w1).2) = projects (db w).
Proof.
  intros w row w1.
  assert (Hw : healthy w) by (intros n; reflexivity).
  assert (Hfresh : ∀ p, p ∈ projects (db w) → project_uuid p ≠ "p9").
  { intros x Hx; simpl in Hx.
    repeat (apply elem_of_cons in Hx as [->|Hx]; [done|]). by apply elem_of_nil in Hx. }
  destruct (create_then_delete_restores_projects w (Some 2) row (Some ["new@x.com"])
              Hw ltac:(done) ltac:(done) Hfresh) as (_ & Hback & _).
  split_and!; [exact Hw|exact Hfresh|reflexivity|exact Hback].
Defined.

(** * Adding members: who may write *)

Lemma select_cases {A} table (q : Store → A) w :
  ∃ r, select table q w = (r, tick (Select table) (db w) w)
       ∧ (r = Error ∨ r = Data (q (db w))).
Proof.
  unfold select, call. destruct (faults w (calls w)); simpl; eauto.
Qed.

Lemma mutate_cases op f w :
  mutate op f w = (Error, tick op (db w) w)
  ∨ mutate op f w = (Data tt, tick op (f (db w)) w).
Proof. unfold mutate, call. destruct (faults w (calls w)); simpl; eauto. Qed.

(** The caller's checks only read, and let nobody through who may not add
    members, whatever the store answers. *)
Lemma authorize_any w projectUuid userId memberEmails :
  let r := ProjectMembers.authorize projectUuid userId memberEmails w in
  db r.2 = db w
  ∧ (∃ ops, log r.2 = log w ++ ops ∧ filter is_write ops = [])
  ∧ ∀ uid es, r.1 = inr (uid, es) →
      userId = Some uid ∧ uid ≠ 0 ∧ may_add_members (db w) projectUuid uid.
Proof.
  cbv zeta. unfold ProjectMembers.authorize.
  destruct userId as [uid|]; [|split_and!; [done|by exists []; rewrite (right_id_L [] (++))|done]].
  destruct (JS.truthy_num uid) eqn:Huid; cbn [negb]; cbv iota;
    [|split_and!; [done|by exists []; rewrite (right_id_L [] (++))|done]].
  apply truthy_num_true in Huid.
  destruct memberEmails as [[|e es]|];
    try (split_and!; [done|by exists []; rewrite (right_id_L [] (++))|done]).
  unfold mbind, mret, M_bind, M_ret.
  destruct (select_cases "projects" (ProjectMembers.projectQuery projectUuid) w)
    as (r1 & -> & Hr1).
  destruct (data_or_null r1) as [project|] eqn:Hproject;
    [|split_and!; [done|by exists [Select "projects"]|done]].
  assert (Hfound : ProjectMembers.projectQuery projectUuid (db w) = Some project).
  { destruct Hr1 as [->| ->]; simpl in Hproject; [done|done]. }
  destruct (decide (owner_id project = uid)) as [Howner|Hother].
  - split_and!; [done|by exists [Select "projects"]|].
    intros uid' es' [= <- <-]. split_and!; [done..|]. exists project. eauto.
  - destruct (select_cases "project_members" (ProjectMembers.memberQuery projectUuid uid)
                (tick (Select "projects") (db w) w)) as (r2 & -> & Hr2).
    destruct (ProjectMembers.may_add (data_or_null r2)) eqn:Hmay.
    + split_and!; [done|by exists [Select "projects"; Select "project_members"];
                          simpl; rewrite <- (assoc_L (++))|].
      intros uid' es' [= <- <-]. split_and!; [done..|]. exists project. split; [done|].
      right. destruct Hr2 as [->| ->]; simpl in Hmay; [done|done].
    + split_and!; [done|by exists [Select "projects"; Select "project_members"];
                          simpl; rewrite <- (assoc_L (++))|done].
Qed.

(** Collects the log of a run made of ticks on top of a prefix with known
    log. *)
Ltac writes_from Hlog Hops :=
  erewrite writes_of_log;
    [|simpl; rewrite ?Hlog, <- ?(assoc_L (++)); reflexivity];
  rewrite ?filter_app, ?Hops; simpl.

Lemma bulkAdd_guarded w projectUuid userId memberEmails defaultRole :
  guarded_insert projectUuid userId w
    (ProjectMembers.bulkAddProjectMembers projectUuid userId memberEmails defaultRole w).2.
Proof.
  unfold ProjectMembers.bulkAddProjectMembers. unfold mbind at 1, M_bind at 1.
  destruct (authorize_any w projectUuid userId memberEmails) as (Hdb & (ops & Hlog & Hops) & Hauth).
  destruct (ProjectMembers.authorize projectUuid userId memberEmails w)
    as [[response|[uid es]] w1]; simpl in Hdb, Hlog, Hauth.
  { left. split; [|done]. by writes_from Hlog Hops. }
  destruct (Hauth uid es eq_refl) as (-> & Huid & Hmay).
  case_decide; [left; split; [|done]; by writes_from Hlog Hops|].
  unfold mbind, mret, M_bind, M_ret.
  destruct (select_cases "project_members"
              (ProjectMembers.existingMembersQuery projectUuid) w1) as (r1 & -> & _).
  case_decide; [left; split; [|done]; by writes_from Hlog Hops|].
  set (new := ProjectMembers.newEmails _ _) in *.
  destruct (select_cases "users" (Query.users_by_email new)
              (tick (Select "project_members") (db w1) w1)) as (r2 & -> & _).
  set (rows := ProjectMembers.memberRows _ _ _ _).
  set (w3 := tick (Select "users") _ _).
  right. exists uid, rows. split_and!; [done..| | |].
  - destruct (mutate_cases (InsertMembers rows) (Write.insert_members rows) w3) as [-> | ->].
    + by writes_from Hlog Hops.
    + case_decide.
      * by writes_from Hlog Hops.
      * destruct (select_cases "users"
                    (λ s, single (filter (λ u, user_id u = uid) (users s)))
                    (tick (InsertMembers rows) (Write.insert_members rows (db w3)) w3))
          as (r4 & -> & _).
        by writes_from Hlog Hops.
  - apply memberRows_project.
  - destruct (mutate_cases (InsertMembers rows) (Write.insert_members rows) w3) as [-> | ->].
    + left. done.
    + right. case_decide.
      * simpl. by rewrite Hdb.
      * destruct (select_cases "users"
                    (λ s, single (filter (λ u, user_id u = uid) (users s)))
                    (tick (InsertMembers rows) (Write.insert_members rows (db w3)) w3))
          as (r4 & -> & _).
        simpl. by rewrite Hdb.
Qed.

Lemma addProjectMember_guarded w projectUuid userId member_email_ role_ :
  guarded_insert projectUuid userId w
    (Members.addProjectMember projectUuid userId member_email_ role_ w).2.
Proof.
  unfold Members.addProjectMember.
  assert (Hnothing : guarded_insert projectUuid userId w w).
  { left. split; [|done]. unfold writes. by rewrite issued_refl. }
  destruct userId as [uid|]; [|done].
  destruct (JS.truthy_num uid) eqn:Huid; cbn [negb]; cbv iota; [|done].
  apply truthy_num_true in Huid.
  destruct member_email_ as [[|c raw]|]; [done| |done].
  unfold mbind, mret, M_bind, M_ret.
  destruct (select_cases "projects" (ProjectMembers.projectQuery projectUuid) w)
    as (r1 & -> & Hr1).
  set (w1 := tick (Select "projects") (db w) w).
  assert (Hlog1 : log w1 = log w ++ [Select "projects"]) by done.
  assert (Hops1 : filter is_write [Select "projects"] = []) by done.
  destruct (data_or_null r1) as [project|] eqn:Hproject;
    [|left; split; [|done]; by writes_from Hlog1 Hops1].
  assert (Hfound : ProjectMembers.projectQuery projectUuid (db w) = Some project).
  { destruct Hr1 as [->| ->]; simpl in Hproject; [done|done]. }
  match goal with
  | |- context [let (a, w') := ?m w1 in _] => destruct (m w1) as [allowed w2] eqn:Hrun
  end.
  assert (Hallowed : ∃ ops,
            db w2 = db w ∧ log w2 = log w ++ ops ∧ filter is_write ops = []
            ∧ (allowed = true → may_add_members (db w) projectUuid uid)).
  { destruct (decide (owner_id project = uid)) as [Howner|Hother].
    - injection Hrun as <- <-. exists [Select "projects"]. split_and!; try done.
      intros _. exists project. eauto.
    - destruct (select_cases "project_members" (ProjectMembers.memberQuery projectUuid uid) w1)
        as (r2 & Hsel & Hr2).
      rewrite Hsel in Hrun. injection Hrun as <- <-.
      exists [Select "projects"; Select "project_members"].
      split_and!; [done|by simpl; rewrite <- (assoc_L (++))|done|].
      intros Hmay. exists project. split; [done|]. right.
      destruct Hr2 as [->| ->]; simpl in Hmay; [done|done]. }
  destruct Hallowed as (ops & Hdb & Hlog & Hops & Hmay).
  destruct allowed; cbn [negb]; cbv iota;
    [|left; split; [|done]; by writes_from Hlog Hops].
  specialize (Hmay eq_refl).
  set (memberEmail := JS.toLowerCase (JS.trim (String c raw))).
  destruct (select_cases "project_members" (Members.existingQuery projectUuid memberEmail) w2)
    as (r3 & -> & _).
  destruct (data_or_null r3) as [existing|];
    [left; split; [|done]; by writes_from Hlog Hops|].
  set (w3 := tick (Select "project_members") (db w2) w2).
  destruct (select_cases "users" (Members.userQuery memberEmail) w3) as (r4 & -> & _).
  set (row := Members.newMember projectUuid (data_or_null r4) memberEmail role_).
  set (w4 := tick (Select "users") (db w3) w3).
  right. exists uid, [row]. split_and!; [done..| | |].
  - destruct (mutate_cases (InsertMembers [row]) (Write.insert_members [row]) w4) as [-> | ->].
    + by writes_from Hlog Hops.
    + destruct (data_or_null r4).
      * by writes_from Hlog Hops.
      * destruct (select_cases "users"
                    (λ s, single (filter (λ u, user_id u = uid) (users s)))
                    (tick (InsertMembers [row]) (Write.insert_members [row] (db w4)) w4))
          as (r5 & -> & _).
        by writes_from Hlog Hops.
  - by apply Forall_singleton.
  - destruct (mutate_cases (InsertMembers [row]) (Write.insert_members [row]) w4) as [-> | ->].
    + left. done.
    + right. destruct (data_or_null r4).
      * simpl. by rewrite Hdb.
      * destruct (select_cases "users"
                    (λ s, single (filter (λ u, user_id u = uid) (users s)))
                    (tick (InsertMembers [row]) (Write.insert_members [row] (db w4)) w4))
          as (r5 & -> & _).
        simpl. by rewrite Hdb.
Qed.

(** X16: members are added only by owners and admins.  Whatever the store
    answers or refuses, the bulk add and the single add either write
    nothing and leave the store as it was, or issue exactly one insert, of
    member rows that all name the project of the request, for a caller who
    is authenticated and is the project's owner or a member of it with the
    role [admin] or [owner]. *)
Theorem members_are_added_only_by_owners_and_admins w projectUuid userId memberEmails
    defaultRole member_email_ role_ :
  guarded_insert projectUuid userId w
    (ProjectMembers.bulkAddProjectMembers projectUuid userId memberEmails defaultRole w).2
  ∧ guarded_insert projectUuid userId w
      (Members.addProjectMember projectUuid userId member_email_ role_ w).2.
Proof. split; [apply bulkAdd_guarded|apply addProjectMember_guarded]. Qed.

(** * The bulk add on a store that answers every call *)

Lemma bulkAdd_healthy w projectUuid uid emails defaultRole :
  healthy w → uid ≠ 0 → emails ≠ [] →
  may_add_members (db w) projectUuid uid →
  let clean := cleanEmails emails in
  let new :=
    ProjectMembers.newEmails clean (ProjectMembers.existingMembersQuery projectUuid (db w)) in
  let byEmail := ProjectMembers.userByEmail (Query.users_by_email new (db w)) in
  let rows := ProjectMembers.memberRows projectUuid byEmail defaultRole new in
  let run :=
    ProjectMembers.bulkAddProjectMembers projectUuid (Some uid) (Some emails) defaultRole w in
  healthy run.2
  ∧ if decide (clean = [])
    then run.1 = Fail 400 "No valid email addresses provided" ∧ db run.2 = db w
    else if decide (new = [])
    then run.1 = Fail 409 "All provided emails are already members of this project"
         ∧ db run.2 = db w
    else run.1 = Json 201 {| ba_membersAdded := length rows;
                             ba_emailsSent := length (filter (λ e, byEmail !! e = None) new);
                             ba_members := rows |}
         ∧ db run.2 = Write.insert_members rows (db w).
Proof.
  intros Hw Huid Hemails Hmay clean new byEmail rows run.
  destruct (authorize_healthy w projectUuid uid emails Hw Huid Hemails Hmay)
    as (w' & selects & Hauth & Hw' & Hdb & _).
  assert (Hrun : ∃ w'', healthy w''
            ∧ run = (if decide (clean = [])
                     then Fail 400 "No valid email addresses provided"
                     else if decide (new = [])
                     then Fail 409 "All provided emails are already members of this project"
                     else Json 201 {| ba_membersAdded := length rows;
                                      ba_emailsSent :=
                                        length (filter (λ e, byEmail !! e = None) new);
                                      ba_members := rows |}, w'')
            ∧ db w'' = if decide (clean = []) then db w
                       else if decide (new = []) then db w
                       else Write.insert_members rows (db w)).
  { subst run. unfold ProjectMembers.bulkAddProjectMembers.
    unfold mbind at 1, M_bind at 1. rewrite Hauth. fold clean.
    destruct (decide (clean = [])) as [Hclean|Hclean]; [by exists w'|].
    unfold mbind at 1, M_bind at 1. rewrite select_healthy by done.
    cbn [rows_or_empty]. rewrite Hdb. fold new.
    destruct (decide (new = [])) as [Hnew|Hnew].
    { eexists. split; [|split; [reflexivity|reflexivity]]. by apply healthy_tick. }
    unfold mbind at 1, M_bind at 1. rewrite select_healthy by (by apply healthy_tick).
    cbn [rows_or_empty db tick]. rewrite ?Hdb. fold byEmail. fold rows.
    unfold mbind at 1, M_bind at 1.
    rewrite mutate_healthy by (by repeat apply healthy_tick).
    cbn [db tick]. rewrite ?Hdb.
    destruct (decide (filter (λ e, byEmail !! e = None) new = [])) as [Hnone|Hsome].
    - run_healthy. eexists. split; [|split; [reflexivity|done]].
      by repeat apply healthy_tick.
    - run_healthy. eexists. split; [|split; [reflexivity|done]].
      by repeat apply healthy_tick. }
  destruct Hrun as (w'' & Hw'' & -> & Hdb''). split; [exact Hw''|]. simpl.
  destruct (decide (clean = [])); [done|]. destruct (decide (new = [])); done.
Qed.

Lemma userByEmail_snoc found u :
  ProjectMembers.userByEmail (found ++ [u])
  = if JS.truthy_str (email u)
    then <[JS.toLowerCase (email u) := user_id u]> (ProjectMembers.userByEmail found)
    else ProjectMembers.userByEmail found.
Proof. unfold ProjectMembers.userByEmail. by rewrite foldl_snoc. Qed.

Lemma userByEmail_Some found k id :
  ProjectMembers.userByEmail found !! k = Some id →
  ∃ u, u ∈ found ∧ user_id u = id ∧ JS.toLowerCase (email u) = k.
Proof.
  induction found as [|u found IH] using rev_ind; [done|].
  rewrite userByEmail_snoc.
  destruct (JS.truthy_str (email u)) eqn:Hu.
  - destruct (decide (JS.toLowerCase (email u) = k)) as [<-|Hk].
    + rewrite lookup_insert_eq. intros [= <-].
      exists u. split; [|done]. apply elem_of_app. right. left.
    + rewrite lookup_insert_ne by done. intros (u' & ? & ?)%IH.
      exists u'. split; [|done]. apply elem_of_app. by left.
  - intros (u' & ? & ?)%IH. exists u'. split; [|done]. apply elem_of_app. by left.
Qed.

Lemma userByEmail_is_Some found u :
  u ∈ found → email u ≠ "" →
  is_Some (ProjectMembers.userByEmail found !! JS.toLowerCase (email u)).
Proof.
  induction found as [|u' found IH] using rev_ind; intros Hu Hmail.
  - by apply elem_of_nil in Hu.
  - rewrite userByEmail_snoc.
    destruct (JS.truthy_str (email u')) eqn:Hu'.
    + destruct (decide (JS.toLowerCase (email u') = JS.toLowerCase (email u))) as [<-|Hk].
      * rewrite lookup_insert_eq. eauto.
      * rewrite lookup_insert_ne by done.
        apply elem_of_app in Hu as [Hu| ->%list_elem_of_singleton]; [by apply IH|done].
    + apply elem_of_app in Hu as [Hu| ->%list_elem_of_singleton]; [by apply IH|].
      apply truthy_str_true in Hmail. congruence.
Qed.

Lemma length_filter_fmap {A B} (f : A → B) (P : B → Prop) (Q : A → Prop)
    `{!∀ y, Decision (P y)} `{!∀ x, Decision (Q x)} (l : list A) :
  (∀ x, x ∈ l → P (f x) ↔ Q x) →
  length (filter P (f <$> l)) = length (filter Q l).
Proof.
  induction l as [|x l IH]; intros HPQ; [done|].
  rewrite fmap_cons.
  assert (Hrest : ∀ y, y ∈ l → P (f y) ↔ Q y) by (intros y Hy; apply HPQ; by right).
  destruct (decide (Q x)) as [HQ|HQ].
  - rewrite !filter_cons_True; [|done|by apply HPQ; [left|]].
    simpl. f_equal. by apply IH.
  - rewrite !filter_cons_False; [by apply IH|done|].
    intros HP. apply HQ, HPQ; [left|done].
Qed.

Lemma existing_after_insert projectUuid rows s :
  Forall (λ m, m_project_uuid m = projectUuid) rows →
  ProjectMembers.existingMembersQuery projectUuid (Write.insert_members rows s)
  = ProjectMembers.existingMembersQuery projectUuid s ++ rows.
Proof.
  intros Hrows. unfold ProjectMembers.existingMembersQuery. simpl.
  rewrite filter_app. f_equal. apply filter_everything.
  by apply Forall_forall.
Qed.

Lemma newEmails_lower clean existing e :
  e ∈ ProjectMembers.newEmails (cleanEmails clean) existing → JS.toLowerCase e = e.
Proof. intros [He _]%elem_of_newEmails. by apply (cleanEmails_lower clean). Qed.

Lemma memberRows_lower projectUuid byEmail defaultRole emails :
  (∀ e, e ∈ emails → JS.toLowerCase e = e) →
  lower_email <$> ProjectMembers.memberRows projectUuid byEmail defaultRole emails = emails.
Proof.
  intros Hlow. unfold ProjectMembers.memberRows. rewrite <- list_fmap_compose.
  induction emails as [|e emails IH]; [done|]. rewrite fmap_cons. f_equal.
  - apply Hlow. left.
  - apply IH. intros e' He'. apply Hlow. by right.
Qed.

(** X17: the bulk add keeps the emails of a project distinct.  If no two
    member rows of the project have the same email up to letter case, this
    still holds after the request, and every cleaned email of the request is
    then the email of a member row; so when the owner repeats a request
    that had usable emails, the answer is 409 and nothing is written. *)
Theorem bulk_add_keeps_emails_distinct w projectUuid uid emails defaultRole :
  healthy w → uid ≠ 0 → emails ≠ [] →
  may_add_members (db w) projectUuid uid →
  NoDup (lower_email <$> ProjectMembers.existingMembersQuery projectUuid (db w)) →
  let run :=
    ProjectMembers.bulkAddProjectMembers projectUuid (Some uid) (Some emails) defaultRole w in
  let again :=
    ProjectMembers.bulkAddProjectMembers projectUuid (Some uid) (Some emails) defaultRole
      run.2 in
  NoDup (lower_email <$> ProjectMembers.existingMembersQuery projectUuid (db run.2))
  ∧ (∀ e, e ∈ cleanEmails emails →
          e ∈ lower_email <$> ProjectMembers.existingMembersQuery projectUuid (db run.2))
  ∧ (owner_of (db w) projectUuid uid → cleanEmails emails ≠ [] →
       again.1 = Fail 409 "All provided emails are already members of this project"
       ∧ db again.2 = db run.2).
Proof.
  intros Hw Huid Hemails Hmay Hnd run again.
  destruct (bulkAdd_healthy w projectUuid uid emails defaultRole Hw Huid Hemails Hmay)
    as (Hw1 & Hcases).
  fold run in Hw1, Hcases.
  set (existing := ProjectMembers.existingMembersQuery projectUuid (db w)) in *.
  set (new := ProjectMembers.newEmails (cleanEmails emails) existing) in *.
  set (rows := ProjectMembers.memberRows projectUuid _ defaultRole new) in *.
  assert (Hcovered : ∀ e, e ∈ cleanEmails emails → e ∈ (lower_email <$> existing) ++ new).
  { intros e He. apply elem_of_app.
    destruct (decide (e ∈ lower_email <$> existing)) as [|Hout]; [by left|right].
    apply elem_of_newEmails. split; [done|].
    intros (m & Hm & Hmail). apply Hout. rewrite <- Hmail.
    by apply (list_elem_of_fmap_2 lower_email). }
  assert (Hafter : lower_email <$> ProjectMembers.existingMembersQuery projectUuid (db run.2)
                   = (lower_email <$> existing) ++ new).
  { destruct (decide (cleanEmails emails = [])) as [Hnil|].
    { rewrite (proj2 Hcases). fold existing.
      assert (new = []) as -> by (unfold new, ProjectMembers.newEmails; by rewrite Hnil).
      by rewrite (right_id_L [] (++)). }
    destruct (decide (new = [])) as [Hnone|].
    { rewrite (proj2 Hcases). fold existing. by rewrite Hnone, (right_id_L [] (++)). }
    rewrite (proj2 Hcases).
    rewrite existing_after_insert by apply memberRows_project.
    rewrite fmap_app. f_equal. apply memberRows_lower.
    intros e He. by apply (newEmails_lower emails existing). }
  assert (Hall : ∀ e, e ∈ cleanEmails emails →
            e ∈ lower_email <$> ProjectMembers.existingMembersQuery projectUuid (db run.2)).
  { intros e He. rewrite Hafter. by apply Hcovered. }
  split_and!; [|exact Hall|].
  - rewrite Hafter.
    apply NoDup_app. split_and!; [done| |apply NoDup_filter, NoDup_set_of].
    intros e He [_ Hno]%elem_of_newEmails. apply Hno.
    apply list_elem_of_fmap in He as (m & -> & Hm). by exists m.
  - intros (project & Hproject & Howner) Hclean.
    assert (Hdb : projects (db run.2) = projects (db w)).
    { destruct (decide (cleanEmails emails = [])); [by rewrite (proj2 Hcases)|].
      destruct (decide (new = [])); by rewrite (proj2 Hcases). }
    assert (Hmay' : may_add_members (db run.2) projectUuid uid).
    { exists project. split; [|by left].
      unfold ProjectMembers.projectQuery in *. by rewrite Hdb. }
    destruct (bulkAdd_healthy run.2 projectUuid uid emails defaultRole
                Hw1 Huid Hemails Hmay') as (_ & Hagain).
    fold again in Hagain. rewrite decide_False in Hagain by done.
    rewrite decide_True in Hagain; [done|].
    apply filter_nothing_in. intros e He Hout. apply Hout.
    apply elem_of_set_of. by apply Hall.
Qed.

Lemma bulk_add_keeps_emails_distinct_witness :
  let w := Office.world in
  let run := ProjectMembers.bulkAddProjectMembers "p1" (Some 1)
               (Some ["W@x.com"; "new@x.com"]) None w in
  healthy w ∧ may_add_members (db w) "p1" 1 ∧ owner_of (db w) "p1" 1
  ∧ NoDup (lower_email <$> ProjectMembers.existingMembersQuery "p1" (db w))
  ∧ lower_email <$> ProjectMembers.existingMembersQuery "p1" (db run.2)
    = ["w@x.com"; "guest@x.com"; "new@x.com"]
  ∧ (ProjectMembers.bulkAddProjectMembers "p1" (Some 1)
       (Some ["W@x.com"; "new@x.com"]) None run.2).1
    = Fail 409 "All provided emails are already members of this project".
Proof.
  intros w run.
  assert (Hw : healthy w) by (intros n; reflexivity).
  assert (Howner : owner_of (db w) "p1" 1) by (eexists; split; reflexivity).
  assert (Hmay : may_add_members (db w) "p1" 1).
  { destruct Howner as (project & ? & ?). exists project. eauto. }
  assert (Hnd : NoDup (lower_email <$> ProjectMembers.existingMembersQuery "p1" (db w)))
    by (by apply (bool_decide_unpack _)).
  destruct (bulk_add_keeps_emails_distinct w "p1" 1 ["W@x.com"; "new@x.com"] None
              Hw ltac:(done) ltac:(done) Hmay Hnd) as (_ & _ & Hagain).
  split_and!; [exact Hw|exact Hmay|exact Howner|exact Hnd|reflexivity|].
  by apply Hagain.
Defined.

(** X18: what a successful bulk add reports.  [membersAdded] is the number
    of rows returned; every row has the default role of the request, or
    [viewer] without one; its user id is that of a registered user with the
    row's email when one exists and null otherwise; and, when user ids are
    never zero, [emailsSent] is the number of rows without a user id: the
    invitation goes to exactly the new members without an account. *)
Theorem bulk_add_invites_the_unregistered w projectUuid uid emails defaultRole body :
  healthy w → uid ≠ 0 → emails ≠ [] →
  may_add_members (db w) projectUuid uid →
  Forall (λ u, user_id u ≠ 0) (users (db w)) →
  (ProjectMembers.bulkAddProjectMembers projectUuid (Some uid) (Some emails) defaultRole w).1
  = Json 201 body →
  ba_membersAdded body = length (ba_members body)
  ∧ ba_emailsSent body = length (filter (λ m, m_user_id m = None) (ba_members body))
  ∧ ∀ m, m ∈ ba_members body →
      (∀ r, defaultRole = Some r → r ≠ "" → role m = r)
      ∧ (defaultRole = None ∨ defaultRole = Some "" → role m = "viewer")
      ∧ match m_user_id m with
        | Some id => ∃ u, u ∈ users (db w) ∧ user_id u = id
                          ∧ JS.toLowerCase (email u) = member_email m
        | None => ∀ u, u ∈ users (db w) → email u ≠ member_email m
        end.
Proof.
  intros Hw Huid Hemails Hmay Hids Hrun.
  destruct (bulkAdd_healthy w projectUuid uid emails defaultRole Hw Huid Hemails Hmay)
    as (_ & Hcases).
  set (new := ProjectMembers.newEmails _ _) in Hcases.
  set (found := Query.users_by_email new (db w)) in Hcases.
  set (byEmail := ProjectMembers.userByEmail found) in Hcases.
  destruct (decide (cleanEmails emails = [])); [destruct Hcases; congruence|].
  destruct (decide (new = [])); [destruct Hcases; congruence|].
  destruct Hcases as [Hbody _]. rewrite Hbody in Hrun. injection Hrun as <-. simpl.
  rewrite Forall_forall in Hids.
  assert (Hget : ∀ e, get_or_null byEmail e = byEmail !! e).
  { intros e. unfold get_or_null. destruct (byEmail !! e) as [id|] eqn:Hlook; [|done].
    apply userByEmail_Some in Hlook as (u & Hu & <- & _).
    apply list_elem_of_filter in Hu as [_ Hu].
    assert (JS.truthy_num (user_id u) = true) as -> by (by apply truthy_num_true, Hids).
    done. }
  split_and!; [done| |].
  - symmetry. unfold ProjectMembers.memberRows. apply length_filter_fmap.
    intros e _. simpl. by rewrite Hget.
  - intros m (e & -> & He)%list_elem_of_fmap. simpl. split_and!.
    + intros r -> Hr. by apply truthy_str_true in Hr as ->.
    + by intros [->| ->].
    + rewrite Hget. destruct (byEmail !! e) as [id|] eqn:Hlook.
      * apply userByEmail_Some in Hlook as (u & Hu & Hid & Hmail).
        apply list_elem_of_filter in Hu as [_ Hu]. by exists u.
      * intros u Hu Hmail.
        destruct (userByEmail_is_Some found u) as [id Hsome].
        { apply list_elem_of_filter. by rewrite Hmail. }
        { rewrite Hmail. apply elem_of_newEmails in He as [He _].
          by apply elem_of_cleanEmails in He as [? _]. }
        rewrite Hmail, (newEmails_lower emails _ e He) in Hsome.
        fold byEmail in Hsome. congruence.
Qed.

Lemma bulk_add_invites_the_unregistered_witness :
  let w := Office.world in
  let rows := [Office.member "p2" (Some 3) "w@x.com" "editor";
               Office.member "p2" None "new@x.com" "editor"] in
  healthy w ∧ may_add_members (db w) "p2" 2
  ∧ (ProjectMembers.bulkAddProjectMembers "p2" (Some 2)
       (Some ["u@x.com"; "W@x.com"; "new@x.com"]) (Some "editor") w).1
    = Json 201 {| ba_membersAdded := 2; ba_emailsSent := 1; ba_members := rows |}
  ∧ length (filter (λ m, m_user_id m = None) rows) = 1%nat.
Proof.
  intros w rows.
  assert (Hw : healthy w) by (intros n; reflexivity).
  assert (Hmay : may_add_members (db w) "p2" 2).
  { eexists. split; [reflexivity|]. by left. }
  assert (Hids : Forall (λ u, user_id u ≠ 0) (users (db w)))
    by (by apply (bool_decide_unpack _)).
  destruct (bulk_add_invites_the_unregistered w "p2" 2 ["u@x.com"; "W@x.com"; "new@x.com"]
              (Some "editor")
              {| ba_membersAdded := 2; ba_emailsSent := 1; ba_members := rows |}
              Hw ltac:(done) ltac:(done) Hmay Hids eq_refl) as (_ & Hsent & _).
  split_and!; [exact Hw|exact Hmay|reflexivity|]. symmetry. exact Hsent.
Defined.

Lemma mutate_answered op f w :
  faults w (calls w) = false → mutate op f w = (Data tt, tick op (f (db w)) w).
Proof. intros Hf. unfold mutate, call. by rewrite Hf. Qed.

(** X19: the read of the existing members is optional.  When the store
    refuses just this read, the bulk add of the owner treats the project as
    having no members: it answers 201 and inserts a row for every cleaned
    email, also for one that is a member already. *)
Theorem bulk_add_without_membership_read_adds_everyone w projectUuid uid emails
    defaultRole :
  uid ≠ 0 → owner_of (db w) projectUuid uid →
  (∀ n, faults w n = true ↔ n = (calls w + 1)%nat) →
  cleanEmails emails ≠ [] →
  let run :=
    ProjectMembers.bulkAddProjectMembers projectUuid (Some uid) (Some emails) defaultRole w in
  ∃ body, run.1 = Json 201 body
    ∧ member_email <$> ba_members body = cleanEmails emails
    ∧ ba_membersAdded body = length (cleanEmails emails)
    ∧ project_members (db run.2) = project_members (db w) ++ ba_members body.
Proof.
  intros Huid (project & Hproject & Howner) Hfaults Hclean run.
  assert (Hok : ∀ n, n ≠ (calls w + 1)%nat → faults w n = false).
  { intros n Hn. destruct (faults w n) eqn:Hf; [|done]. by apply Hfaults in Hf. }
  assert (H1 : faults w (S (calls w)) = true) by (apply Hfaults; lia).
  assert (Hemails : emails ≠ []) by (by intros ->).
  set (clean := cleanEmails emails) in *.
  assert (Hnew : ProjectMembers.newEmails clean [] = clean).
  { unfold ProjectMembers.newEmails. apply filter_everything.
    intros e _. apply not_elem_of_nil. }
  assert (Hrun : ∃ rows w', run = (Json 201 {| ba_membersAdded := length rows;
                                               ba_emailsSent :=
                                                 length (filter (λ e, ProjectMembers.userByEmail
                                                   (Query.users_by_email clean (db w)) !! e = None)
                                                   clean);
                                               ba_members := rows |}, w')
            ∧ rows = ProjectMembers.memberRows projectUuid
                       (ProjectMembers.userByEmail (Query.users_by_email clean (db w)))
                       defaultRole clean
            ∧ db w' = Write.insert_members rows (db w)).
  { subst run. unfold ProjectMembers.bulkAddProjectMembers, ProjectMembers.authorize.
    assert (JS.truthy_num uid = true) as -> by (by apply truthy_num_true).
    cbn [negb]. cbv iota. destruct emails as [|e0 emails]; [done|].
    unfold mbind, mret, M_bind, M_ret.
    rewrite select_answered by (apply Hok; lia).
    cbn [data_or_null]. rewrite Hproject. rewrite decide_True by done.
    fold clean. rewrite decide_False by done.
    rewrite select_refused by done. cbn [rows_or_empty]. rewrite Hnew.
    rewrite decide_False by done.
    rewrite select_answered by (apply Hok; simpl; lia).
    cbn [rows_or_empty db tick].
    rewrite mutate_answered by (apply Hok; simpl; lia).
    case_decide.
    - eexists _, _. split; [reflexivity|]. done.
    - rewrite select_answered by (apply Hok; simpl; lia).
      eexists _, _. split; [reflexivity|]. done. }
  destruct Hrun as (rows & w' & -> & -> & Hdb). eexists. split; [reflexivity|]. simpl.
  split_and!.
  - apply memberRows_emails.
  - unfold ProjectMembers.memberRows. by rewrite length_fmap.
  - by rewrite Hdb.
Qed.

Lemma bulk_add_without_membership_read_adds_everyone_witness :
  let w := Scenario.world_of Office.store (fault_at 1) in
  let run := ProjectMembers.bulkAddProjectMembers "p1" (Some 1)
               (Some ["w@x.com"; "new@x.com"]) None w in
  owner_of (db w) "p1" 1
  ∧ (∃ body, run.1 = Json 201 body ∧ ba_membersAdded body = 2%nat)
  ∧ member_email <$> ProjectMembers.existingMembersQuery "p1" (db run.2)
    = ["w@x.com"; "guest@x.com"; "w@x.com"; "new@x.com"].
Proof.
  intros w run.
  assert (Howner : owner_of (db w) "p1" 1) by (eexists; split; reflexivity).
  assert (Hfaults : ∀ n, faults w n = true ↔ n = (calls w + 1)%nat).
  { intros n. simpl. unfold fault_at. apply bool_decide_eq_true. }
  destruct (bulk_add_without_membership_read_adds_everyone w "p1" 1
              ["w@x.com"; "new@x.com"] None ltac:(done) Howner Hfaults ltac:(done))
    as (body & Hbody & _ & Hadded & _).
  split; [exact Howner|]. split; [|reflexivity].
  exists body. split; [exact Hbody|exact Hadded].
Defined.

(** * The single add on a store that answers every call *)

Lemma addProjectMember_healthy w projectUuid uid raw role_ :
  healthy w → uid ≠ 0 → raw ≠ "" →
  may_add_members (db w) projectUuid uid →
  let memberEmail := JS.toLowerCase (JS.trim raw) in
  let row := Members.newMember projectUuid (Members.userQuery memberEmail (db w))
               memberEmail role_ in
  let run := Members.addProjectMember projectUuid (Some uid) (Some raw) role_ w in
  healthy run.2
  ∧ match Members.existingQuery projectUuid memberEmail (db w) with
    | Some _ => run.1 = Fail 409 "Member already exists in this project"
                ∧ db run.2 = db w
    | None => run.1 = Json 201 row ∧ db run.2 = Write.insert_members [row] (db w)
    end.
Proof.
  intros Hw Huid Hraw (project & Hproject & Hallowed) memberEmail row run.
  assert (Hrun : ∃ w', healthy w'
            ∧ run = (match Members.existingQuery projectUuid memberEmail (db w) with
                     | Some _ => Fail 409 "Member already exists in this project"
                     | None => Json 201 row
                     end, w')
            ∧ db w' = match Members.existingQuery projectUuid memberEmail (db w) with
                      | Some _ => db w
                      | None => Write.insert_members [row] (db w)
                      end).
  { subst run. unfold Members.addProjectMember.
    assert (JS.truthy_num uid = true) as -> by (by apply truthy_num_true).
    cbn [negb]. cbv iota. destruct raw as [|c raw]; [done|].
    unfold mbind at 1, M_bind at 1. rewrite select_healthy by done.
    cbn [data_or_null]. rewrite Hproject.
    unfold mbind at 1, M_bind at 1.
    set (w1 := tick (Select "projects") (db w) w).
    assert (Hw1 : healthy w1) by (by apply healthy_tick).
    assert (Hcheck : ∃ w2, healthy w2 ∧ db w2 = db w
              ∧ (if decide (owner_id project = uid) then mret true
                 else memberR ← select "project_members"
                                  (ProjectMembers.memberQuery projectUuid uid);
                      mret (ProjectMembers.may_add (data_or_null memberR))) w1
                = (true, w2)).
    { destruct (decide (owner_id project = uid)) as [|Hother].
      - by exists w1.
      - destruct Hallowed as [|Hmember]; [done|].
        unfold mbind, mret, M_bind, M_ret. rewrite select_healthy by done.
        cbn [data_or_null db tick w1]. rewrite Hmember.
        eexists. split; [|split; [|reflexivity]]; [by apply healthy_tick|done]. }
    destruct Hcheck as (w2 & Hw2 & Hdb2 & ->). cbn [negb]. cbv iota.
    fold memberEmail.
    unfold mbind at 1, M_bind at 1. rewrite select_healthy by done.
    cbn [data_or_null]. rewrite Hdb2.
    destruct (Members.existingQuery projectUuid memberEmail (db w)) as [existing|].
    { eexists. split; [|split; [reflexivity|done]]. by apply healthy_tick. }
    unfold mbind at 1, M_bind at 1. rewrite select_healthy by (by apply healthy_tick).
    cbn [data_or_null db tick]. rewrite ?Hdb2. fold row.
    unfold mbind at 1, M_bind at 1.
    rewrite mutate_healthy by (by repeat apply healthy_tick).
    cbn [db tick]. rewrite ?Hdb2.
    destruct (Members.userQuery memberEmail (db w)) as [user|].
    - run_healthy. eexists. split; [|split; [reflexivity|done]].
      by repeat apply healthy_tick.
    - run_healthy. eexists. split; [|split; [reflexivity|done]].
      by repeat apply healthy_tick. }
  destruct Hrun as (w' & Hw' & -> & Hdb'). split; [exact Hw'|]. simpl.
  by destruct (Members.existingQuery projectUuid memberEmail (db w)).
Qed.

(** X20: the single add.  For a caller who owns the project and an email
    that no member row of the project has yet, the request answers 201 with
    the new row and appends exactly that row: it names the project, has the
    trimmed, lower-case email, the requested role or [viewer], and the id of
    the one registered user with this email, if there is exactly one.
    Repeating the request is answered 409 and writes nothing. *)
Theorem add_member_then_again_conflicts w projectUuid uid raw role_ :
  healthy w → uid ≠ 0 → raw ≠ "" →
  owner_of (db w) projectUuid uid →
  let memberEmail := JS.toLowerCase (JS.trim raw) in
  (∀ m, m ∈ project_members (db w) → m_project_uuid m = projectUuid →
        member_email m ≠ memberEmail) →
  let run := Members.addProjectMember projectUuid (Some uid) (Some raw) role_ w in
  let again := Members.addProjectMember projectUuid (Some uid) (Some raw) role_ run.2 in
  ∃ row, run.1 = Json 201 row
    ∧ project_members (db run.2) = project_members (db w) ++ [row]
    ∧ m_project_uuid row = projectUuid ∧ member_email row = memberEmail
    ∧ (∀ r, role_ = Some r → r ≠ "" → role row = r)
    ∧ (role_ = None ∨ role_ = Some "" → role row = "viewer")
    ∧ (∀ id, m_user_id row = Some id →
         ∃ u, filter (λ u, email u = memberEmail) (users (db w)) = [u] ∧ user_id u = id)
    ∧ again.1 = Fail 409 "Member already exists in this project"
    ∧ db again.2 = db run.2.
Proof.
  intros Hw Huid Hraw (project & Hproject & Howner) memberEmail Hfresh run again.
  assert (Hmay : may_add_members (db w) projectUuid uid) by (exists project; eauto).
  destruct (addProjectMember_healthy w projectUuid uid raw role_ Hw Huid Hraw Hmay)
    as (Hw1 & Hcases).
  fold memberEmail run in Hw1, Hcases.
  assert (Hnone : Members.existingQuery projectUuid memberEmail (db w) = None).
  { unfold Members.existingQuery. rewrite filter_nothing_in; [done|].
    intros m Hm [Hu Hmail]. by apply (Hfresh m). }
  rewrite Hnone in Hcases. destruct Hcases as [Hresponse Hdb].
  set (row := Members.newMember projectUuid _ memberEmail role_) in *.
  assert (Hmay1 : may_add_members (db run.2) projectUuid uid).
  { exists project. split; [|by left]. by rewrite Hdb. }
  destruct (addProjectMember_healthy run.2 projectUuid uid raw role_ Hw1 Huid Hraw Hmay1)
    as (_ & Hagain).
  fold memberEmail again in Hagain.
  assert (Hnow : Members.existingQuery projectUuid memberEmail (db run.2) = Some row).
  { rewrite Hdb. unfold Members.existingQuery. simpl. rewrite filter_app.
    rewrite filter_nothing_in by (intros m Hm [Hu Hmail]; by apply (Hfresh m)).
    by rewrite filter_cons_True. }
  rewrite Hnow in Hagain.
  exists row. split_and!; try done.
  - by rewrite Hdb.
  - simpl. intros r -> Hr. by apply truthy_str_true in Hr as ->.
  - simpl. by intros [->| ->].
  - simpl. unfold Members.resolved, Members.userQuery, single.
    intros id Hid.
    destruct (filter (λ u, email u = memberEmail) (users (db w))) as [|u [|u' rest]];
      [done| |done].
    exists u. split; [done|]. destruct (JS.truthy_num (user_id u)); congruence.
  - apply Hagain.
  - apply Hagain.
Qed.

Lemma add_member_then_again_conflicts_witness :
  let w := Office.world in
  let run := Members.addProjectMember "p1" (Some 1) (Some "  V@x.com ") (Some "editor") w in
  healthy w ∧ owner_of (db w) "p1" 1
  ∧ run.1 = Json 201 (Office.member "p1" (Some 2) "v@x.com" "editor")
  ∧ (Members.addProjectMember "p1" (Some 1) (Some "  V@x.com ") (Some "editor") run.2).1
    = Fail 409 "Member already exists in this project".
Proof.
  intros w run.
  assert (Hw : healthy w) by (intros n; reflexivity).
  assert (Howner : owner_of (db w) "p1" 1) by (eexists; split; reflexivity).
  assert (Hfresh : ∀ m, m ∈ project_members (db w) → m_project_uuid m = "p1" →
                        member_email m ≠ JS.toLowerCase (JS.trim "  V@x.com ")).
  { intros m Hm _. simpl in Hm.
    repeat (apply elem_of_cons in Hm as [->|Hm]; [done|]). by apply elem_of_nil in Hm. }
  destruct (add_member_then_again_conflicts w "p1" 1 "  V@x.com " (Some "editor")
              Hw ltac:(done) ltac:(done) Howner Hfresh)
    as (row & _ & _ & _ & _ & _ & _ & _ & Hagain & _).
  split_and!; [exact Hw|exact Howner|reflexivity|exact Hagain].
Defined.

Lemma cleanEmails_one raw :
  JS.toLowerCase (JS.trim raw) ≠ "" →
  cleanEmails [raw] = [JS.toLowerCase (JS.trim raw)].
Proof.
  intros He%truthy_str_true. unfold cleanEmails. simpl.
  rewrite filter_cons_True by done. done.
Qed.

(** With one user per email, the lookup of the bulk add and the [single()]
    lookup of the single add resolve an email to the same user id. *)
Lemma lookups_agree s e :
  e ≠ "" → JS.toLowerCase e = e → NoDup (email <$> users s) →
  get_or_null (ProjectMembers.userByEmail (Query.users_by_email [e] s)) e
  = Members.resolved (Members.userQuery e s).
Proof.
  intros Hne Hlow Hnd.
  assert (Hsame : Query.users_by_email [e] s = filter (λ u, email u = e) (users s)).
  { unfold Query.users_by_email. apply list_filter_iff. intros u.
    by rewrite list_elem_of_singleton. }
  rewrite Hsame. unfold Members.userQuery.
  destruct (decide (e ∈ email <$> users s)) as [Hin|Hout].
  - destruct (filter_key_single email (users s) e Hnd Hin) as [u Hu]. rewrite Hu.
    assert (Hmail : email u = e).
    { assert (u ∈ filter (λ u, email u = e) (users s)) as Hmem by (rewrite Hu; left).
      by apply list_elem_of_filter in Hmem as [? _]. }
    unfold ProjectMembers.userByEmail, get_or_null. simpl. rewrite Hmail, Hlow.
    apply truthy_str_true in Hne as ->. by rewrite lookup_insert_eq.
  - rewrite filter_nothing_in; [done|].
    intros u Hu Hmail. apply Hout. rewrite <- Hmail. by apply list_elem_of_fmap_2.
Qed.

(** X21: the single add is the bulk add of one email.  With one registered
    user per email, and for an email that no member row of the project has
    up to letter case, the single add and the bulk add of this one email
    with the same role are both answered 201, insert the same row, and leave
    the store in the same state. *)
Theorem single_add_is_bulk_add_of_one w projectUuid uid raw role_ :
  healthy w → uid ≠ 0 →
  may_add_members (db w) projectUuid uid →
  let e := JS.toLowerCase (JS.trim raw) in
  e ≠ "" →
  NoDup (email <$> users (db w)) →
  (∀ m, m ∈ project_members (db w) → m_project_uuid m = projectUuid →
        lower_email m ≠ e) →
  let one := Members.addProjectMember projectUuid (Some uid) (Some raw) role_ w in
  let bulk :=
    ProjectMembers.bulkAddProjectMembers projectUuid (Some uid) (Some [raw]) role_ w in
  ∃ row body,
    one.1 = Json 201 row ∧ bulk.1 = Json 201 body
    ∧ ba_members body = [row] ∧ ba_membersAdded body = 1%nat
    ∧ db one.2 = db bulk.2
    ∧ project_members (db one.2) = project_members (db w) ++ [row].
Proof.
  intros Hw Huid Hmay e He Hnd Hfresh one bulk.
  assert (Hraw : raw ≠ "") by (intros ->; by apply He).
  assert (Hlow : JS.toLowerCase e = e) by apply toLowerCase_idemp.
  destruct (addProjectMember_healthy w projectUuid uid raw role_ Hw Huid Hraw Hmay)
    as (_ & Hone).
  fold e one in Hone.
  assert (Hnone : Members.existingQuery projectUuid e (db w) = None).
  { unfold Members.existingQuery. rewrite filter_nothing_in; [done|].
    intros m Hm [Hu Hmail]. apply (Hfresh m Hm Hu). unfold lower_email. by rewrite Hmail. }
  rewrite Hnone in Hone. destruct Hone as [Hresponse Hdb].
  destruct (bulkAdd_healthy w projectUuid uid [raw] role_ Hw Huid ltac:(done) Hmay)
    as (_ & Hbulk).
  fold bulk in Hbulk. rewrite (cleanEmails_one raw He) in Hbulk. fold e in Hbulk.
  assert (Hnew : ProjectMembers.newEmails [e]
                   (ProjectMembers.existingMembersQuery projectUuid (db w)) = [e]).
  { unfold ProjectMembers.newEmails. apply filter_everything.
    intros x ->%list_elem_of_singleton (m & Hmail & Hm)%elem_of_set_of%list_elem_of_fmap.
    apply list_elem_of_filter in Hm as [Hu Hm]. by apply (Hfresh m Hm Hu). }
  rewrite Hnew in Hbulk.
  rewrite decide_False in Hbulk by done. rewrite decide_False in Hbulk by done.
  destruct Hbulk as [Hbody Hdb'].
  assert (Hrow : ProjectMembers.memberRows projectUuid
                   (ProjectMembers.userByEmail (Query.users_by_email [e] (db w))) role_ [e]
                 = [Members.newMember projectUuid (Members.userQuery e (db w)) e role_]).
  { unfold ProjectMembers.memberRows, Members.newMember. simpl.
    by rewrite (lookups_agree (db w) e He Hlow Hnd). }
  rewrite Hrow in Hbody, Hdb'.
  eexists _, _. split_and!; [exact Hresponse|exact Hbody|done|done|congruence|].
  by rewrite Hdb.
Qed.

Lemma single_add_is_bulk_add_of_one_witness :
  let w := Office.world in
  let one := Members.addProjectMember "p1" (Some 3) (Some " V@x.com") None w in
  let bulk := ProjectMembers.bulkAddProjectMembers "p1" (Some 3) (Some [" V@x.com"]) None w in
  healthy w ∧ may_add_members (db w) "p1" 3 ∧ NoDup (email <$> users (db w))
  ∧ one.1 = Json 201 (Office.member "p1" (Some 2) "v@x.com" "viewer")
  ∧ db one.2 = db bulk.2.
Proof.
  intros w one bulk.
  assert (Hw : healthy w) by (intros n; reflexivity).
  assert (Hmay : may_add_members (db w) "p1" 3).
  { eexists. split; [reflexivity|]. by right. }
  assert (Hnd : NoDup (email <$> users (db w))) by (by apply (bool_decide_unpack _)).
  assert (Hfresh : ∀ m, m ∈ project_members (db w) → m_project_uuid m = "p1" →
                        lower_email m ≠ JS.toLowerCase (JS.trim " V@x.com")).
  { intros m Hm _. simpl in Hm.
    repeat (apply elem_of_cons in Hm as [->|Hm]; [done|]). by apply elem_of_nil in Hm. }
  destruct (single_add_is_bulk_add_of_one w "p1" 3 " V@x.com" None
              Hw ltac:(done) Hmay ltac:(done) Hnd Hfresh)
    as (row & body & _ & _ & _ & _ & Hsame & _).
  split_and!; [exact Hw|exact Hmay|exact Hnd|reflexivity|exact Hsame].
Defined.

(** * Reading one project *)

Lemma project_query_unique s uuid :
  uuids_unique s →
  match ProjectsRead.projectWithMembersQuery uuid s with
  | Some project =>
      pm_project project ∈ projects s ∧ project_uuid (pm_project project) = uuid
      ∧ pm_members project = ProjectMembers.existingMembersQuery uuid s
  | None => ∀ p, p ∈ projects s → project_uuid p ≠ uuid
  end.
Proof.
  intros Hu. unfold ProjectsRead.projectWithMembersQuery.
  destruct (decide (uuid ∈ project_uuid <$> projects s)) as [Hin|Hout].
  - destruct (filter_key_single project_uuid (projects s) uuid Hu Hin) as [p Hp].
    rewrite Hp. simpl.
    assert (p ∈ filter (λ p, project_uuid p = uuid) (projects s)) as Hmem
      by (rewrite Hp; left).
    apply list_elem_of_filter in Hmem as [? ?]. done.
  - rewrite (filter_nothing_in (λ p, project_uuid p = uuid) (projects s)).
    + simpl. intros p Hp Hpu. apply Hout. rewrite <- Hpu. by apply list_elem_of_fmap_2.
    + intros p Hp Hpu. apply Hout. rewrite <- Hpu. by apply list_elem_of_fmap_2.
Qed.

(** The access rule of [getProjectById] and [sendProjectInvites]. *)
Lemma access_follows_visibility s uuid uid :
  uuids_unique s → members_reference_projects s →
  match ProjectsRead.projectWithMembersQuery uuid s with
  | Some project =>
      negb (bool_decide (owner_id (pm_project project) = uid))
      && negb (ProjectsRead.isMember uid (pm_members project)) = false
  | None => False
  end ↔ uuid ∈ visible s uid.
Proof.
  intros Hu Hfk. pose proof (project_query_unique s uuid Hu) as Hq.
  rewrite dashboard_uuids_spec.
  destruct (ProjectsRead.projectWithMembersQuery uuid s) as [project|].
  - destruct Hq as (Hp & Hpu & Hmembers). rewrite Hmembers.
    rewrite andb_false_iff, !negb_false_iff, bool_decide_eq_true.
    unfold ProjectsRead.isMember. rewrite bool_decide_eq_true, Exists_exists. split.
    + intros [Howner|(m & Hm & Huser)].
      * left. by exists (pm_project project).
      * right. apply list_elem_of_filter in Hm as [? ?]. by exists m.
    + intros [(p & Hp' & Howner & Hpu')|(m & Hm & Huser & Hmu)].
      * left. assert (p = pm_project project) as <-; [|done].
        apply (unique_by_key project_uuid (projects s)); [done..|congruence].
      * right. exists m. split; [|done]. by apply list_elem_of_filter.
  - split; [done|].
    intros [(p & Hp & _ & Hpu)|(m & Hm & _ & Hmu)]; [by apply (Hq p)|].
    unfold members_reference_projects in Hfk. rewrite Forall_forall in Hfk.
    apply Hfk, Exists_exists in Hm as (p & Hp & Hpu). apply (Hq p Hp). congruence.
Qed.

(** X22: reading a project and sending invitations follow the visibility
    set.  With one project per UUID and member rows that reference projects
    of the store, [getProjectById] answers 200 exactly for the projects in
    the caller's visibility set, the ones the dashboard counts, and then
    returns the project with the non-empty emails of its member rows;
    [sendProjectInvites] with usable emails answers 200 exactly for the
    same projects and reports the number of cleaned emails. *)
Theorem project_access_follows_visibility w uuid uid emails accepted :
  healthy w → uid ≠ 0 →
  uuids_unique (db w) → members_reference_projects (db w) →
  cleanEmails emails ≠ [] →
  let read := ProjectsRead.getProjectById uuid (Some uid) w in
  let send := ProjectsRead.sendProjectInvites uuid (Some uid) (Some emails) accepted w in
  ((∃ body, read.1 = Json 200 body) ↔ uuid ∈ visible (db w) uid)
  ∧ (∀ body, read.1 = Json 200 body →
       pw_project body ∈ projects (db w) ∧ project_uuid (pw_project body) = uuid
       ∧ ∀ e, e ∈ pw_memberEmails body
              ↔ e ≠ "" ∧ ∃ m, m ∈ project_members (db w) ∧ m_project_uuid m = uuid
                              ∧ member_email m = e)
  ∧ ((∃ n, send.1 = Json 200 n) ↔ uuid ∈ visible (db w) uid)
  ∧ (∀ n, send.1 = Json 200 n → n = length (cleanEmails emails)).
Proof.
  intros Hw Huid Hu Hfk Hclean read send.
  pose proof (access_follows_visibility (db w) uuid uid Hu Hfk) as Haccess.
  pose proof (project_query_unique (db w) uuid Hu) as Hq.
  assert (Hemails : emails ≠ []) by (by intros ->).
  subst read send. unfold ProjectsRead.getProjectById, ProjectsRead.sendProjectInvites.
  assert (JS.truthy_num uid = true) as -> by (by apply truthy_num_true).
  destruct emails as [|e0 emails]; [done|].
  run_healthy.
  destruct (ProjectsRead.projectWithMembersQuery uuid (db w)) as [project|]; simpl.
  - destruct Hq as (Hp & Hpu & Hmembers).
    destruct (negb (bool_decide (owner_id (pm_project project) = uid))
              && negb (ProjectsRead.isMember uid (pm_members project))) eqn:Hdenied; simpl.
    + split_and!; try done.
      * split; [by intros [? ?]|]. intros HV%Haccess. done.
      * split; [by intros [? ?]|]. intros HV%Haccess. done.
    + rewrite decide_False by done. run_healthy.
      split_and!.
      * split; [intros _; by apply Haccess|eauto].
      * intros body [= <-]. simpl. split; [done|]. split; [done|].
        intros e. rewrite list_elem_of_filter, truthy_str_true, list_elem_of_fmap.
        rewrite Hmembers. split.
        -- intros (Hne & m & -> & Hm). split; [done|].
           apply list_elem_of_filter in Hm as [? ?]. by exists m.
        -- intros (Hne & m & Hm & Hmu & <-). split; [done|]. exists m. split; [done|].
           by apply list_elem_of_filter.
      * split; [intros _; by apply Haccess|eauto].
      * by intros n [= <-].
  - split_and!; try done.
    + split; [by intros [? ?]|]. intros HV%Haccess. done.
    + split; [by intros [? ?]|]. intros HV%Haccess. done.
Qed.

Lemma project_access_follows_visibility_witness :
  let w := Office.world in
  healthy w ∧ uuids_unique (db w) ∧ members_reference_projects (db w)
  ∧ (∃ body, (ProjectsRead.getProjectById "p2" (Some 1) w).1 = Json 200 body
             ∧ pw_memberEmails body = ["u@x.com"])
  ∧ (ProjectsRead.getProjectById "p2" (Some 3) w).1
    = Fail 403 "Access denied. You are not a member of this project."
  ∧ (ProjectsRead.sendProjectInvites "p2" (Some 1) (Some ["a@x.com"; "A@x.com "])
       (λ _, true) w).1
    = Json 200 1%nat.
Proof.
  intros w.
  assert (Hw : healthy w) by (intros n; reflexivity).
  assert (Hu : uuids_unique (db w)) by (by apply (bool_decide_unpack _)).
  assert (Hfk : members_reference_projects (db w)) by (by apply (bool_decide_unpack _)).
  destruct (project_access_follows_visibility w "p2" 1 ["a@x.com"; "A@x.com "] (λ _, true)
              Hw ltac:(done) Hu Hfk ltac:(done)) as (Hread & _ & _ & _).
  split_and!; [exact Hw|exact Hu|exact Hfk| |reflexivity|reflexivity].
  destruct (proj2 Hread) as [body Hbody].
  { apply (bool_decide_unpack _). vm_compute. reflexivity. }
  exists body. split; [exact Hbody|].
  change ((ProjectsRead.getProjectById "p2" (Some 1) w).1)
    with (Json 200 {| pw_project := Scenario.project 2 "p2" 2 (Some 20700) (Some 20758);
                      pw_memberEmails := ["u@x.com"] |}) in Hbody.
  by injection Hbody as <-.
Defined.

(** X23: what [emailsSent] counts.  Whatever the store answers and whichever
    mails the transport takes, [sendProjectInvites] never answers 500: the
    batch settles every mail and does not throw.  When the answer is 200,
    [emailsSent] is the number of cleaned addresses, which is the sum of the
    mails the batch counted as sent and as failed; it is the number of mails
    sent only when the transport took every one of them. *)
Theorem invitations_count_addresses_not_deliveries w uuid userId emails accepted :
  let send := ProjectsRead.sendProjectInvites uuid userId emails accepted w in
  let clean := cleanEmails (default [] emails) in
  (∀ message, send.1 ≠ Fail 500 message)
  ∧ ∀ n, send.1 = Json 200 n →
      ∃ batch, Mail.sendBatchProjectInvites accepted clean = inr batch
        ∧ n = length clean
        ∧ n = (successful batch + failed batch)%nat
        ∧ (successful batch = n ↔ ∀ e, e ∈ clean → accepted e = true).
Proof.
  cbv zeta. unfold ProjectsRead.sendProjectInvites.
  assert (Hbatch : ∀ l,
            let results := accepted <$> l in
            length l = (length (filter (λ r, r = true) results)
                        + length (filter (λ r, r = false) results))%nat
            ∧ (length (filter (λ r, r = true) results) = length l
               ↔ ∀ e, e ∈ l → accepted e = true)).
  { induction l as [|e l [IHsum IHall]]; [split; [done|]; split; [|done]|].
    - by intros _ e ?%elem_of_nil.
    - cbv zeta in *. rewrite fmap_cons.
      pose proof (length_filter (λ r, r = true) (accepted <$> l)) as Hle.
      rewrite length_fmap in Hle.
      destruct (accepted e) eqn:He.
      + rewrite filter_cons_True by done. rewrite (filter_cons_False (λ r, r = false)) by done.
        simpl. split; [lia|]. split.
        * intros Hlen x [->|Hx]%elem_of_cons; [done|]. apply IHall; [lia|done].
        * intros Hall. f_equal. apply IHall. intros x Hx. apply Hall. by right.
      + rewrite filter_cons_False by done. rewrite (filter_cons_True (λ r, r = false)) by done.
        simpl. split; [lia|]. split; [lia|].
        intros Hall. specialize (Hall e ltac:(left)). congruence. }
  destruct userId as [uid|]; [|done].
  destruct (JS.truthy_num uid); cbn [negb]; cbv iota; [|done].
  destruct emails as [[|e0 emails]|]; [done| |done].
  unfold mbind, mret, M_bind, M_ret.
  destruct (select_cases "projects" (ProjectsRead.projectWithMembersQuery uuid) w)
    as (r1 & -> & _).
  destruct (data_or_null r1) as [project|]; [|done].
  destruct (negb (bool_decide (owner_id (pm_project project) = uid))
            && negb (ProjectsRead.isMember uid (pm_members project))); [done|].
  simpl default. set (clean := cleanEmails (e0 :: emails)).
  destruct (decide (clean = [])); [done|].
  destruct (select_cases "users" (λ s, single (filter (λ u, user_id u = uid) (users s)))
              (tick (Select "projects") (db w) w)) as (r2 & -> & _).
  simpl. split; [done|]. intros count [= <-].
  eexists. split; [reflexivity|]. simpl.
  destruct (Hbatch clean) as [Hsum Hall]. split; [done|]. split; [exact Hsum|exact Hall].
Qed.

(** * [Map] and [sort] *)

Section jsmap.
Context {K V : Type} `{EqDecision K}.
Implicit Types (m : list (K * V)) (k : K) (v : V).

Lemma jsmap_get_cons k0 v0 m k :
  JSMap.get ((k0, v0) :: m) k = if decide (k0 = k) then Some v0 else JSMap.get m k.
Proof.
  unfold JSMap.get. cbn [list_find]. simpl.
  destruct (decide (k0 = k)); [done|].
  by destruct (list_find (λ e, e.1 = k) m) as [[i x]|].
Qed.

Lemma jsmap_set_cons k0 v0 m k v :
  JSMap.set ((k0, v0) :: m) k v
  = if decide (k0 = k) then (k, v) :: m else (k0, v0) :: JSMap.set m k v.
Proof.
  unfold JSMap.set. cbn [list_find]. simpl.
  destruct (decide (k0 = k)); [done|].
  by destruct (list_find (λ e, e.1 = k) m) as [[i x]|].
Qed.

Lemma jsmap_get_set m k v k' :
  JSMap.get (JSMap.set m k v) k' = if decide (k = k') then Some v else JSMap.get m k'.
Proof.
  induction m as [|[k0 v0] m IH].
  - unfold JSMap.set. simpl. rewrite jsmap_get_cons. by destruct (decide (k = k')).
  - rewrite jsmap_set_cons, (jsmap_get_cons k0 v0 m k').
    destruct (decide (k0 = k)) as [->|Hk0].
    + rewrite jsmap_get_cons. by destruct (decide (k = k')).
    + rewrite jsmap_get_cons. destruct (decide (k0 = k')) as [->|]; [|done].
      by rewrite decide_False by done.
Qed.

Lemma jsmap_has_get m k : JSMap.has m k = true ↔ is_Some (JSMap.get m k).
Proof.
  unfold JSMap.has. rewrite bool_decide_eq_true.
  induction m as [|[k0 v0] m IH].
  - split; [by intros ?%elem_of_nil|by intros [? ?]].
  - rewrite jsmap_get_cons, fmap_cons, elem_of_cons. simpl.
    destruct (decide (k0 = k)) as [->|Hk0]; [split; [eauto|by left]|].
    rewrite <- IH. split; [intros [?|?]; [congruence|done]|by right].
Qed.

Lemma jsmap_keys_set m k v :
  JSMap.keys (JSMap.set m k v)
  = if JSMap.has m k then JSMap.keys m else JSMap.keys m ++ [k].
Proof.
  unfold JSMap.keys, JSMap.has. induction m as [|[k0 v0] m IH].
  - by rewrite bool_decide_eq_false_2 by apply not_elem_of_nil.
  - rewrite jsmap_set_cons. destruct (decide (k0 = k)) as [->|Hk0].
    + rewrite bool_decide_eq_true_2 by (rewrite fmap_cons; left). done.
    + rewrite !fmap_cons, IH. simpl.
      destruct (decide (k ∈ m.*1)) as [Hin|Hout].
      * rewrite !bool_decide_eq_true_2; [done|by right|done].
      * rewrite !bool_decide_eq_false_2; [done| |done].
        intros [?|?]%elem_of_cons; [congruence|done].
Qed.

Lemma jsmap_elem_of_set m k v e :
  e ∈ JSMap.set m k v → e = (k, v) ∨ e ∈ m.
Proof.
  induction m as [|[k0 v0] m IH].
  - unfold JSMap.set. simpl. intros ->%list_elem_of_singleton. by left.
  - rewrite jsmap_set_cons. destruct (decide (k0 = k)) as [->|Hk0].
    + intros [->|?]%elem_of_cons; [by left|right; by right].
    + intros [->|[->|?]%IH]%elem_of_cons; [right; left|by left|right; by right].
Qed.
End jsmap.

Lemma jsmap_push_get {K V} `{EqDecision K} (m : list (K * list V)) k v k' :
  JSMap.get (JSMap.push m k v) k'
  = if decide (k = k') then Some (default [] (JSMap.get m k) ++ [v]) else JSMap.get m k'.
Proof.
  unfold JSMap.push.
  destruct (JSMap.has m k) eqn:Hhas.
  - apply jsmap_has_get in Hhas as [vs Hget]. rewrite Hget, jsmap_get_set.
    by destruct (decide (k = k')) as [<-|].
  - assert (Hnone : JSMap.get m k = None).
    { destruct (JSMap.get m k) eqn:Hget; [|done].
      assert (JSMap.has m k = true) by (apply jsmap_has_get; by rewrite Hget).
      congruence. }
    rewrite jsmap_get_set, decide_True by done. rewrite !jsmap_get_set.
    destruct (decide (k = k')) as [<-|]; [|done]. by rewrite ?Hnone.
Qed.

(** Grouping with [push]: under each key, the values of the elements with
    that key, in their order. *)
Lemma jsmap_group {A K V} `{EqDecision K} (key : A → K) (val : A → V) (l : list A) k :
  default [] (JSMap.get (foldl (λ m x, JSMap.push m (key x) (val x)) [] l) k)
  = val <$> filter (λ x, key x = k) l.
Proof.
  revert k. induction l as [|x l IH] using rev_ind; intros k; [done|].
  rewrite foldl_snoc, jsmap_push_get, filter_app, fmap_app.
  destruct (decide (key x = k)) as [<-|Hk].
  - rewrite filter_cons_True by done. simpl. by rewrite IH.
  - rewrite filter_cons_False by done. rewrite filter_nil. simpl.
    by rewrite (right_id_L [] (++)).
Qed.

Section sort_by.
Context {A : Type} (f : A → Z).

Lemma insert_by_perm x l : insert_by f x l ≡ₚ x :: l.
Proof.
  induction l as [|y l IH]; simpl; [done|].
  destruct (decide (f y ≤ f x)); [|done]. rewrite IH. apply Permutation_swap.
Qed.

Lemma insert_by_sorted x l :
  StronglySorted (λ a b, f a ≤ f b) l →
  StronglySorted (λ a b, f a ≤ f b) (insert_by f x l).
Proof.
  induction l as [|y l IH]; simpl; intros Hs.
  - repeat constructor.
  - apply StronglySorted_inv in Hs as [Hs Hall].
    destruct (decide (f y ≤ f x)) as [Hyx|Hxy].
    + constructor; [by apply IH|].
      rewrite insert_by_perm. constructor; [done|exact Hall].
    + constructor; [by constructor|].
      constructor; [lia|]. eapply Forall_impl; [exact Hall|]. simpl. intros z. lia.
Qed.

Lemma sort_by_perm l : sort_by f l ≡ₚ l.
Proof.
  unfold sort_by.
  assert (Hgen : ∀ acc, foldl (λ acc x, insert_by f x acc) acc l ≡ₚ acc ++ l).
  { induction l as [|x l IH]; intros acc; simpl.
    - by rewrite (right_id_L [] (++)).
    - rewrite IH, insert_by_perm. simpl. apply Permutation_middle. }
  apply (Hgen []).
Qed.

Lemma sort_by_sorted l : StronglySorted (λ a b, f a ≤ f b) (sort_by f l).
Proof.
  unfold sort_by.
  assert (Hgen : ∀ acc, StronglySorted (λ a b, f a ≤ f b) acc →
            StronglySorted (λ a b, f a ≤ f b) (foldl (λ acc x, insert_by f x acc) acc l)).
  { induction l as [|x l IH]; intros acc Hacc; simpl; [done|].
    by apply IH, insert_by_sorted. }
  apply Hgen. constructor.
Qed.
End sort_by.

(** * The project list *)

(** What holds of [projectMap] once the projects of [seen] went in: one
    entry per UUID, every entry is a project seen, under its own UUID, and
    every project seen has its UUID among the keys. *)
Lemma projectMap_invariant ownedProjects memberProjects :
  let pmap := ProjectsRead.projectMap ownedProjects memberProjects in
  let seen := ownedProjects ++ omap id memberProjects in
  NoDup (JSMap.keys pmap)
  ∧ (∀ k p, (k, p) ∈ pmap → project_uuid p = k ∧ p ∈ seen)
  ∧ (∀ p, p ∈ seen → project_uuid p ∈ JSMap.keys pmap).
Proof.
  cbv zeta. unfold ProjectsRead.projectMap.
  assert (Howned : ∀ l,
            let m := foldl ProjectsRead.add_owned [] l in
            NoDup (JSMap.keys m)
            ∧ (∀ k p, (k, p) ∈ m → project_uuid p = k ∧ p ∈ l)
            ∧ (∀ p, p ∈ l → project_uuid p ∈ JSMap.keys m)).
  { induction l as [|x l IH] using rev_ind.
    - split_and!; [apply NoDup_nil_2|by intros k p ?%elem_of_nil|by intros p ?%elem_of_nil].
    - cbv zeta in *. rewrite foldl_snoc.
      destruct IH as (Hnd & Hsub & Hkeys). set (m := foldl _ _ _) in *.
      unfold ProjectsRead.add_owned. rewrite jsmap_keys_set. split_and!.
      + destruct (JSMap.has m (project_uuid x)) eqn:Hhas; [done|].
        apply NoDup_app. split_and!; [done| |apply NoDup_singleton].
        intros k Hk ->%list_elem_of_singleton.
        unfold JSMap.has in Hhas. by apply bool_decide_eq_false in Hhas.
      + intros k p [[= -> ->]|Hin]%jsmap_elem_of_set.
        * split; [done|]. apply elem_of_app. right. left.
        * destruct (Hsub k p Hin). split; [done|]. apply elem_of_app. by left.
      + intros p [Hp| ->%list_elem_of_singleton]%elem_of_app.
        * destruct (JSMap.has m (project_uuid x)); [auto|]. apply elem_of_app. auto.
        * destruct (JSMap.has m (project_uuid x)) eqn:Hhas.
          -- unfold JSMap.has in Hhas. by apply bool_decide_eq_true in Hhas.
          -- apply elem_of_app. right. left. }
  specialize (Howned ownedProjects). cbv zeta in Howned.
  set (m0 := foldl ProjectsRead.add_owned [] ownedProjects) in *. clearbody m0.
  induction memberProjects as [|x l IH] using rev_ind.
  - simpl. by rewrite (right_id_L [] (++)).
  - rewrite foldl_snoc, omap_app. destruct IH as (Hnd & Hsub & Hkeys).
    set (m := foldl _ _ _) in *. rewrite (assoc_L (++)).
    set (seen := ownedProjects ++ omap id l) in *.
    destruct x as [p|]; simpl.
    + destruct (JSMap.has m (project_uuid p)) eqn:Hhas.
      * split_and!; [done| |].
        -- intros k q Hin. destruct (Hsub k q Hin). split; [done|]. apply elem_of_app. auto.
        -- intros q [Hq| ->%list_elem_of_singleton]%elem_of_app; [auto|].
           unfold JSMap.has in Hhas. by apply bool_decide_eq_true in Hhas.
      * rewrite jsmap_keys_set, Hhas. split_and!.
        -- apply NoDup_app. split_and!; [done| |apply NoDup_singleton].
           intros k Hk ->%list_elem_of_singleton.
           unfold JSMap.has in Hhas. by apply bool_decide_eq_false in Hhas.
        -- intros k q [[= -> ->]|Hin]%jsmap_elem_of_set.
           ++ split; [done|]. apply elem_of_app. right. left.
           ++ destruct (Hsub k q Hin). split; [done|]. apply elem_of_app. by left.
        -- intros q [Hq| ->%list_elem_of_singleton]%elem_of_app; apply elem_of_app;
             [left; auto|right; left].
    + rewrite (right_id_L [] (++)). done.
Qed.

Lemma membersByProject_get allMembers k :
  default [] (JSMap.get (ProjectsRead.membersByProject allMembers) k)
  = member_email <$> filter (λ m, m_project_uuid m = k) allMembers.
Proof. apply (jsmap_group m_project_uuid member_email). Qed.

Lemma jsmap_values_keys (m : list (string * Project)) :
  (∀ k p, (k, p) ∈ m → project_uuid p = k) →
  project_uuid <$> JSMap.values m = JSMap.keys m.
Proof.
  unfold JSMap.values, JSMap.keys. induction m as [|[k p] m IH]; intros Hm; [done|].
  rewrite !fmap_cons. simpl. f_equal.
  - apply Hm. left.
  - apply IH. intros k' p' Hin. apply Hm. by right.
Qed.

Lemma listProjects_keys s uid x :
  members_reference_projects s →
  x ∈ JSMap.keys (ProjectsRead.projectMap (ProjectsRead.ownedProjectsQuery uid s)
                    (ProjectsRead.memberProjectsQuery uid s))
  ↔ x ∈ visible s uid.
Proof.
  intros Hfk.
  destruct (projectMap_invariant (ProjectsRead.ownedProjectsQuery uid s)
              (ProjectsRead.memberProjectsQuery uid s)) as (_ & Hsub & Hkeys).
  set (pmap := ProjectsRead.projectMap _ _) in *.
  rewrite dashboard_uuids_spec.
  assert (Hseen : ∀ p, p ∈ ProjectsRead.ownedProjectsQuery uid s
                         ++ omap id (ProjectsRead.memberProjectsQuery uid s)
                       ↔ (p ∈ projects s ∧ owner_id p = uid)
                         ∨ ∃ mp, mp ∈ Calendar.memberProjectsQuery uid s
                                 ∧ mp_projects mp = Some p).
  { intros p. rewrite elem_of_app. unfold ProjectsRead.ownedProjectsQuery.
    rewrite sort_by_perm. unfold Query.owned_projects. rewrite list_elem_of_filter.
    unfold ProjectsRead.memberProjectsQuery. rewrite list_elem_of_omap.
    split; (intros [?|Hm]; [left; tauto|right]).
    - destruct Hm as (o & (mp & -> & Hmp)%list_elem_of_fmap & Ho). by exists mp.
    - destruct Hm as (mp & Hmp & Hp). exists (Some p). split; [|done].
      rewrite <- Hp. by apply list_elem_of_fmap_2. }
  split.
  - intros ([k p] & Hk & Hin)%list_elem_of_fmap. simpl in Hk. subst k.
    destruct (Hsub x p Hin) as [Hpu Hp].
    apply Hseen in Hp as [[Hp Howner]|(mp & Hmp & Hsome)].
    + left. by exists p.
    + right. destruct (elem_of_calendar_member _ _ _ _ Hmp Hsome)
        as (_ & m & Hm & Huser & Hmu & _).
      exists m. split_and!; [done..|congruence].
  - intros [(p & Hp & Howner & Hpu)|(m & Hm & Huser & Hmu)].
    + rewrite <- Hpu. apply Hkeys, Hseen. by left.
    + pose proof (embed_project_found s m) as Hfound.
      unfold members_reference_projects in Hfk. rewrite Forall_forall in Hfk.
      pose proof (Hfk m Hm) as (p & Hp & Hpu)%Exists_exists.
      specialize (Hfound ltac:(by exists p)).
      destruct (mp_projects (Calendar.embed_project s m)) as [q|] eqn:Hq; [|done].
      injection Hfound as Hqu. rewrite <- Hmu, <- Hqu. apply Hkeys, Hseen. right.
      exists (Calendar.embed_project s m). split; [|done].
      apply list_elem_of_fmap_2. by apply list_elem_of_filter.
Qed.

(** X24: the project list.  On a store that answers every call, with member
    rows that reference projects of the store, [listProjects] returns one
    entry per UUID of the caller's visibility set and no other entry, in
    ascending order of [project_id]; every entry is a project of the store
    and carries the emails of all member rows of that project. *)
Theorem project_list_is_the_visibility_set w uid :
  healthy w → uid ≠ 0 → members_reference_projects (db w) →
  ∃ l, (ProjectsRead.listProjects (Some uid) w).1 = Json 200 l
    ∧ NoDup ((λ e, project_uuid (pw_project e)) <$> l)
    ∧ (∀ x, x ∈ (λ e, project_uuid (pw_project e)) <$> l ↔ x ∈ visible (db w) uid)
    ∧ StronglySorted (λ a b, project_id (pw_project a) ≤ project_id (pw_project b)) l
    ∧ ∀ e, e ∈ l →
        pw_project e ∈ projects (db w)
        ∧ pw_memberEmails e
          ≡ₚ member_email
               <$> ProjectMembers.existingMembersQuery (project_uuid (pw_project e)) (db w).
Proof.
  intros Hw Huid Hfk. unfold ProjectsRead.listProjects.
  assert (JS.truthy_num uid = true) as -> by (by apply truthy_num_true).
  run_healthy.
  pose proof (listProjects_keys (db w) uid) as Hvisible.
  destruct (projectMap_invariant (ProjectsRead.ownedProjectsQuery uid (db w))
              (ProjectsRead.memberProjectsQuery uid (db w))) as (Hnd & Hsub & Hkeys).
  set (pmap := ProjectsRead.projectMap _ _) in *.
  destruct (decide (JSMap.keys pmap = [])) as [Hnone|Hsome].
  - simpl. exists []. split_and!; [done|apply NoDup_nil_2| |constructor|by intros e ?%elem_of_nil].
    intros x. rewrite <- Hvisible by done. by rewrite Hnone.
  - run_healthy. eexists. split; [reflexivity|].
    set (byProject := ProjectsRead.membersByProject _).
    set (mk := λ p, {| pw_project := p;
                       pw_memberEmails := default [] (JSMap.get byProject (project_uuid p)) |}).
    assert (Hperm : sort_by (λ e, project_id (pw_project e)) (mk <$> JSMap.values pmap)
                    ≡ₚ mk <$> JSMap.values pmap) by apply sort_by_perm.
    assert (Huuids : (λ e, project_uuid (pw_project e)) <$> (mk <$> JSMap.values pmap)
                     = JSMap.keys pmap).
    { rewrite <- list_fmap_compose. rewrite <- (jsmap_values_keys pmap).
      - done.
      - intros k p Hin. by destruct (Hsub k p Hin). }
    split_and!.
    + rewrite Hperm, Huuids. done.
    + intros x. rewrite Hperm, Huuids. by apply Hvisible.
    + apply (sort_by_sorted (λ e, project_id (pw_project e))).
    + intros e. rewrite Hperm. intros (p & -> & Hp)%list_elem_of_fmap. simpl.
      apply list_elem_of_fmap in Hp as ([k q] & -> & Hin). simpl.
      destruct (Hsub k q Hin) as [Hqu Hq]. split.
      * apply elem_of_app in Hq as [Hq|Hq].
        -- unfold ProjectsRead.ownedProjectsQuery in Hq. rewrite sort_by_perm in Hq.
           by apply list_elem_of_filter in Hq as [_ ?].
        -- apply list_elem_of_omap in Hq as (o & (mp & -> & Hmp)%list_elem_of_fmap & Ho).
           simpl in Ho. by destruct (elem_of_calendar_member _ _ _ _ Hmp Ho) as [? _].
      * match goal with |- ?a ≡ₚ ?b => cut (a = b); [by intros ->|] end.
        unfold byProject. rewrite membersByProject_get. f_equal.
        unfold Query.members_in, ProjectMembers.existingMembersQuery.
        rewrite list_filter_filter. apply list_filter_iff. intros m.
        split; [tauto|]. intros Hm. split; [done|]. rewrite Hm, Hqu.
        apply list_elem_of_fmap. by exists (k, q).
Qed.

Lemma project_list_is_the_visibility_set_witness :
  let w := Scenario.world_of
             {| users := users Office.store;
                projects := rev (projects Office.store);
                project_members := project_members Office.store;
                tasks := []; task_assignments := [] |} Scenario.no_faults in
  healthy w ∧ members_reference_projects (db w)
  ∧ (project_uuid <$> projects (db w)) = ["p2"; "p1"]
  ∧ ∃ l, (ProjectsRead.listProjects (Some 1) w).1 = Json 200 l
         ∧ (λ e, (project_uuid (pw_project e), pw_memberEmails e)) <$> l
           = [("p1", ["w@x.com"; "guest@x.com"]); ("p2", ["u@x.com"])].
Proof.
  intros w.
  assert (Hw : healthy w) by (intros n; reflexivity).
  assert (Hfk : members_reference_projects (db w)) by (by apply (bool_decide_unpack _)).
  destruct (project_list_is_the_visibility_set w 1 Hw ltac:(done) Hfk) as (l & Hl & _).
  split_and!; [exact Hw|exact Hfk|reflexivity|]. exists l. split; [exact Hl|].
  change ((ProjectsRead.listProjects (Some 1) w).1)
    with (Json 200 [ {| pw_project := Scenario.project 1 "p1" 1 (Some 20700) (Some 20800);
                        pw_memberEmails := ["w@x.com"; "guest@x.com"] |};
                     {| pw_project := Scenario.project 2 "p2" 2 (Some 20700) (Some 20758);
                        pw_memberEmails := ["u@x.com"] |} ]) in Hl.
  by injection Hl as <-.
Defined.

(** * The error middleware *)



(** * Cleaned emails *)

Lemma is_space_lower c : JS.is_space (JS.lower_ascii c) = JS.is_space c.
Proof. destruct c as [[] [] [] [] [] [] [] []]; reflexivity. Qed.

Lemma trimStart_lower s :
  JS.trimStart (JS.toLowerCase s) = JS.toLowerCase (JS.trimStart s).
Proof.
  induction s as [|c s IH]; [done|]. simpl. rewrite is_space_lower.
  by destruct (JS.is_space c).
Qed.

Lemma trimEnd_lower s :
  JS.trimEnd (JS.toLowerCase s) = JS.toLowerCase (JS.trimEnd s).
Proof.
  induction s as [|c s IH]; [done|]. simpl. rewrite IH.
  destruct (JS.trimEnd s); simpl; [|done].
  rewrite is_space_lower. by destruct (JS.is_space c).
Qed.

Lemma trimEnd_idemp s : JS.trimEnd (JS.trimEnd s) = JS.trimEnd s.
Proof.
  induction s as [|c s IH]; [done|]. simpl.
  destruct (JS.trimEnd s) as [|a r] eqn:Hr.
  - destruct (JS.is_space c) eqn:Hc; [done|]. simpl. by rewrite Hc.
  - change (JS.trimEnd (String c (String a r)))
      with (match JS.trimEnd (String a r) with
            | EmptyString => if JS.is_space c then EmptyString else String c EmptyString
            | String a' r' => String c (String a' r')
            end).
    by rewrite IH.
Qed.

Lemma trimStart_head s :
  match JS.trimStart s with
  | EmptyString => True
  | String c _ => JS.is_space c = false
  end.
Proof.
  induction s as [|c s IH]; [done|]. simpl.
  by destruct (JS.is_space c) eqn:Hc; [|simpl].
Qed.

Lemma trimStart_trimEnd t :
  match t with EmptyString => True | String c _ => JS.is_space c = false end →
  JS.trimStart (JS.trimEnd t) = JS.trimEnd t.
Proof.
  destruct t as [|c t]; [done|]. intros Hc. simpl.
  destruct (JS.trimEnd t); simpl; rewrite ?Hc; simpl; by rewrite ?Hc.
Qed.

Lemma trim_idemp s : JS.trim (JS.trim s) = JS.trim s.
Proof.
  unfold JS.trim. rewrite trimStart_trimEnd by apply trimStart_head.
  apply trimEnd_idemp.
Qed.

Lemma trim_lower s : JS.trim (JS.toLowerCase s) = JS.toLowerCase (JS.trim s).
Proof. unfold JS.trim. by rewrite trimStart_lower, trimEnd_lower. Qed.

Lemma set_of_NoDup `{EqDecision A} (l : list A) : NoDup l → JS.set_of l = l.
Proof.
  unfold JS.set_of.
  assert (Hgen : ∀ acc, NoDup (acc ++ l) → foldl JS.set_add acc l = acc ++ l).
  { induction l as [|x l IH]; intros acc Hnd; simpl.
    - by rewrite (right_id_L [] (++)).
    - unfold JS.set_add at 2. rewrite decide_False.
      + rewrite IH; rewrite <- (assoc_L (++)); done.
      + apply NoDup_app in Hnd as (_ & Hfresh & _). intros Hin.
        apply (Hfresh x Hin). left. }
  apply (Hgen []).
Qed.

(** ** Characters *)

Lemma chars_cons c s : chars (String c s) = c :: chars s.
Proof. reflexivity. Qed.

Lemma chars_toLowerCase s : chars (JS.toLowerCase s) = JS.lower_ascii <$> chars s.
Proof. induction s as [|c s IH]; [done|]. simpl. by rewrite !chars_cons, IH. Qed.

Lemma lower_ascii_below c :
  (N_of_ascii c < 128)%N → (N_of_ascii (JS.lower_ascii c) < 128)%N.
Proof. destruct c as [[] [] [] [] [] [] [] []]; vm_compute; congruence. Qed.

Lemma lower_ascii_not_upper c : ¬ upper_case_letter (JS.lower_ascii c).
Proof.
  destruct c as [[] [] [] [] [] [] [] []]; intros [H1 H2];
    vm_compute in H1, H2; (by apply H1) || (by apply H2).
Qed.

Lemma lower_ascii_fixed c : ¬ upper_case_letter c → JS.lower_ascii c = c.
Proof.
  unfold upper_case_letter, JS.lower_ascii. intros Hc.
  destruct ((65 <=? N_of_ascii c)%N && (N_of_ascii c <=? 90)%N) eqn:Hin; [|done].
  apply andb_true_iff in Hin as [H1%N.leb_le H2%N.leb_le]. by destruct Hc.
Qed.

Lemma is_space_white c : JS.is_space c = false ↔ ¬ white_space c.
Proof.
  unfold JS.is_space, white_space. generalize (N_of_ascii c). intros n.
  rewrite !elem_of_cons, elem_of_nil, orb_false_iff, andb_false_iff, N.eqb_neq,
    !N.leb_gt.
  lia.
Qed.

Lemma trimStart_suffix s : chars (JS.trimStart s) `suffix_of` chars s.
Proof.
  induction s as [|c s IH]; [done|]. simpl.
  destruct (JS.is_space c); [|done]. rewrite chars_cons. by apply suffix_cons_r.
Qed.

Lemma trimEnd_prefix s : chars (JS.trimEnd s) `prefix_of` chars s.
Proof.
  induction s as [|c s IH]; [done|]. simpl.
  destruct (JS.trimEnd s) as [|a r].
  - destruct (JS.is_space c); rewrite ?chars_cons; [apply prefix_nil|].
    apply prefix_cons, prefix_nil.
  - rewrite !chars_cons in *. by apply prefix_cons.
Qed.

Lemma trimEnd_last s c :
  last (chars (JS.trimEnd s)) = Some c → JS.is_space c = false.
Proof.
  induction s as [|a s IH]; [done|]. simpl.
  destruct (JS.trimEnd s) as [|b r].
  - destruct (JS.is_space a) eqn:Ha; [done|]. by intros [= <-].
  - rewrite !chars_cons in *. exact IH.
Qed.

Lemma trimStart_fixed s :
  (∀ c, head (chars s) = Some c → JS.is_space c = false) → JS.trimStart s = s.
Proof. destruct s as [|c s]; [done|]. intros Hc. simpl. by rewrite (Hc c). Qed.

Lemma trimEnd_fixed s :
  (∀ c, last (chars s) = Some c → JS.is_space c = false) → JS.trimEnd s = s.
Proof.
  induction s as [|a s IH]; [done|]. intros Hc. simpl.
  destruct s as [|b r].
  - simpl. by rewrite (Hc a).
  - rewrite IH; [done|]. intros c Hlast. apply Hc. by rewrite chars_cons.
Qed.

Lemma toLowerCase_fixed s :
  (∀ c, c ∈ chars s → ¬ upper_case_letter c) → JS.toLowerCase s = s.
Proof.
  induction s as [|a s IH]; [done|]. intros Hc. simpl.
  rewrite lower_ascii_fixed, IH; [done| |].
  - intros c Hin. apply Hc. rewrite chars_cons. by right.
  - apply Hc. rewrite chars_cons. left.
Qed.

Lemma canonical_fixed s : canonical s → JS.toLowerCase (JS.trim s) = s.
Proof.
  intros (_ & Hupper & Hhead & Hlast). unfold JS.trim.
  rewrite trimStart_fixed, trimEnd_fixed, toLowerCase_fixed; try done.
  - intros c Hc. by apply is_space_white, Hlast.
  - intros c Hc. by apply is_space_white, Hhead.
Qed.

Lemma canonical_cleaned raw :
  ascii_only raw → canonical (JS.toLowerCase (JS.trim raw)).
Proof.
  intros Hraw. unfold canonical, ascii_only in *. rewrite chars_toLowerCase.
  rewrite Forall_forall in Hraw.
  assert (Hsub : ∀ c, c ∈ chars (JS.trim raw) → c ∈ chars raw).
  { intros c Hc. unfold JS.trim in Hc.
    eapply elem_of_suffix; [|apply trimStart_suffix].
    eapply elem_of_prefix; [exact Hc|apply trimEnd_prefix]. }
  split_and!.
  - apply Forall_forall. intros c (c0 & -> & Hc0)%list_elem_of_fmap.
    by apply lower_ascii_below, Hraw, Hsub.
  - intros c (c0 & -> & _)%list_elem_of_fmap. apply lower_ascii_not_upper.
  - intros c Hc. apply is_space_white.
    destruct (chars (JS.trim raw)) as [|c0 l] eqn:Hchars; [done|].
    injection Hc as <-. rewrite is_space_lower.
    assert (Hhead : head (chars (JS.trimStart raw)) = Some c0).
    { destruct (trimEnd_prefix (JS.trimStart raw)) as [k Hk].
      fold (JS.trim raw) in Hk. rewrite Hchars in Hk. by rewrite Hk. }
    pose proof (trimStart_head raw) as Hstart.
    destruct (JS.trimStart raw) as [|c1 r]; [done|].
    rewrite chars_cons in Hhead. by injection Hhead as ->.
  - intros c Hc. apply is_space_white.
    rewrite fmap_last in Hc.
    destruct (last (chars (JS.trim raw))) as [c0|] eqn:Hlast; [|done].
    injection Hc as <-. rewrite is_space_lower.
    by apply (trimEnd_last (JS.trimStart raw)).
Qed.

(** X26: cleaned emails are canonical.  For member emails within the ASCII
    range, the list the handlers build from them has no duplicates, and each
    of its entries is non-empty, has no upper-case letter and neither starts
    nor ends with white space; an email of the request that is of that form
    already is in the list as it is, and cleaning the list again changes
    nothing. *)
Theorem clean_emails_are_canonical emails :
  Forall ascii_only emails →
  let clean := cleanEmails emails in
  NoDup clean
  ∧ (∀ e, e ∈ clean → e ≠ "" ∧ canonical e)
  ∧ (∀ raw, raw ∈ emails → raw ≠ "" → canonical raw → raw ∈ clean)
  ∧ cleanEmails clean = clean.
Proof.
  intros Hascii clean. rewrite Forall_forall in Hascii.
  assert (Hcanon : ∀ e, e ∈ clean → e ≠ "" ∧ canonical e).
  { intros e (Hne & raw & Hraw & ->)%elem_of_cleanEmails. split; [done|].
    by apply canonical_cleaned, Hascii. }
  split; [apply cleanEmails_NoDup|]. split; [exact Hcanon|]. split.
  { intros raw Hraw Hne Hform. apply elem_of_cleanEmails. split; [done|].
    exists raw. split; [done|]. by rewrite canonical_fixed. }
  unfold cleanEmails at 1.
  assert (Hmap : (λ e, JS.toLowerCase (JS.trim e)) <$> clean = clean).
  { clearbody clean. induction clean as [|e l IH]; [done|]. rewrite fmap_cons. f_equal.
    - apply canonical_fixed, Hcanon. left.
    - apply IH. intros x Hx. apply Hcanon. by right. }
  rewrite Hmap. rewrite filter_everything.
  - apply set_of_NoDup, cleanEmails_NoDup.
  - intros e He. apply truthy_str_true. by apply Hcanon.
Qed.

Lemma clean_emails_are_canonical_witness :
  let emails := ["  Ann@X.com "; "ann@x.com"; "   "; "bob@x.com"] in
  Forall ascii_only emails
  ∧ cleanEmails emails = ["ann@x.com"; "bob@x.com"]
  ∧ canonical "ann@x.com".
Proof.
  intros emails.
  assert (Hascii : Forall ascii_only emails).
  { repeat constructor. }
  destruct (clean_emails_are_canonical emails Hascii) as (_ & Hcanon & _).
  split; [exact Hascii|]. split; [reflexivity|].
  apply (Hcanon "ann@x.com"). left.
Defined.

(** * The member list and the task list *)

Lemma inner_query_unique s uuid :
  uuids_unique s →
  match projectWithInnerMembersQuery uuid s with
  | Some project =>
      pm_project project ∈ projects s ∧ project_uuid (pm_project project) = uuid
      ∧ pm_members project = ProjectMembers.existingMembersQuery uuid s
      ∧ ProjectMembers.existingMembersQuery uuid s ≠ []
  | None => (∀ p, p ∈ projects s → project_uuid p ≠ uuid)
            ∨ ProjectMembers.existingMembersQuery uuid s = []
  end.
Proof.
  intros Hu. unfold projectWithInnerMembersQuery.
  destruct (decide (uuid ∈ project_uuid <$> projects s)) as [Hin|Hout].
  - destruct (filter_key_single project_uuid (projects s) uuid Hu Hin) as [p Hp].
    rewrite Hp.
    assert (p ∈ filter (λ p, project_uuid p = uuid) (projects s)) as Hmem
      by (rewrite Hp; left).
    apply list_elem_of_filter in Hmem as [Hpu Hmem]. rewrite fmap_cons, fmap_nil, Hpu.
    fold (ProjectMembers.existingMembersQuery uuid s).
    destruct (decide (ProjectMembers.existingMembersQuery uuid s = [])) as [Hnone|Hsome].
    + rewrite filter_cons_False by (simpl; tauto). simpl. by right.
    + rewrite filter_cons_True by done. simpl. done.
  - rewrite (filter_nothing_in (λ p, project_uuid p = uuid) (projects s)).
    + simpl. left. intros p Hp Hpu. apply Hout. rewrite <- Hpu. by apply list_elem_of_fmap_2.
    + intros p Hp Hpu. apply Hout. rewrite <- Hpu. by apply list_elem_of_fmap_2.
Qed.

(** The access rule of [listProjectMembers] and of [listTasks] with a
    project: the rule of [getProjectById], for projects with a member row. *)
Lemma inner_access_follows_visibility s uuid uid :
  uuids_unique s → members_reference_projects s →
  match projectWithInnerMembersQuery uuid s with
  | Some project =>
      negb (bool_decide (owner_id (pm_project project) = uid))
      && negb (ProjectsRead.isMember uid (pm_members project)) = false
  | None => False
  end ↔ uuid ∈ visible s uid ∧ ProjectMembers.existingMembersQuery uuid s ≠ [].
Proof.
  intros Hu Hfk. pose proof (inner_query_unique s uuid Hu) as Hq.
  pose proof (access_follows_visibility s uuid uid Hu Hfk) as Hplain.
  pose proof (project_query_unique s uuid Hu) as Hp.
  destruct (projectWithInnerMembersQuery uuid s) as [project|].
  - destruct Hq as (Hin & Hpu & Hmembers & Hsome).
    destruct (ProjectsRead.projectWithMembersQuery uuid s) as [plain|].
    + destruct Hp as (Hin' & Hpu' & Hmembers').
      assert (pm_project plain = pm_project project) as Hsame.
      { apply (unique_by_key project_uuid (projects s)); [done..|congruence]. }
      rewrite Hsame, Hmembers', <- Hmembers in Hplain. rewrite Hplain. tauto.
    + by destruct (Hp (pm_project project)).
  - split; [done|]. intros [HV Hsome].
    destruct Hq as [Hnone|Hnone]; [|done].
    apply Hplain in HV.
    destruct (ProjectsRead.projectWithMembersQuery uuid s) as [plain|]; [|done].
    destruct Hp as (Hin' & Hpu' & _). by apply (Hnone (pm_project plain)).
Qed.

Lemma getProjectById_healthy w uuid uid :
  healthy w → uid ≠ 0 →
  (ProjectsRead.getProjectById uuid (Some uid) w).1
  = match ProjectsRead.projectWithMembersQuery uuid (db w) with
    | None => Fail 404 "Project not found"
    | Some project =>
        if negb (bool_decide (owner_id (pm_project project) = uid))
           && negb (ProjectsRead.isMember uid (pm_members project))
        then Fail 403 "Access denied. You are not a member of this project."
        else Json 200
               {| pw_project := pm_project project;
                  pw_memberEmails :=
                    filter (λ e, JS.truthy_str e = true)
                      (member_email <$> pm_members project) |}
    end.
Proof.
  intros Hw Huid. unfold ProjectsRead.getProjectById.
  assert (JS.truthy_num uid = true) as -> by (by apply truthy_num_true).
  run_healthy. destruct (ProjectsRead.projectWithMembersQuery uuid (db w)); [|done].
  simpl. by destruct (_ && _).
Qed.

Lemma listProjectMembers_healthy w uuid uid :
  healthy w → uid ≠ 0 →
  (Members.listProjectMembers uuid (Some uid) w).1
  = match projectWithInnerMembersQuery uuid (db w) with
    | None => Fail 404 "Project not found"
    | Some project =>
        if negb (bool_decide (owner_id (pm_project project) = uid))
           && negb (ProjectsRead.isMember uid (pm_members project))
        then Fail 403 "Access denied. You are not a member of this project."
        else Json 200 (Members.membersQuery uuid (db w))
    end.
Proof.
  intros Hw Huid. unfold Members.listProjectMembers.
  assert (JS.truthy_num uid = true) as -> by (by apply truthy_num_true).
  run_healthy. destruct (projectWithInnerMembersQuery uuid (db w)); [|done].
  simpl. destruct (_ && _); [done|]. by run_healthy.
Qed.

Lemma sort_by_nil {A} (f : A → Z) : sort_by f [] = [].
Proof. done. Qed.

Lemma listTasks_scoped w uid uuid :
  healthy w → uid ≠ 0 → uuid ≠ "" →
  (Tasks.listTasks (Some uid) (Some uuid) w).1
  = match projectWithInnerMembersQuery uuid (db w) with
    | None => Fail 404 "Project not found"
    | Some project =>
        if negb (bool_decide (owner_id (pm_project project) = uid))
           && negb (ProjectsRead.isMember uid (pm_members project))
        then Fail 403 "Access denied. You are not a member of this project."
        else Json 200 (task_list (db w) [uuid])
    end.
Proof.
  intros Hw Huid Huuid. unfold Tasks.listTasks, Tasks.scope.
  assert (JS.truthy_num uid = true) as -> by (by apply truthy_num_true).
  destruct uuid as [|c uuid]; [done|].
  run_healthy. destruct (projectWithInnerMembersQuery _ (db w)); [|done].
  simpl. destruct (_ && _); [done|]. run_healthy. unfold task_list.
  destruct (Tasks.tasksQuery _ (db w)) as [|t found] eqn:Hfound; [done|].
  by run_healthy.
Qed.

Lemma listTasks_all w uid :
  healthy w → uid ≠ 0 →
  (Tasks.listTasks (Some uid) None w).1
  = Json 200
      (task_list (db w)
         (JS.set_of ((m_project_uuid <$> Query.member_rows uid (db w))
                     ++ (project_uuid <$> Query.owned_projects uid (db w))))).
Proof.
  intros Hw Huid. unfold Tasks.listTasks, Tasks.scope.
  assert (JS.truthy_num uid = true) as -> by (by apply truthy_num_true).
  run_healthy. set (uuids := JS.set_of _).
  destruct (decide (uuids = [])) as [Hnone|Hsome].
  - simpl. rewrite Hnone. unfold task_list, Tasks.tasksQuery. by rewrite tasks_in_nil.
  - run_healthy. unfold task_list.
    destruct (Tasks.tasksQuery uuids (db w)) as [|t found] eqn:Hfound; [done|].
    by run_healthy.
Qed.

Lemma filter_fmap {A B} (f : A → B) (P : B → Prop) `{!∀ y, Decision (P y)} (l : list A) :
  filter P (f <$> l) = f <$> filter (λ x, P (f x)) l.
Proof.
  induction l as [|x l IH]; [done|]. rewrite fmap_cons.
  destruct (decide (P (f x))) as [HP|HP].
  - rewrite !filter_cons_True by done. by rewrite fmap_cons, IH.
  - by rewrite !filter_cons_False by done.
Qed.

Lemma fmap_pointwise {A B} (f g : A → B) (l : list A) :
  (∀ x, f x = g x) → f <$> l = g <$> l.
Proof. intros Hfg. induction l as [|x l IH]; [done|]. by rewrite !fmap_cons, Hfg, IH. Qed.

(** What [task_list] holds: the tasks of the given projects, by descending
    id, each with the users assigned to it. *)
Lemma task_list_spec s uuids :
  ta_task <$> task_list s uuids ≡ₚ Query.tasks_in uuids s
  ∧ StronglySorted (λ a b, task_id (ta_task b) ≤ task_id (ta_task a)) (task_list s uuids)
  ∧ ∀ e, e ∈ task_list s uuids →
      as_user_id <$> ta_assignees e
      = a_user_id <$> filter (λ a, a_task_id a = task_id (ta_task e)) (task_assignments s).
Proof.
  unfold task_list, Tasks.tasksQuery.
  set (sorted := sort_by (λ t, - task_id t) (Query.tasks_in uuids s)).
  set (embed := λ t : Task, (t, _)).
  set (ids := (λ t : Task * option string, task_id t.1) <$> (embed <$> sorted)).
  assert (Hids : ids = task_id <$> sorted).
  { unfold ids. by rewrite <- list_fmap_compose. }
  split_and!.
  - rewrite <- !list_fmap_compose.
    rewrite (fmap_pointwise _ id sorted) by done.
    rewrite list_fmap_id. apply sort_by_perm.
  - rewrite <- list_fmap_compose.
    eapply (StronglySorted_fmap _ (λ a b : Task, - task_id a ≤ - task_id b));
      [|apply (sort_by_sorted (λ t, - task_id t))].
    intros a b. simpl. lia.
  - intros e (t & -> & Ht)%list_elem_of_fmap.
    apply list_elem_of_fmap in Ht as (t0 & -> & Ht0). unfold task_entry. simpl.
    unfold Tasks.assignmentsByTask, Tasks.add_assignment.
    rewrite (jsmap_group au_task_id
               (λ a, {| as_user_id := au_user_id a; as_name := user_name <$> au_users a;
                        as_email := email <$> au_users a |})).
    unfold Tasks.assignmentsQuery. rewrite filter_fmap. simpl.
    rewrite <- !list_fmap_compose. rewrite list_filter_filter.
    rewrite (fmap_pointwise _ a_user_id) by done.
    f_equal. apply list_filter_iff. intros a. split; [tauto|].
    intros Ha. split; [done|]. rewrite Ha, Hids. by apply list_elem_of_fmap_2.
Qed.

(** X27: the member list and the task list of one project need a member
    row.  With one project per UUID and member rows that reference projects
    of the store, [listProjectMembers] and [listTasks] with a project answer
    200 exactly when the project is in the caller's visibility set and has
    at least one member row; the first then returns the member rows of the
    project, the second its tasks.  The owner of a project without member
    rows is answered 404 by both, while [getProjectById] answers 200. *)
Theorem member_list_needs_a_member_row w uuid uid :
  healthy w → uid ≠ 0 → uuid ≠ "" →
  uuids_unique (db w) → members_reference_projects (db w) →
  let members := Members.listProjectMembers uuid (Some uid) w in
  let tasks_ := Tasks.listTasks (Some uid) (Some uuid) w in
  let read := ProjectsRead.getProjectById uuid (Some uid) w in
  let allowed :=
    uuid ∈ visible (db w) uid ∧ ProjectMembers.existingMembersQuery uuid (db w) ≠ [] in
  ((∃ rows, members.1 = Json 200 rows) ↔ allowed)
  ∧ ((∃ l, tasks_.1 = Json 200 l) ↔ allowed)
  ∧ (∀ rows, members.1 = Json 200 rows →
       mu_member <$> rows ≡ₚ ProjectMembers.existingMembersQuery uuid (db w))
  ∧ (∀ l, tasks_.1 = Json 200 l →
       ta_task <$> l ≡ₚ filter (λ t, t_project_uuid t = uuid) (tasks (db w)))
  ∧ (owner_of (db w) uuid uid → ProjectMembers.existingMembersQuery uuid (db w) = [] →
       members.1 = Fail 404 "Project not found"
       ∧ tasks_.1 = Fail 404 "Project not found"
       ∧ ∃ body, read.1 = Json 200 body).
Proof.
  intros Hw Huid Huuid Hu Hfk members tasks_ read allowed.
  subst members tasks_ read allowed.
  rewrite listProjectMembers_healthy, listTasks_scoped, getProjectById_healthy by done.
  pose proof (inner_access_follows_visibility (db w) uuid uid Hu Hfk) as Hinner.
  pose proof (inner_query_unique (db w) uuid Hu) as Hq.
  pose proof (access_follows_visibility (db w) uuid uid Hu Hfk) as Hplain.
  destruct (projectWithInnerMembersQuery uuid (db w)) as [project|].
  - destruct Hq as (_ & _ & _ & Hsome).
    destruct (negb (bool_decide (owner_id (pm_project project) = uid))
              && negb (ProjectsRead.isMember uid (pm_members project))) eqn:Hdenied.
    + split_and!; try done.
      * split; [by intros [? ?]|]. intros Hallowed%Hinner. done.
      * split; [by intros [? ?]|]. intros Hallowed%Hinner. done.
    + split_and!; try done.
      * split; [intros _; by apply Hinner|eauto].
      * split; [intros _; by apply Hinner|eauto].
      * intros rows [= <-]. unfold Members.membersQuery.
        rewrite <- list_fmap_compose. by rewrite list_fmap_id.
      * intros l [= <-]. destruct (task_list_spec (db w) [uuid]) as (Hperm & _).
        rewrite Hperm. unfold Query.tasks_in.
        rewrite (list_filter_iff _ (λ t, t_project_uuid t = uuid)); [done|].
        intros t. by rewrite list_elem_of_singleton.
  - split_and!; try done.
    + split; [by intros [? ?]|]. intros Hallowed%Hinner. done.
    + split; [by intros [? ?]|]. intros Hallowed%Hinner. done.
    + intros (project & Hproject & Howner) Hnone. split; [done|]. split; [done|].
      assert (HV : uuid ∈ visible (db w) uid).
      { apply dashboard_uuids_spec. left. exists project.
        unfold ProjectMembers.projectQuery, single in Hproject.
        destruct (filter (λ p, project_uuid p = uuid) (projects (db w)))
          as [|p [|p' rest]] eqn:Hfilter; simplify_eq/=.
        assert (project ∈ filter (λ p, project_uuid p = uuid) (projects (db w))) as Hmem
          by (rewrite Hfilter; left).
        apply list_elem_of_filter in Hmem as [? ?]. done. }
      apply Hplain in HV.
      destruct (ProjectsRead.projectWithMembersQuery uuid (db w)) as [plain|]; [|done].
      rewrite HV. eauto.
Qed.

Lemma member_list_needs_a_member_row_witness :
  let w := Scenario.world_of Scenario.overdue Scenario.no_faults in
  healthy w ∧ uuids_unique (db w) ∧ members_reference_projects (db w)
  ∧ owner_of (db w) "p1" 1 ∧ ProjectMembers.existingMembersQuery "p1" (db w) = []
  ∧ (Members.listProjectMembers "p1" (Some 1) w).1 = Fail 404 "Project not found"
  ∧ (Tasks.listTasks (Some 1) (Some "p1") w).1 = Fail 404 "Project not found"
  ∧ ∃ body, (ProjectsRead.getProjectById "p1" (Some 1) w).1 = Json 200 body.
Proof.
  intros w.
  assert (Hw : healthy w) by (intros n; reflexivity).
  assert (Hu : uuids_unique (db w)) by (by apply (bool_decide_unpack _)).
  assert (Hfk : members_reference_projects (db w)) by (by apply (bool_decide_unpack _)).
  assert (Howner : owner_of (db w) "p1" 1) by (eexists; split; reflexivity).
  destruct (member_list_needs_a_member_row w "p1" 1 Hw ltac:(done) ltac:(done) Hu Hfk)
    as (_ & _ & _ & _ & Hnone).
  destruct (Hnone Howner eq_refl) as (Hmembers & Htasks & Hread).
  split_and!; [exact Hw|exact Hu|exact Hfk|exact Howner|reflexivity| | |];
    [exact Hmembers|exact Htasks|exact Hread].
Defined.

(** X28: the task list without a project.  On a store that answers every
    call, [listTasks] returns the tasks of exactly the projects in the
    caller's visibility set, the ones the dashboard counts, by descending
    task id, and each entry lists the users assigned to the task. *)
Theorem task_list_follows_visibility w uid :
  healthy w → uid ≠ 0 →
  ∃ l, (Tasks.listTasks (Some uid) None w).1 = Json 200 l
    ∧ ta_task <$> l ≡ₚ Query.tasks_in (visible (db w) uid) (db w)
    ∧ (∀ t, t ∈ ta_task <$> l ↔ t ∈ tasks (db w) ∧ t_project_uuid t ∈ visible (db w) uid)
    ∧ StronglySorted (λ a b, task_id (ta_task b) ≤ task_id (ta_task a)) l
    ∧ ∀ e, e ∈ l →
        as_user_id <$> ta_assignees e
        ≡ₚ a_user_id <$> filter (λ a, a_task_id a = task_id (ta_task e))
                           (task_assignments (db w)).
Proof.
  intros Hw Huid. eexists. split; [by apply listTasks_all|].
  set (uuids := JS.set_of _).
  destruct (task_list_spec (db w) uuids) as (Hperm & Hsorted & Hassignees).
  assert (Hsame : Query.tasks_in uuids (db w) = Query.tasks_in (visible (db w) uid) (db w)).
  { unfold Query.tasks_in. apply list_filter_iff. intros t.
    unfold uuids, visible. rewrite !elem_of_set_of, !elem_of_app. tauto. }
  assert (Hperm' : ta_task <$> task_list (db w) uuids
                   ≡ₚ Query.tasks_in (visible (db w) uid) (db w)) by (by rewrite <- Hsame).
  split_and!; [exact Hperm'| |exact Hsorted|by intros e ->%Hassignees].
  intros t. rewrite Hperm'. unfold Query.tasks_in. rewrite list_elem_of_filter. tauto.
Qed.

Lemma task_list_follows_visibility_witness :
  healthy Office.world
  ∧ ∃ l, (Tasks.listTasks (Some 1) None Office.world).1 = Json 200 l
         ∧ (λ e, (task_id (ta_task e), as_user_id <$> ta_assignees e)) <$> l
           = [(4, []); (3, [1]); (2, []); (1, [])].
Proof.
  assert (Hw : healthy Office.world) by (intros n; reflexivity).
  destruct (task_list_follows_visibility Office.world 1 Hw ltac:(done)) as (l & Hl & _).
  split; [exact Hw|]. exists l. split; [exact Hl|].
  rewrite listTasks_all in Hl by done. injection Hl as <-.
  vm_compute. reflexivity.
Defined.
